(** * AI-Powered-PR-Analyzer: a shallow embedding of the data-shaping core

    The development follows the Python sources:
    - [azdo_client.py]: [AzureDevOpsClient.get_pr_diff] and
      [AzureDevOpsClient.get_pr_added_lines_only], which derives the added
      lines of every changed file of a pull request with [difflib.Differ];
    - [jira_client.py]: [JiraClient.get_issue_summary_only];
    - [data_formatter.py]: [DataFormatter.format_jira_issue],
      [DataFormatter._extract_text_from_adf], [DataFormatter.format_commits]
      and [DataFormatter.format_file_contents];
    - [ai_analyzer.py]: [AIAnalyzer._truncate_text].

    [difflib] is the Python standard library module the client imports; its
    [SequenceMatcher] and [Differ] classes are embedded from CPython 3.11's
    [Lib/difflib.py], method by method. [Differ._fancy_replace] calls itself
    through [Differ._fancy_helper]; the number of nested calls the
    interpreter's recursion limit leaves room for is the parameter [depth]
    of the functions that reach it, which raise [RecursionError] when it is
    used up. The answers of the two web services are parameters of the
    functions that read them. *)

From Stdlib Require Import QArith.
From stdpp Require Import base numbers list strings gmap sorting.

Close Scope Q_scope.
Local Open Scope nat_scope.

(** ** Python values *)

(** A Python [str] is a sequence of Unicode code points. *)
Abbreviation char := N (only parsing).
Abbreviation str := (list N) (only parsing).

Module Py.

(** An ASCII literal as a Python [str]. *)
Definition lit (s : string) : str :=
  Ascii.N_of_ascii <$> String.list_ascii_of_string s.

Definition LF : char := 10%N.
Definition CR : char := 13%N.
Definition SP : char := 32%N.

(** Exceptions the embedded code can raise. *)
Inductive exn := TypeError | AttributeError | KeyError | RecursionError.

Inductive result (A : Type) :=
  | Ok (a : A)
  | Raise (e : exn).
Arguments Ok {A} a.
Arguments Raise {A} e.

#[export] Instance result_ret : MRet result := λ A a, Ok a.
#[export] Instance result_bind : MBind result := λ A B k m,
  match m with
  | Ok a => k a
  | Raise e => Raise e
  end.

(** The line boundaries of [str.splitlines]: LF, VT, FF, CR, FS, GS, RS,
    NEL, LS and PS ([_PyUnicode_IsLinebreak]). *)
Definition is_linebreak (c : char) : bool :=
  bool_decide (c ∈ [10; 11; 12; 13; 28; 29; 30; 133; 8232; 8233]%N).

(** [str.isspace] on one code point ([_PyUnicode_IsWhitespace]). *)
Definition isspace (c : char) : bool :=
  bool_decide (c ∈ [9; 10; 11; 12; 13; 28; 29; 30; 31; 32; 133; 160; 5760;
                    8192; 8193; 8194; 8195; 8196; 8197; 8198; 8199; 8200;
                    8201; 8202; 8232; 8233; 8239; 8287; 12288]%N).

(** [s.splitlines()]: [line] holds the characters read since the last
    boundary; CR LF counts as one boundary, and a last line is emitted only
    when it has characters. *)
Fixpoint splitlines_from (s : str) (line : str) : list str :=
  match s with
  | [] => match line with [] => [] | _ => [line] end
  | c :: s' =>
      if is_linebreak c then
        match s' with
        | c' :: s'' =>
            if bool_decide (c = CR) && bool_decide (c' = LF)
            then line :: splitlines_from s'' []
            else line :: splitlines_from s' []
        | [] => line :: splitlines_from s' []
        end
      else splitlines_from s' (line ++ [c])
  end.

Definition splitlines (s : str) : list str := splitlines_from s [].

(** [s.split(sep)] for a one-character separator. *)
Fixpoint split_from (sep : char) (s : str) (seg : str) : list str :=
  match s with
  | [] => [seg]
  | c :: s' =>
      if bool_decide (c = sep) then seg :: split_from sep s' []
      else split_from sep s' (seg ++ [c])
  end.

Definition split (sep : char) (s : str) : list str := split_from sep s [].

(** [sep.join(parts)]. *)
Fixpoint join (sep : str) (parts : list str) : str :=
  match parts with
  | [] => []
  | p :: rest =>
      match rest with
      | [] => p
      | _ => p ++ sep ++ join sep rest
      end
  end.

(** [s.startswith(p)]. *)
Fixpoint startswith (p s : str) : bool :=
  match p, s with
  | [], _ => true
  | _ :: _, [] => false
  | x :: p', y :: s' => bool_decide (x = y) && startswith p' s'
  end.

(** [s.replace(old, new)] for a non-empty [old]: occurrences are replaced
    from the left and do not overlap; [skip] counts the characters of the
    occurrence just replaced that are still to be passed over. *)
Fixpoint replace_from (old new : str) (skip : nat) (s : str) : str :=
  match s with
  | [] => []
  | c :: s' =>
      match skip with
      | S k => replace_from old new k s'
      | 0 =>
          if startswith old s
          then new ++ replace_from old new (length old - 1) s'
          else c :: replace_from old new 0 s'
      end
  end.

Definition replace (old new s : str) : str := replace_from old new 0 s.

(** [s.rstrip()]: trailing whitespace removed. *)
Fixpoint rstrip (s : str) : str :=
  match s with
  | [] => []
  | c :: s' =>
      match rstrip s' with
      | [] => if isspace c then [] else [c]
      | r => c :: r
      end
  end.

#[local] Unset Elimination Schemes.

(** Values as [json.load] and [response.json()] produce them. A [dict] keeps
    its items in insertion order; numbers are kept as integers, which is all
    the embedded code can observe of them (their truth value). *)
Inductive json :=
  | JNull
  | JBool (b : bool)
  | JNum (z : Z)
  | JStr (s : str)
  | JList (items : list json)
  | JDict (items : list (str * json)).

#[local] Set Elimination Schemes.

(** [d.get(k)] on the items of a dict. *)
Fixpoint dict_get (k : str) (items : list (str * json)) : option json :=
  match items with
  | [] => None
  | (k', v) :: rest => if bool_decide (k' = k) then Some v else dict_get k rest
  end.

(** [d.get(k, dflt)]. *)
Definition dict_get_default (k : str) (dflt : json) (items : list (str * json)) : json :=
  default dflt (dict_get k items).

(** The truth value of a Python object in a condition. *)
Definition truthy (v : json) : bool :=
  match v with
  | JNull => false
  | JBool b => b
  | JNum z => negb (z =? 0)%Z
  | JStr s => match s with [] => false | _ => true end
  | JList l => match l with [] => false | _ => true end
  | JDict d => match d with [] => false | _ => true end
  end.

(** [v == s] for a string literal [s]. *)
Definition eq_str (v : json) (s : str) : bool :=
  match v with
  | JStr s' => bool_decide (s' = s)
  | _ => false
  end.

(** [for x in v]: a list yields its items, a dict its keys and a string its
    characters; other values are not iterable. *)
Definition iterate (v : json) : result (list json) :=
  match v with
  | JList l => Ok l
  | JDict d => Ok ((λ kv, JStr kv.1) <$> d)
  | JStr s => Ok ((λ c, JStr [c]) <$> s)
  | _ => Raise TypeError
  end.

(** The receiver of [v.get(...)]: only a dict has the method. *)
Definition as_dict (v : json) : result (list (str * json)) :=
  match v with
  | JDict d => Ok d
  | _ => Raise AttributeError
  end.

End Py.

Import Py.

(** ** [difflib] (CPython 3.11, [Lib/difflib.py]) *)

Module Difflib.

(** [l.pop()]: the last item and the list without it. *)
Definition list_pop {A} (l : list A) : option (A * list A) :=
  match reverse l with
  | [] => None
  | x :: r => Some (x, reverse r)
  end.

(** [x == y] on two items read by index; a read out of range (an
    [IndexError] in Python, which the callers never cause) compares unequal. *)
Definition item_eqb `{EqDecision E} (x y : option E) : bool :=
  match x, y with
  | Some x, Some y => bool_decide (x = y)
  | _, _ => false
  end.

(** The order of [list.sort] on [Match(a, b, size)] tuples. *)
Definition block_leb (x y : nat * nat * nat) : bool :=
  let '(i1, j1, k1) := x in
  let '(i2, j2, k2) := y in
  if bool_decide (i1 = i2) then
    if bool_decide (j1 = j2) then bool_decide (k1 ≤ k2)
    else bool_decide (j1 < j2)
  else bool_decide (i1 < i2).

Inductive tag := Replace | Delete | Insert | Equal.

(** [_calculate_ratio(matches, length)]. The floats of [difflib] are
    quotients of two small integers and are only compared with each other
    and with 0.74, 0.75; they are kept as exact rationals. *)
Definition _calculate_ratio (matches length : nat) : Q :=
  if bool_decide (length ≠ 0)
  then Qmake (Z.of_nat (2 * matches)) (Pos.of_nat length)
  else 1%Q.

Definition Qgtb (x y : Q) : bool := negb (Qle_bool x y).
Definition Qltb (x y : Q) : bool := negb (Qle_bool y x).

(** [j2lenget(key, dflt)], where [j2lenget = j2len.get]. *)
Definition j2lenget (j2len : gmap Z nat) (key : Z) (dflt : nat) : nat :=
  default dflt (j2len !! key).

(** A match [(i, j, k)] lies inside [a[alo:ahi]] and [b[blo:bhi]]. *)
Definition best_bounds (alo ahi blo bhi : nat) (best : nat * nat * nat) : Prop :=
  alo ≤ best.1.1 ∧ best.1.1 + best.2 ≤ ahi ∧ blo ≤ best.1.2 ∧ best.1.2 + best.2 ≤ bhi.

(** The entries of [j2len] after [rows] rows of the search: their keys are
    indices from [blo] on, and their lengths fit in the rows gone through
    and in the columns up to the key. *)
Definition j2len_bounds (blo rows : nat) (j2len : gmap Z nat) : Prop :=
  ∀ z v, j2len !! z = Some v →
    ∃ j, z = Z.of_nat j ∧ blo ≤ j ∧ v ≤ rows ∧ v ≤ j + 1 - blo.

(** A range [(alo, ahi, blo, bhi)] ends, in [a] and in [b], where another
    one has not begun. *)
Definition range_before (x y : nat * nat * nat * nat) : Prop :=
  let '(_, ahi, _, bhi) := x in
  let '(alo, _, blo, _) := y in
  ahi ≤ alo ∧ bhi ≤ blo.

Definition ranges_apart (x y : nat * nat * nat * nat) : Prop :=
  range_before x y ∨ range_before y x.

(** The ranges a match [(i, j, k)] takes up. *)
Definition block_range (blk : nat * nat * nat) : nat * nat * nat * nat :=
  let '(i, j, k) := blk in (i, i + k, j, j + k).

Definition block_before (x y : nat * nat * nat) : Prop :=
  range_before (block_range x) (block_range y).

(** [x[i]] for [i] in [range(lo, hi)]. *)
Definition range_items `{Inhabited A} (x : list A) (lo hi : nat) : list A :=
  (x !!!.) <$> seq lo (hi - lo).

(** The elements an opcode spans in [a], and in [b]. *)
Definition opcode_a `{Inhabited A} (a : list A) (op : tag * nat * nat * nat * nat)
    : list A :=
  let '(_, alo, ahi, _, _) := op in range_items a alo ahi.

Definition opcode_b `{Inhabited A} (b : list A) (op : tag * nat * nat * nat * nat)
    : list A :=
  let '(_, _, _, blo, bhi) := op in range_items b blo bhi.

(** The ranges waiting in the queue of [get_matching_blocks] are not
    reversed. *)
Definition queue_wf (queue : list (nat * nat * nat * nat)) : Prop :=
  Forall (λ '(alo, ahi, blo, bhi), alo ≤ ahi ∧ blo ≤ bhi) queue.

(** *** [class SequenceMatcher], with [isjunk=None] and [autojunk=True] as
    [Differ] constructs it; the set [bjunk] is then empty. *)
Section SequenceMatcher.

Context `{Countable E}.

(** The first loop of [__chain_b]:
    [for i, elt in enumerate(b): b2j.setdefault(elt, []).append(i)]. *)
Definition chain_b_index (b : list E) : gmap E (list nat) :=
  foldl (λ (b2j : gmap E (list nat)) '(i, elt),
           <[elt := default [] (b2j !! elt) ++ [i]]> b2j)
        ∅ (imap pair b).

(** [__chain_b]: with no junk, only the purge of popular elements is left
    ([if self.autojunk and n >= 200]). *)
Definition chain_b (b : list E) : gmap E (list nat) :=
  let b2j := chain_b_index b in
  let n := length b in
  if bool_decide (200 ≤ n) then
    let ntest := n / 100 + 1 in
    filter (λ kv : E * list nat, ¬ (ntest < length kv.2)) b2j
  else b2j.

(** The indices [b2j.get(b[i], nothing)] that the search runs over for
    the element at [i] of [b] itself. *)
Definition indices_at (b : list E) (i : nat) : list nat :=
  default [] (b !! i ≫= (chain_b b !!.)).

(** The number of consecutive elements of [b], ending at [j], that are keys
    of [b2j]: the elements up to [j] that were not purged as popular. *)
Fixpoint run (b : list E) (j : nat) : nat :=
  match indices_at b j with
  | [] => 0
  | _ => S (match j with 0 => 0 | S j' => run b j' end)
  end.

Definition run_before (b : list E) (j : nat) : nat :=
  match j with
  | 0 => 0
  | S j' => run b j'
  end.

Section Matcher.

Variables a b : list E.

Let b2j : gmap E (list nat) := chain_b b.

(** The inner loop of [find_longest_match],
    [for j in b2j.get(a[i], nothing)], with its [continue] and [break].
    [k] never exceeds [i + 1] and [j + 1], so [i + 1 - k] is the
    source's [i-k+1]. *)
Fixpoint longest_row (i blo bhi : nat) (j2len : gmap Z nat) (idxs : list nat)
    (newj2len : gmap Z nat) (best : nat * nat * nat)
    : gmap Z nat * (nat * nat * nat) :=
  match idxs with
  | [] => (newj2len, best)
  | j :: idxs' =>
      if bool_decide (j < blo) then
        longest_row i blo bhi j2len idxs' newj2len best
      else if bool_decide (bhi ≤ j) then (newj2len, best)
      else
        let k := j2lenget j2len (Z.of_nat j - 1) 0 + 1 in
        let newj2len := <[Z.of_nat j := k]> newj2len in
        let best :=
          if bool_decide (best.2 < k) then (i + 1 - k, j + 1 - k, k)
          else best in
        longest_row i blo bhi j2len idxs' newj2len best
  end.

(** The outer loop, [for i in range(alo, ahi)]; the state is
    [(j2len, (besti, bestj, bestsize))]. *)
Definition longest_rows (alo ahi blo bhi : nat) : gmap Z nat * (nat * nat * nat) :=
  foldl (λ '(j2len, best) i,
           longest_row i blo bhi j2len
             (default [] (a !! i ≫= (b2j !!.))) ∅ best)
        (∅, (alo, blo, 0)) (seq alo (ahi - alo)).

(** [while besti > alo and bestj > blo and not isbjunk(b[bestj-1]) and
    a[besti-1] == b[bestj-1]]. *)
Fixpoint extend_left (alo blo besti bestj bestsize : nat) : nat * nat * nat :=
  match besti, bestj with
  | S i', S j' =>
      if bool_decide (alo < besti) && bool_decide (blo < bestj)
         && item_eqb (a !! i') (b !! j')
      then extend_left alo blo i' j' (bestsize + 1)
      else (besti, bestj, bestsize)
  | _, _ => (besti, bestj, bestsize)
  end.

(** [while besti+bestsize < ahi and bestj+bestsize < bhi and
    not isbjunk(b[bestj+bestsize]) and
    a[besti+bestsize] == b[bestj+bestsize]]; [n] bounds the number of
    iterations, which is at most [ahi - (besti + bestsize)]. *)
Fixpoint extend_right (n ahi bhi besti bestj bestsize : nat) : nat :=
  match n with
  | 0 => bestsize
  | S n' =>
      if bool_decide (besti + bestsize < ahi)
         && bool_decide (bestj + bestsize < bhi)
         && item_eqb (a !! (besti + bestsize)) (b !! (bestj + bestsize))
      then extend_right n' ahi bhi besti bestj (bestsize + 1)
      else bestsize
  end.

(** [find_longest_match(alo, ahi, blo, bhi)]. The two last loops of the
    source extend the match over junk elements only, and there are
    none. *)
Definition find_longest_match (alo ahi blo bhi : nat) : nat * nat * nat :=
  let '(besti, bestj, bestsize) := (longest_rows alo ahi blo bhi).2 in
  let '(besti, bestj, bestsize) := extend_left alo blo besti bestj bestsize in
  let bestsize :=
    extend_right (ahi - (besti + bestsize)) ahi bhi besti bestj bestsize in
  (besti, bestj, bestsize).

(** The [while queue:] loop of [get_matching_blocks]; [fuel] bounds the
    number of iterations. *)
Fixpoint blocks_loop (fuel : nat) (queue : list (nat * nat * nat * nat))
    (matching_blocks : list (nat * nat * nat)) : list (nat * nat * nat) :=
  match fuel with
  | 0 => matching_blocks
  | S fuel' =>
      match list_pop queue with
      | None => matching_blocks
      | Some ((alo, ahi, blo, bhi), queue) =>
          let '(i, j, k) := find_longest_match alo ahi blo bhi in
          if bool_decide (k ≠ 0) then
            let matching_blocks := matching_blocks ++ [(i, j, k)] in
            let queue :=
              if bool_decide (alo < i) && bool_decide (blo < j)
              then queue ++ [(alo, i, blo, j)] else queue in
            let queue :=
              if bool_decide (i + k < ahi) && bool_decide (j + k < bhi)
              then queue ++ [(i + k, ahi, j + k, bhi)] else queue in
            blocks_loop fuel' queue matching_blocks
          else blocks_loop fuel' queue matching_blocks
      end
  end.

(** What is left to do for a queue: every entry is popped once and puts
    back entries for strictly less of [a]. *)
Definition queue_work (queue : list (nat * nat * nat * nat)) : nat :=
  sum_list ((λ '(alo, ahi, _, _), 2 * (ahi - alo) + 1) <$> queue).

(** The loop that collapses adjacent blocks; the state is
    [((i1, j1, k1), non_adjacent)]. *)
Definition collapse_step (st : nat * nat * nat * list (nat * nat * nat))
    (blk : nat * nat * nat) : nat * nat * nat * list (nat * nat * nat) :=
  let '(i1, j1, k1, non_adjacent) := st in
  let '(i2, j2, k2) := blk in
  if bool_decide (i1 + k1 = i2) && bool_decide (j1 + k1 = j2)
  then (i1, j1, k1 + k2, non_adjacent)
  else
    let non_adjacent :=
      if bool_decide (k1 ≠ 0) then non_adjacent ++ [(i1, j1, k1)]
      else non_adjacent in
    (i2, j2, k2, non_adjacent).

Definition get_matching_blocks : list (nat * nat * nat) :=
  let la := length a in
  let lb := length b in
  let matching_blocks := blocks_loop (2 * la + 1) [(0, la, 0, lb)] [] in
  let matching_blocks := merge_sort (λ x y, block_leb x y) matching_blocks in
  let '(i1, j1, k1, non_adjacent) :=
    foldl collapse_step (0, 0, 0, []) matching_blocks in
  let non_adjacent :=
    if bool_decide (k1 ≠ 0) then non_adjacent ++ [(i1, j1, k1)]
    else non_adjacent in
  non_adjacent ++ [(la, lb, 0)].

(** The loop of [get_opcodes]; the state is [(i, j, answer)]. *)
Definition opcodes_step (st : nat * nat * list (tag * nat * nat * nat * nat))
    (blk : nat * nat * nat) : nat * nat * list (tag * nat * nat * nat * nat) :=
  let '(i, j, answer) := st in
  let '(ai, bj, size) := blk in
  let tag :=
    if bool_decide (i < ai) && bool_decide (j < bj) then Some Replace
    else if bool_decide (i < ai) then Some Delete
    else if bool_decide (j < bj) then Some Insert
    else None in
  let answer :=
    match tag with
    | Some tag => answer ++ [(tag, i, ai, j, bj)]
    | None => answer
    end in
  let '(i, j) := (ai + size, bj + size) in
  let answer :=
    if bool_decide (size ≠ 0) then answer ++ [(Equal, ai, i, bj, j)]
    else answer in
  (i, j, answer).

Definition get_opcodes : list (tag * nat * nat * nat * nat) :=
  (foldl opcodes_step (0, 0, []) get_matching_blocks).2.

Definition ratio : Q :=
  let matches := sum_list ((λ triple : nat * nat * nat, triple.2) <$> get_matching_blocks) in
  _calculate_ratio matches (length a + length b).

(** [fullbcount] of [quick_ratio]. *)
Definition fullbcount : gmap E Z :=
  foldl (λ (fullbcount : gmap E Z) elt,
           <[elt := (default 0 (fullbcount !! elt) + 1)%Z]> fullbcount) ∅ b.

(** The loop [for elt in self.a] of [quick_ratio]; the state is
    [(avail, matches)]. *)
Definition quick_step (st : gmap E Z * nat) (elt : E) : gmap E Z * nat :=
  let '(avail, matches) := st in
  let numb :=
    match avail !! elt with
    | Some numb => numb
    | None => default 0%Z (fullbcount !! elt)
    end in
  let avail := <[elt := (numb - 1)%Z]> avail in
  (avail, if bool_decide (0 < numb)%Z then matches + 1 else matches).

Definition quick_ratio : Q :=
  let matches := (foldl quick_step (∅, 0) a).2 in
  _calculate_ratio matches (length a + length b).

Definition real_quick_ratio : Q :=
  let la := length a in
  let lb := length b in
  _calculate_ratio (la `min` lb) (la + lb).

End Matcher.

(** What the search of [find_longest_match] maintains when a sequence is
    matched against itself, before the row [i]: no entry of [j2len] exceeds
    the run that ends before its column or before [i], and the entry of the
    diagonal is that run. *)
Definition j2len_inv (b : list E) (i : nat) (j2len : gmap Z nat) : Prop :=
  (∀ j, j2lenget j2len (Z.of_nat j - 1) 0 ≤ run_before b j)
  ∧ (∀ j, j2lenget j2len (Z.of_nat j - 1) 0 ≤ run_before b i)
  ∧ j2lenget j2len (Z.of_nat i - 1) 0 = run_before b i.

(** And the best match so far lies on the diagonal, ends before [i] and is
    no shorter than any run met. *)
Definition best_inv (b : list E) (i : nat) (best : nat * nat * nat) : Prop :=
  best.1.1 = best.1.2
  ∧ best.1.1 + best.2 ≤ i
  ∧ ∀ i', i' < i → run b i' ≤ best.2.

(** The elements of a match [(i, j, k)] are equal one by one:
    [a[i:i+k] == b[j:j+k]]. *)
Definition block_matches (a b : list E) (blk : nat * nat * nat) : Prop :=
  ∀ t, t < blk.2 →
    ∃ x, a !! (blk.1.1 + t) = Some x ∧ b !! (blk.1.2 + t) = Some x.

(** The entries of [j2len] before the row [i] of the search are lengths of
    matches that end in the row before and at their key. *)
Definition j2len_matches (a b : list E) (i : nat) (j2len : gmap Z nat) : Prop :=
  ∀ z v, j2len !! z = Some v →
    ∃ j, z = Z.of_nat j ∧ v ≤ i ∧ v ≤ j + 1
         ∧ block_matches a b (i - v, j + 1 - v, v).

(** What an opcode says of its ranges: a replacement spans elements of
    both sequences, a deletion nothing of [b], an insertion nothing of [a],
    and the two ranges of an [Equal] are a match. *)
Definition opcode_sound (a b : list E) (op : tag * nat * nat * nat * nat) : Prop :=
  let '(tag, alo, ahi, blo, bhi) := op in
  match tag with
  | Replace => alo < ahi ∧ blo < bhi
  | Delete => alo < ahi ∧ bhi ≤ blo
  | Insert => ahi ≤ alo ∧ blo < bhi
  | Equal => ahi - alo = bhi - blo ∧ block_matches a b (alo, blo, bhi - blo)
  end.

End SequenceMatcher.

(** *** [class Differ], with [linejunk=None] and [charjunk=None] *)

(** [_keep_original_ws(s, tag_s)]. *)
Definition _keep_original_ws (s tag_s : str) : str :=
  (λ '(c, tag_c), if bool_decide (tag_c = SP) && isspace c then c else tag_c)
    <$> zip s tag_s.

(** [_dump(tag, x, lo, hi)]: ['%s %s' % (tag, x[i])] for [i] in
    [range(lo, hi)]. *)
Definition _dump (tag : char) (x : list str) (lo hi : nat) : list str :=
  (λ i, tag :: SP :: x !!! i) <$> seq lo (hi - lo).

Definition PLUS : char := 43%N.
Definition MINUS : char := 45%N.
Definition CARET : char := 94%N.

(** [_plain_replace]; its callers ensure [alo < ahi] and [blo < bhi]. *)
Definition _plain_replace (a : list str) (alo ahi : nat) (b : list str) (blo bhi : nat)
    : list str :=
  if bool_decide (bhi - blo < ahi - alo)
  then _dump PLUS b blo bhi ++ _dump MINUS a alo ahi
  else _dump MINUS a alo ahi ++ _dump PLUS b blo bhi.

(** [_qformat(aline, bline, atags, btags)]. *)
Definition _qformat (aline bline atags btags : str) : list str :=
  let atags := rstrip (_keep_original_ws aline atags) in
  let btags := rstrip (_keep_original_ws bline btags) in
  [lit "- " ++ aline]
  ++ (match atags with [] => [] | _ => [lit "? " ++ atags ++ [LF]] end)
  ++ [lit "+ " ++ bline]
  ++ (match btags with [] => [] | _ => [lit "? " ++ btags ++ [LF]] end).

(** The loop over [cruncher.get_opcodes()] of [_fancy_replace] that builds
    [(atags, btags)]. *)
Definition tags_step (st : str * str) (op : tag * nat * nat * nat * nat) : str * str :=
  let '(atags, btags) := st in
  let '(tag, ai1, ai2, bj1, bj2) := op in
  let la := ai2 - ai1 in
  let lb := bj2 - bj1 in
  match tag with
  | Replace => (atags ++ replicate la CARET, btags ++ replicate lb CARET)
  | Delete => (atags ++ replicate la MINUS, btags)
  | Insert => (atags, btags ++ replicate lb PLUS)
  | Equal => (atags ++ replicate la SP, btags ++ replicate lb SP)
  end.

(** The state of the search of [_fancy_replace]: [best] is
    [(best_ratio, best_i, best_j)] once the three are assigned, and before
    that [best_ratio] is 0.74 and the two others are unbound; [eqs] is
    [(eqi, eqj)]. *)
Definition best_ratio_of (best : option (Q * nat * nat)) : Q :=
  match best with
  | Some (r, _, _) => r
  | None => Qmake 74 100
  end.

Definition cutoff : Q := Qmake 75 100.

(** The body of [for i in range(alo, ahi)], inside [for j in range(blo, bhi)]. *)
Definition search_step (a b : list str) (j : nat)
    (st : option (Q * nat * nat) * option (nat * nat)) (i : nat)
    : option (Q * nat * nat) * option (nat * nat) :=
  let '(best, eqs) := st in
  let bj := b !!! j in
  let ai := a !!! i in
  if bool_decide (ai = bj) then
    (best, match eqs with None => Some (i, j) | Some _ => eqs end)
  else
    let best_ratio := best_ratio_of best in
    if Qgtb (real_quick_ratio ai bj) best_ratio
       && Qgtb (quick_ratio ai bj) best_ratio
       && Qgtb (ratio ai bj) best_ratio
    then (Some (ratio ai bj, i, j), eqs)
    else (best, eqs).

Definition search (a : list str) (alo ahi : nat) (b : list str) (blo bhi : nat)
    : option (Q * nat * nat) * option (nat * nat) :=
  foldl (λ st j, foldl (search_step a b j) st (seq alo (ahi - alo)))
        (None, None) (seq blo (bhi - blo)).

(** The synch point [_fancy_replace] settles on after the search:
    [(best_i, best_j, identical)], or [None] for a straight replace. A
    ratio of at least [cutoff] is an assigned one. *)
Definition synch_point (st : option (Q * nat * nat) * option (nat * nat))
    : option (nat * nat * bool) :=
  let '(best, eqs) := st in
  if Qltb (best_ratio_of best) cutoff then
    match eqs with
    | None => None
    | Some (eqi, eqj) => Some (eqi, eqj, true)
    end
  else
    match best with
    | Some (_, best_i, best_j) => Some (best_i, best_j, false)
    | None => None
    end.

(** [_fancy_replace] and, inside it, [_fancy_helper], which calls it back
    once before and once after the synch point, inside the call that is
    running: the calls nest one level deeper for every synch point, and the
    interpreter raises [RecursionError] when its recursion limit is passed.
    [depth] is the number of nested calls of [_fancy_replace] that the
    limit still leaves room for where the call is made. The lines are those
    the generator yields when it is run to its end, as [list(...)] does;
    when an exception is raised none of them is returned. *)
Fixpoint _fancy_replace (depth : nat) (a : list str) (alo ahi : nat)
    (b : list str) (blo bhi : nat) : result (list str) :=
  match depth with
  | 0 => Raise RecursionError
  | S depth' =>
      let _fancy_helper (alo ahi blo bhi : nat) : result (list str) :=
        if bool_decide (alo < ahi) then
          if bool_decide (blo < bhi) then _fancy_replace depth' a alo ahi b blo bhi
          else Ok (_dump MINUS a alo ahi)
        else if bool_decide (blo < bhi) then Ok (_dump PLUS b blo bhi)
        else Ok [] in
      match synch_point (search a alo ahi b blo bhi) with
      | None => Ok (_plain_replace a alo ahi b blo bhi)
      | Some (best_i, best_j, identical) =>
          let aelt := a !!! best_i in
          let belt := b !!! best_j in
          before ← _fancy_helper alo best_i blo best_j;
          let synched :=
            if identical then [lit "  " ++ aelt]
            else
              let '(atags, btags) :=
                foldl tags_step ([], []) (get_opcodes aelt belt) in
              _qformat aelt belt atags btags in
          after ← _fancy_helper (best_i + 1) ahi (best_j + 1) bhi;
          Ok (before ++ synched ++ after)
      end
  end.

(** The body of the loop of [Differ.compare]: the lines [g] yields for one
    opcode. *)
Definition compare_group (depth : nat) (a b : list str)
    (op : tag * nat * nat * nat * nat) : result (list str) :=
  let '(tag, alo, ahi, blo, bhi) := op in
  match tag with
  | Replace => _fancy_replace depth a alo ahi b blo bhi
  | Delete => Ok (_dump MINUS a alo ahi)
  | Insert => Ok (_dump PLUS b blo bhi)
  | Equal => Ok (_dump SP a alo ahi)
  end.

(** [for tag, alo, ahi, blo, bhi in cruncher.get_opcodes(): ... yield from g]. *)
Fixpoint compare_loop (depth : nat) (a b : list str)
    (opcodes : list (tag * nat * nat * nat * nat)) : result (list str) :=
  match opcodes with
  | [] => Ok []
  | op :: opcodes' =>
      g ← compare_group depth a b op;
      rest ← compare_loop depth a b opcodes';
      Ok (g ++ rest)
  end.

(** [list(Differ().compare(a, b))]: the lines of the delta, or the
    exception that ends the run; [depth] is as for [_fancy_replace], which
    [compare] calls for the opcodes that replace. *)
Definition compare (depth : nat) (a b : list str) : result (list str) :=
  compare_loop depth a b (get_opcodes a b).

(** [l] takes its elements from [l1] and from [l2], from each in its
    order. *)
Inductive interleaved {A} : list A → list A → list A → Prop :=
  | interleaved_nil : interleaved [] [] []
  | interleaved_l x l1 l2 l : interleaved l1 l2 l → interleaved (x :: l1) l2 (x :: l)
  | interleaved_r x l1 l2 l : interleaved l1 l2 l → interleaved l1 (x :: l2) (x :: l).

(** What a delta says one of the two sequences is: its lines marked ['  ']
    or with [tag], which is ['- '] for [a] and ['+ '] for [b], without the
    two characters of the mark. *)
Definition restore_lines (tag : str) (delta : list str) : list str :=
  drop 2 <$> filter (λ line, take 2 line = lit "  " ∨ take 2 line = tag) delta.

End Difflib.

(** ** [azdo_client.py] *)

Module AzureDevOpsClient.

(** The [file_info] dict of [get_pr_added_lines_only]. *)
Record file_info := {
  path : json;
  changeType : json;
  added_lines : list str;
}.

(** The dict [get_pr_added_lines_only] returns. *)
Record added_lines_data := {
  files : list file_info;
  total : nat;
  source_branch : str;
  target_branch : str;
}.

(** Lines 144-147: the lines of [Differ().compare(lines_before, lines_after)]
    that start with ['+ '], without these two characters. [depth] is the
    number of nested calls of [Differ._fancy_replace] that the recursion
    limit of the interpreter leaves room for at this point of the run. *)
Definition compute_added_lines (depth : nat) (lines_before lines_after : list str)
    : result (list str) :=
  Difflib.compare depth lines_before lines_after ≫= λ diff : list str,
    Ok (drop 2 <$> filter (λ line, startswith (lit "+ ") line = true) diff).

(** [pr_data.get(key, '').replace('refs/heads/', '')]. *)
Definition branch_name (pr_data : list (str * json)) (key : str) : result str :=
  match dict_get_default key (JStr []) pr_data with
  | JStr s => Ok (replace (lit "refs/heads/") [] s)
  | _ => Raise AttributeError
  end.

Section Client.

(** The answers of the service for the repository and pull request at
    hand, as the methods that wrap the HTTP calls return them: the parsed
    body, or [None] ([JNull], no text) on any failure. *)
Variable get_pull_request : json.
(** The [diffs/commits] request, by base and target version. *)
Variable get_diffs : str → str → json.
(** [get_file_content(repo, file_path, version_descriptor)]. *)
Variable get_file_content : json → json → option str.
(** The depth of nested calls that the recursion limit of the interpreter
    leaves to [difflib] where the loop calls it. *)
Variable depth : nat.

Definition get_pr_diff : result json :=
  let pr_data := get_pull_request in
  if negb (truthy pr_data) then Ok JNull
  else
    pr_data ← as_dict pr_data;
    source_branch ← branch_name pr_data (lit "sourceRefName");
    target_branch ← branch_name pr_data (lit "targetRefName");
    match source_branch, target_branch with
    | [], _ | _, [] => Ok JNull
    | _, _ => Ok (get_diffs target_branch source_branch)
    end.

(** [if content:] on what [get_file_content] returned. *)
Definition has_content (content : option str) : bool :=
  match content with
  | Some (_ :: _) => true
  | _ => false
  end.

(** The branches [if change_type == 'add'] / [elif change_type == 'edit']
    of the loop: the value of [file_info['added_lines']] after them. *)
Definition classify (change_type file_path : json) (item : list (str * json))
    : result (list str) :=
  if eq_str change_type (lit "add") then
    let object_id := default JNull (dict_get (lit "objectId") item) in
    if truthy object_id then
      let content := get_file_content file_path object_id in
      if has_content content then Ok (splitlines (default [] content))
      else Ok []
    else Ok []
  else if eq_str change_type (lit "edit") then
    let original_object_id := default JNull (dict_get (lit "originalObjectId") item) in
    let object_id := default JNull (dict_get (lit "objectId") item) in
    if truthy original_object_id && truthy object_id then
      let content_before := get_file_content file_path original_object_id in
      let content_after := get_file_content file_path object_id in
      if has_content content_before && has_content content_after then
        let lines_before := splitlines (default [] content_before) in
        let lines_after := splitlines (default [] content_after) in
        compute_added_lines depth lines_before lines_after
      else Ok []
    else Ok []
  else Ok [].

(** One turn of [for change in diff_data.get('changes', [])]. *)
Definition change_step (files_with_additions : list file_info) (change : json)
    : result (list file_info) :=
  change ← as_dict change;
  item ← as_dict (dict_get_default (lit "item") (JDict []) change);
  if truthy (dict_get_default (lit "isFolder") (JBool false) item)
  then Ok files_with_additions
  else
    let file_path := default JNull (dict_get (lit "path") item) in
    let change_type := default JNull (dict_get (lit "changeType") change) in
    lines ← classify change_type file_path item;
    let file_info :=
      {| path := file_path; changeType := change_type; added_lines := lines |} in
    match added_lines file_info with
    | [] => Ok files_with_additions
    | _ => Ok (files_with_additions ++ [file_info])
    end.

Fixpoint changes_loop (changes : list json) (files_with_additions : list file_info)
    : result (list file_info) :=
  match changes with
  | [] => Ok files_with_additions
  | change :: changes' =>
      files_with_additions ← change_step files_with_additions change;
      changes_loop changes' files_with_additions
  end.

(** [get_pr_added_lines_only(repo, pr_id)]; [Ok None] is [return None]. *)
Definition get_pr_added_lines_only : result (option added_lines_data) :=
  let pr_data := get_pull_request in
  if negb (truthy pr_data) then Ok None
  else
    diff_data ← get_pr_diff;
    if negb (truthy diff_data) then Ok None
    else
      pr_data ← as_dict pr_data;
      source_branch ← branch_name pr_data (lit "sourceRefName");
      target_branch ← branch_name pr_data (lit "targetRefName");
      diff_data ← as_dict diff_data;
      changes ← iterate (dict_get_default (lit "changes") (JList []) diff_data);
      files_with_additions ← changes_loop changes [];
      Ok (Some {| files := files_with_additions;
                  total := length files_with_additions;
                  source_branch := source_branch;
                  target_branch := target_branch |}).

End Client.

(** [file] is the [file_info] the loop builds for [change], an entry of the
    changeset that is not a folder. *)
Definition from_change (get_file_content : json → json → option str) (depth : nat)
    (change : json) (file : file_info) : Prop :=
  ∃ d item,
    change = JDict d
    ∧ dict_get_default (lit "item") (JDict []) d = JDict item
    ∧ truthy (dict_get_default (lit "isFolder") (JBool false) item) = false
    ∧ path file = default JNull (dict_get (lit "path") item)
    ∧ changeType file = default JNull (dict_get (lit "changeType") d)
    ∧ classify get_file_content depth (changeType file) (path file) item
      = Ok (added_lines file).

(** What [json.load] reads back from the file that
    [json.dump(added_lines_data, f)] wrote ([pr_files_content.json]): the
    dicts with their keys in the order of insertion. *)
Definition dump_file_info (file : file_info) : json :=
  JDict [(lit "path", path file);
         (lit "changeType", changeType file);
         (lit "added_lines", JList (JStr <$> added_lines file))].

Definition dump_added_lines_data (data : added_lines_data) : json :=
  JDict [(lit "files", JList (dump_file_info <$> files data));
         (lit "total", JNum (Z.of_nat (total data)));
         (lit "source_branch", JStr (source_branch data));
         (lit "target_branch", JStr (target_branch data))].

(** An entry of the changeset the loop can read: a dict whose ['item'], when
    it has one, is a dict. *)
Definition readable_change (change : json) : Prop :=
  ∃ d item, change = JDict d ∧ dict_get_default (lit "item") (JDict []) d = JDict item.

End AzureDevOpsClient.

(** ** [jira_client.py] *)

Module JiraClient.

(** The dict [get_issue_summary_only] builds from the parsed body. *)
Definition issue_summary (data : json) : result json :=
  data ← as_dict data;
  fields ← as_dict (dict_get_default (lit "fields") (JDict []) data);
  Ok (JDict [(lit "key", default JNull (dict_get (lit "key") data));
             (lit "summary", default JNull (dict_get (lit "summary") fields));
             (lit "description", default JNull (dict_get (lit "description") fields))]).

(** [get_issue_summary_only(issue_key)], from the answer of the service:
    no answer when [requests.get] raises, otherwise the status code and the
    parsed body, if the body parses. Every exception is caught and gives
    [None]. *)
Definition get_issue_summary_only (response : option (Z * option json)) : option json :=
  match response with
  | Some (status_code, body) =>
      if (status_code =? 200)%Z then
        match body with
        | Some data =>
            match issue_summary data with
            | Ok summary => Some summary
            | Raise _ => None
            end
        | None => None
        end
      else None
  | None => None
  end.

End JiraClient.

(** ** [ai_analyzer.py] *)

Module AIAnalyzer.

(** [_truncate_text(self, text, max_chars=100000)]: the truncating branch
    is commented out in the source, only [return text] is left. *)
Definition _truncate_text (text : str) (max_chars : Z) : str := text.

Definition _truncate_text_default (text : str) : str :=
  _truncate_text text 100000.

End AIAnalyzer.

(** ** [data_formatter.py] *)

Module DataFormatter.

(** The inner function [extract_content(node)] of [_extract_text_from_adf];
    the list [text_parts] it appends to is threaded through. The lookup of
    ['content'] is the inner [find], which is [dict_get] run on the items of
    the node (see [extract_content_dict]); [each] is the [for] loop over the
    children. Iterating over a dict yields its keys and over a string its
    characters, on which [extract_content] does nothing; any other value of
    ['content'] is not iterable. *)
Fixpoint extract_content (node : json) (text_parts : list json) : result (list json) :=
  match node with
  | JDict d =>
      let text_parts :=
        match dict_get (lit "text") d with
        | Some t => text_parts ++ [t]
        | None => text_parts
        end in
      (fix find (items : list (str * json)) : result (list json) :=
         match items with
         | [] => Ok text_parts
         | (k, c) :: rest =>
             if bool_decide (k = lit "content") then
               match c with
               | JList l =>
                   (fix each (l : list json) (text_parts : list json) :=
                      match l with
                      | [] => Ok text_parts
                      | child :: l' =>
                          text_parts ← extract_content child text_parts;
                          each l' text_parts
                      end) l text_parts
               | JDict _ | JStr _ => Ok text_parts
               | _ => Raise TypeError
               end
             else find rest
         end) d
  | JList l =>
      (fix each (l : list json) (text_parts : list json) :=
         match l with
         | [] => Ok text_parts
         | item :: l' =>
             text_parts ← extract_content item text_parts;
             each l' text_parts
         end) l text_parts
  | _ => Ok text_parts
  end.

(** The [for] loops of [extract_content], named. *)
Fixpoint extract_each (l : list json) (text_parts : list json) : result (list json) :=
  match l with
  | [] => Ok text_parts
  | child :: l' =>
      text_parts ← extract_content child text_parts;
      extract_each l' text_parts
  end.

(** ['\n'.join(text_parts)]: [str.join] raises [TypeError] on an item that
    is not a string. *)
Fixpoint as_strs (parts : list json) : result (list str) :=
  match parts with
  | [] => Ok []
  | JStr s :: rest => rest' ← as_strs rest; Ok (s :: rest')
  | _ :: _ => Raise TypeError
  end.

Section ExtractText.

(** The builtin [str(x)], used on a document that is not a dict. *)
Variable py_str : json → str.

Definition _extract_text_from_adf (adf_doc : json) : result str :=
  match adf_doc with
  | JDict _ =>
      text_parts ← extract_content adf_doc [];
      strs ← as_strs text_parts;
      Ok (join [LF] strs)
  | _ => Ok (py_str adf_doc)
  end.

End ExtractText.

(** The items of the list [format_file_contents] returns. *)
Record file_content := {
  path : json;
  change_type : json;
  lines_before : Z;
  lines_after : Z;
  lines_changed : Z;
  content_before : json;
  content_after : json;
}.

(** [len(content.split('\n')) if content else 0]. *)
Definition count_lines (content : json) : result Z :=
  if truthy content then
    match content with
    | JStr s => Ok (Z.of_nat (length (split LF s)))
    | _ => Raise AttributeError
    end
  else Ok 0%Z.

(** [file_info[key]]. *)
Definition subscript (key : str) (file_info : list (str * json)) : result json :=
  match dict_get key file_info with
  | Some v => Ok v
  | None => Raise KeyError
  end.

(** [lines_after - lines_before if file_info['changeType'] != 'delete' else 0]. *)
Definition lines_added (changeType : json) (lines_before lines_after : Z) : Z :=
  if negb (eq_str changeType (lit "delete")) then (lines_after - lines_before)%Z
  else 0%Z.

(** [lines_before - lines_after if file_info['changeType'] != 'add' else 0]. *)
Definition lines_removed (changeType : json) (lines_before lines_after : Z) : Z :=
  if negb (eq_str changeType (lit "add")) then (lines_before - lines_after)%Z
  else 0%Z.

(** The body of [for file_info in self.pr_files_content.get('files', [])]:
    the dict appended to [files]. *)
Definition format_file (file_info : json) : result file_content :=
  file_info ← as_dict file_info;
  let content_before := dict_get_default (lit "content_before") (JStr []) file_info in
  let content_after := dict_get_default (lit "content_after") (JStr []) file_info in
  lines_before ← count_lines content_before;
  lines_after ← count_lines content_after;
  changeType ← subscript (lit "changeType") file_info;
  let lines_added := lines_added changeType lines_before lines_after in
  let lines_removed := lines_removed changeType lines_before lines_after in
  path ← subscript (lit "path") file_info;
  Ok {| path := path;
        change_type := changeType;
        lines_before := lines_before;
        lines_after := lines_after;
        lines_changed := Z.abs (lines_added - lines_removed);
        content_before := content_before;
        content_after := content_after |}.

Fixpoint format_files (file_infos : list json) (files : list file_content)
    : result (list file_content) :=
  match file_infos with
  | [] => Ok files
  | file_info :: rest =>
      file ← format_file file_info;
      format_files rest (files ++ [file])
  end.

(** [format_file_contents(self)], from [self.pr_files_content]. *)
Definition format_file_contents (pr_files_content : json) : result (list file_content) :=
  if negb (truthy pr_files_content) then Ok []
  else
    pr_files_content ← as_dict pr_files_content;
    file_infos ← iterate (dict_get_default (lit "files") (JList []) pr_files_content);
    format_files file_infos [].

(** The dict [format_jira_issue] returns. *)
Record jira_issue := {
  issue_key : json;
  summary : json;
  description : json;
  type : json;
  status : json;
  priority : json;
  assignee : json;
  reporter : json;
  created : json;
  updated : json;
}.

(** [fields.get(key, {}).get(sub, dflt)]. *)
Definition get_in (fields : list (str * json)) (key sub : str) (dflt : json) : result json :=
  d ← as_dict (dict_get_default key (JDict []) fields);
  Ok (dict_get_default sub dflt d).

Section FormatIssue.

Variable py_str : json → str.

(** [format_jira_issue(self)], from [self.issue_data]; [Ok None] is
    [return None]. *)
Definition format_jira_issue (issue_data : json) : result (option jira_issue) :=
  if negb (truthy issue_data) then Ok None
  else
    issue ← as_dict issue_data;
    fields ← as_dict (dict_get_default (lit "fields") (JDict []) issue);
    let description := dict_get_default (lit "description") (JStr []) fields in
    description ←
      match description with
      | JDict _ => text ← _extract_text_from_adf py_str description; Ok (JStr text)
      | _ => Ok description
      end;
    type ← get_in fields (lit "issuetype") (lit "name") (JStr []);
    status ← get_in fields (lit "status") (lit "name") (JStr []);
    priority ← get_in fields (lit "priority") (lit "name") (JStr []);
    assignee ← get_in fields (lit "assignee") (lit "displayName") (JStr (lit "N/A"));
    reporter ← get_in fields (lit "reporter") (lit "displayName") (JStr (lit "N/A"));
    Ok (Some {| issue_key := default JNull (dict_get (lit "key") issue);
                summary := dict_get_default (lit "summary") (JStr []) fields;
                description := description;
                type := type;
                status := status;
                priority := priority;
                assignee := assignee;
                reporter := reporter;
                created := dict_get_default (lit "created") (JStr []) fields;
                updated := dict_get_default (lit "updated") (JStr []) fields |}).

End FormatIssue.

(** The dicts of the list [format_commits] returns. *)
Record commit_summary := {
  commit_id : json;
  message : json;
  author : json;
  date : json;
}.

(** [x[:8]]: a string and a list have slices, other values raise. *)
Definition slice8 (x : json) : result json :=
  match x with
  | JStr s => Ok (JStr (take 8 s))
  | JList l => Ok (JList (take 8 l))
  | _ => Raise TypeError
  end.

(** The body of [for commit in self.pr_commits.get('value', [])]: the dict
    appended to [commits]. *)
Definition format_commit (commit : json) : result commit_summary :=
  commit ← as_dict commit;
  commit_id ← slice8 (dict_get_default (lit "commitId") (JStr []) commit);
  author ← get_in commit (lit "author") (lit "name") (JStr (lit "N/A"));
  date ← get_in commit (lit "author") (lit "date") (JStr []);
  Ok {| commit_id := commit_id;
        message := dict_get_default (lit "comment") (JStr []) commit;
        author := author;
        date := date |}.

Fixpoint format_commits_loop (value : list json) (commits : list commit_summary)
    : result (list commit_summary) :=
  match value with
  | [] => Ok commits
  | commit :: rest =>
      c ← format_commit commit;
      format_commits_loop rest (commits ++ [c])
  end.

(** [format_commits(self)], from [self.pr_commits]. *)
Definition format_commits (pr_commits : json) : result (list commit_summary) :=
  if negb (truthy pr_commits) then Ok []
  else
    pr_commits ← as_dict pr_commits;
    value ← iterate (dict_get_default (lit "value") (JList []) pr_commits);
    format_commits_loop value [].

(** The number of newline-delimited segments of a string: one more than it
    has newlines. *)
Definition segments (s : str) : nat := S (length (filter (λ c, c = LF) s)).

(** The line count of a content that may be absent: the number of segments
    of a string that is not empty, and 0 when there is no content or none
    that counts (the empty string, [None]). *)
Definition counted (content : option json) (n : Z) : Prop :=
  match content with
  | Some (JStr (c :: s)) => n = Z.of_nat (segments (c :: s))
  | _ => n = 0%Z
  end.

(** What [format_file] computes for a file. *)
Definition file_statistics (file_info : list (str * json)) (file : file_content) : Prop :=
  let added := lines_added (change_type file) (lines_before file) (lines_after file) in
  let removed := lines_removed (change_type file) (lines_before file) (lines_after file) in
  dict_get (lit "changeType") file_info = Some (change_type file)
  ∧ counted (dict_get (lit "content_before") file_info) (lines_before file)
  ∧ counted (dict_get (lit "content_after") file_info) (lines_after file)
  ∧ (change_type file = JStr (lit "add") → removed = 0%Z)
  ∧ (change_type file = JStr (lit "delete") → added = 0%Z)
  ∧ (change_type file ≠ JStr (lit "delete") →
     added = (lines_after file - lines_before file)%Z)
  ∧ (change_type file ≠ JStr (lit "add") →
     removed = (lines_before file - lines_after file)%Z)
  ∧ lines_changed file = Z.abs (added - removed).

(** [v] is one of the items of the ['files'] list of [pr_files_content]. *)
Definition in_files (pr_files_content v : json) : Prop :=
  ∃ d l, pr_files_content = JDict d
         ∧ dict_get (lit "files") d = Some (JList l) ∧ v ∈ l.

(** The text values of a structured document in the words of the
    specification: depth first, in document order. A dict gives the value
    of its ['text'], if it has one, then the values of the items of its
    ['content'] list from the first to the last; a list gives the values of
    its items; the other keys of a dict give nothing. The inner [find] is
    [dict_get] run on the items of the dict (see [document_texts_dict]). *)
Fixpoint document_texts (node : json) : list json :=
  match node with
  | JDict d =>
      match dict_get (lit "text") d with
      | Some t => [t]
      | None => []
      end
      ++ (fix find (items : list (str * json)) : list json :=
            match items with
            | [] => []
            | (k, c) :: rest =>
                if bool_decide (k = lit "content") then
                  match c with
                  | JList l => mjoin (document_texts <$> l)
                  | _ => []
                  end
                else find rest
            end) d
  | JList l => mjoin (document_texts <$> l)
  | _ => []
  end.

(** A document all of whose texts are strings and none of whose contents
    is a number, a boolean or [None]. *)
Fixpoint document_shaped (node : json) : bool :=
  match node with
  | JDict d =>
      match dict_get (lit "text") d with
      | Some (JStr _) | None => true
      | Some _ => false
      end
      && (fix find (items : list (str * json)) : bool :=
            match items with
            | [] => true
            | (k, c) :: rest =>
                if bool_decide (k = lit "content") then
                  match c with
                  | JList l => forallb document_shaped l
                  | JDict _ | JStr _ => true
                  | _ => false
                  end
                else find rest
            end) d
  | JList l => forallb document_shaped l
  | _ => true
  end.

(** [visits root node]: [node] is [root], or lies below it through the
    ['content'] lists of dicts and the items of lists. *)
Inductive visits : json → json → Prop :=
  | visits_here n : visits n n
  | visits_content d l child n :
      dict_get (lit "content") d = Some (JList l) →
      child ∈ l → visits child n → visits (JDict d) n
  | visits_item l item n :
      item ∈ l → visits item n → visits (JList l) n.

End DataFormatter.

(** ** The examples of the specification *)

Module Examples.

(** [{content: [{text: "A"}, {content: [{text: "B"}]}]}]. *)
Definition doc_AB : json :=
  JDict [(lit "content",
          JList [JDict [(lit "text", JStr (lit "A"))];
                 JDict [(lit "content", JList [JDict [(lit "text", JStr (lit "B"))]])]])].

(** An internal node with a text of its own. *)
Definition inner_node : list (str * json) :=
  [(lit "type", JStr (lit "doc"));
   (lit "text", JStr (lit "T"));
   (lit "content", JList [JDict [(lit "text", JStr (lit "u"))]])].

Definition doc_inner : json := JDict inner_node.

Definition pr_data : json :=
  JDict [(lit "pullRequestId", JNum 7);
         (lit "sourceRefName", JStr (lit "refs/heads/feature"));
         (lit "targetRefName", JStr (lit "refs/heads/main"))].

Definition change (changeType : string) (item : list (str * json)) : json :=
  JDict [(lit "item", JDict item); (lit "changeType", JStr (lit changeType))].

(** A changeset with one [add] file and one [delete] file. *)
Definition diff_add_delete : json :=
  JDict [(lit "changes",
          JList [change "add" [(lit "path", JStr (lit "/new.txt"));
                               (lit "objectId", JStr (lit "o1"))];
                 change "delete" [(lit "path", JStr (lit "/old.txt"));
                                  (lit "originalObjectId", JStr (lit "o0"))]])].

(** A changeset with a folder, an edited file and an edit whose blob before
    is empty. *)
Definition diff_edits : json :=
  JDict [(lit "changes",
          JList [change "add" [(lit "path", JStr (lit "/src")); (lit "isFolder", JBool true)];
                 change "edit" [(lit "path", JStr (lit "/src/a.py"));
                                (lit "originalObjectId", JStr (lit "a0"));
                                (lit "objectId", JStr (lit "a1"))];
                 change "edit" [(lit "path", JStr (lit "/src/e.py"));
                                (lit "originalObjectId", JStr (lit "e0"));
                                (lit "objectId", JStr (lit "e1"))]])].

Definition blobs (file_path version : json) : option str :=
  if eq_str version (lit "o1") then Some (lit "l1" ++ [LF] ++ lit "l2")
  else if eq_str version (lit "o0") then Some (lit "x" ++ [LF] ++ lit "y")
  else if eq_str version (lit "a0") then Some (lit "a" ++ [LF] ++ lit "b" ++ [LF] ++ lit "c")
  else if eq_str version (lit "a1") then Some (lit "a" ++ [LF] ++ lit "x" ++ [LF] ++ lit "b" ++ [LF] ++ lit "c")
  else if eq_str version (lit "e0") then Some []
  else if eq_str version (lit "e1") then Some (lit "x")
  else None.


(** A file of [pr_files_content.json] with contents. *)
Definition file_with_contents (changeType : string) (before after : str) : json :=
  JDict [(lit "path", JStr (lit "/f.txt"));
         (lit "changeType", JStr (lit changeType));
         (lit "content_before", JStr before);
         (lit "content_after", JStr after)].

Definition pr_files_content (file_infos : list json) : json :=
  JDict [(lit "files", JList file_infos)].

End Examples.

(** * Properties *)

Import Difflib AzureDevOpsClient DataFormatter AIAnalyzer.

(** Comparisons of two string literals are settled by evaluation. *)
Ltac lit_decide :=
  repeat match goal with
    | |- context [bool_decide (lit ?x = lit ?y)] =>
        let r := eval vm_compute in (bool_decide (lit x = lit y)) in
        change (bool_decide (lit x = lit y)) with r
    end.

(** A step of a computation that is known to return: its first call
    returned too. *)
Ltac ok_bind x H :=
  match goal with
  | |- mbind _ ?m = Ok _ → _ =>
      destruct m as [x|] eqn:H; cbn [mbind result_bind]; [|done]
  end.

(** Lookups in a dict given by its items. *)
Ltac dict_steps :=
  repeat (progress (cbn [as_dict mbind result_bind dict_get default from_option id];
                    lit_decide)).

(** ** Induction on nested values *)

Section JsonInd.

Variable P : json → Prop.
Hypothesis Hnull : P JNull.
Hypothesis Hbool : ∀ b, P (JBool b).
Hypothesis Hnum : ∀ z, P (JNum z).
Hypothesis Hstr : ∀ s, P (JStr s).
Hypothesis Hlist : ∀ l, Forall P l → P (JList l).
Hypothesis Hdict : ∀ d, Forall (λ kv, P kv.2) d → P (JDict d).

Fixpoint json_nested_ind (v : json) : P v :=
  match v with
  | JNull => Hnull
  | JBool b => Hbool b
  | JNum z => Hnum z
  | JStr s => Hstr s
  | JList l =>
      Hlist l
        ((fix items (l : list json) : Forall P l :=
            match l with
            | [] => Forall_nil_2 P
            | x :: l' => Forall_cons_2 P x l' (json_nested_ind x) (items l')
            end) l)
  | JDict d =>
      Hdict d
        ((fix items (d : list (str * json)) : Forall (λ kv, P kv.2) d :=
            match d with
            | [] => Forall_nil_2 _
            | kv :: d' =>
                Forall_cons_2 (λ kv, P kv.2) kv d' (json_nested_ind kv.2) (items d')
            end) d)
  end.

End JsonInd.

(** ** The flattener of structured documents *)

Lemma extract_content_list l parts :
  extract_content (JList l) parts = extract_each l parts.
Proof. done. Qed.

(** The lookup of ['content'] that [extract_content] does on the items of a
    dict is [dict_get]. *)
Lemma extract_content_dict d parts :
  extract_content (JDict d) parts =
    let text_parts :=
      match dict_get (lit "text") d with
      | Some t => parts ++ [t]
      | None => parts
      end in
    match dict_get (lit "content") d with
    | Some (JList l) => extract_each l text_parts
    | Some (JDict _) | Some (JStr _) => Ok text_parts
    | Some _ => Raise TypeError
    | None => Ok text_parts
    end.
Proof.
  cbn zeta. unfold extract_content; fold extract_content.
  generalize (match dict_get (lit "text") d with
              | Some t => parts ++ [t]
              | None => parts
              end) as text_parts.
  intros text_parts. induction d as [|[k c] d IH]; [done|].
  cbn [dict_get]. destruct (bool_decide (k = lit "content")); [|apply IH].
  by destruct c.
Qed.

Lemma extract_each_app l1 l2 parts :
  extract_each (l1 ++ l2) parts =
    parts' ← extract_each l1 parts; extract_each l2 parts'.
Proof.
  revert parts. induction l1 as [|x l1 IH]; intros parts; [done|]. simpl.
  destruct (extract_content x parts); simpl; [apply IH|done].
Qed.

Lemma as_strs_JStr (l : list str) : as_strs (JStr <$> l) = Ok l.
Proof.
  induction l as [|x l IH]; [done|].
  rewrite fmap_cons. cbn [as_strs]. by rewrite IH.
Qed.

Lemma dict_get_elem k d v : dict_get k d = Some v → (k, v) ∈ d.
Proof.
  induction d as [|[k' v'] d IH]; [done|]. cbn.
  case_bool_decide as Hk; [|intros Hv; apply elem_of_cons; right; by apply IH].
  intros [= <-]. subst. apply elem_of_cons. by left.
Qed.

Lemma mjoin_cons_app {A} (x : list A) (l : list (list A)) :
  mjoin (x :: l) = x ++ mjoin l.
Proof. done. Qed.

Lemma as_strs_fmap parts strs : as_strs parts = Ok strs → parts = JStr <$> strs.
Proof.
  revert strs. induction parts as [|v parts IH]; intros strs; [by intros [= <-]|].
  destruct v; try done. cbn [as_strs].
  destruct (as_strs parts) as [strs'|]; [|done]. cbn [mbind result_bind].
  intros [= <-]. by rewrite (IH strs').
Qed.

(** The lookup of ['content'] in [document_texts] and [document_shaped] is
    [dict_get]. *)
Lemma document_texts_dict d :
  document_texts (JDict d) =
    match dict_get (lit "text") d with
    | Some t => [t]
    | None => []
    end
    ++ match dict_get (lit "content") d with
       | Some (JList l) => mjoin (document_texts <$> l)
       | _ => []
       end.
Proof.
  unfold document_texts; fold document_texts. f_equal.
  induction d as [|[k c] d IH]; [done|].
  cbn [dict_get]. destruct (bool_decide (k = lit "content")); [|apply IH].
  by destruct c.
Qed.

Lemma document_shaped_dict d :
  document_shaped (JDict d) =
    match dict_get (lit "text") d with
    | Some (JStr _) | None => true
    | Some _ => false
    end
    && match dict_get (lit "content") d with
       | Some (JList l) => forallb document_shaped l
       | Some (JDict _) | Some (JStr _) | None => true
       | Some _ => false
       end.
Proof.
  unfold document_shaped; fold document_shaped. f_equal.
  induction d as [|[k c] d IH]; [done|].
  cbn [dict_get]. destruct (bool_decide (k = lit "content")); [|apply IH].
  by destruct c.
Qed.

(** Whatever the keys of its dicts, a traversal that ends has appended the
    text values of the document, depth first and in document order. *)
Lemma extract_content_texts node parts parts' :
  extract_content node parts = Ok parts' → parts' = parts ++ document_texts node.
Proof.
  revert parts parts'.
  induction node as [| | | |l IH|d IH] using json_nested_ind; intros parts parts';
    try (intros [= <-]; by rewrite app_nil_r).
  - rewrite extract_content_list. cbn [document_texts]. revert parts parts'.
    induction IH as [|x l Hx _ IHl]; intros parts parts'.
    + intros [= <-]. by rewrite app_nil_r.
    + cbn [extract_each]. rewrite fmap_cons, mjoin_cons_app.
      destruct (extract_content x parts) as [parts1|] eqn:Hparts1; [|done].
      cbn [mbind result_bind]. intros Hrest.
      rewrite (IHl _ _ Hrest), (Hx _ _ Hparts1). by rewrite <- app_assoc.
  - rewrite extract_content_dict, document_texts_dict. cbn zeta.
    set (own := match dict_get (lit "text") d with Some t => [t] | None => [] end).
    replace (match dict_get (lit "text") d with
             | Some t => parts ++ [t]
             | None => parts
             end) with (parts ++ own)
      by (unfold own; destruct (dict_get (lit "text") d); by rewrite ?app_nil_r).
    destruct (dict_get (lit "content") d) as [c|] eqn:Hcontent;
      [|intros [= <-]; by rewrite app_nil_r].
    destruct c as [| | | |l|d']; try done;
      try (intros [= <-]; by rewrite app_nil_r).
    apply dict_get_elem in Hcontent.
    rewrite Forall_forall in IH. specialize (IH _ Hcontent). cbn [snd] in IH.
    rewrite <- extract_content_list. intros Hbelow.
    rewrite (IH _ _ Hbelow). cbn [document_texts]. by rewrite <- app_assoc.
Qed.

(** On a document whose texts are strings and whose contents can be
    iterated over, the traversal ends. *)
Lemma extract_content_shaped node :
  document_shaped node = true →
  ∃ texts, document_texts node = JStr <$> texts
           ∧ ∀ parts, extract_content node parts = Ok (parts ++ (JStr <$> texts)).
Proof.
  induction node as [| | | |l IH|d IH] using json_nested_ind; intros Hshaped;
    try (exists []; split; [done|]; intros parts; cbn; by rewrite app_nil_r).
  - cbn [document_shaped] in Hshaped. cbn [document_texts].
    assert (Heach : ∃ texts, mjoin (document_texts <$> l) = JStr <$> texts
                             ∧ ∀ parts, extract_each l parts
                                        = Ok (parts ++ (JStr <$> texts))).
    { induction IH as [|x l Hx _ IHl].
      - exists []. split; [done|]. intros parts. cbn. by rewrite app_nil_r.
      - cbn [forallb] in Hshaped. apply andb_prop in Hshaped as [Hhead Htail].
        destruct (Hx Hhead) as (texts1 & Htexts1 & Hparts1).
        destruct (IHl Htail) as (texts2 & Htexts2 & Hparts2).
        exists (texts1 ++ texts2). split.
        + by rewrite fmap_cons, mjoin_cons_app, Htexts1, Htexts2, fmap_app.
        + intros parts. cbn [extract_each]. rewrite Hparts1.
          cbn [mbind result_bind]. rewrite Hparts2.
          by rewrite fmap_app, app_assoc. }
    destruct Heach as (texts & Htexts & Hparts). exists texts. split; [done|].
    intros parts. rewrite extract_content_list. apply Hparts.
  - rewrite document_shaped_dict in Hshaped.
    apply andb_prop in Hshaped as [Htext Hcontent].
    assert (Hown : ∃ own,
      match dict_get (lit "text") d with Some t => [t] | None => [] end = JStr <$> own
      ∧ ∀ parts, match dict_get (lit "text") d with
                 | Some t => parts ++ [t]
                 | None => parts
                 end = parts ++ (JStr <$> own)).
    { destruct (dict_get (lit "text") d) as [t|].
      - destruct t as [| | |t| |]; try done. by exists [t].
      - exists []. split; [done|]. intros parts. cbn. by rewrite app_nil_r. }
    destruct Hown as (own & Hown & Hparts).
    assert (Hbelow : ∃ below,
      match dict_get (lit "content") d with
      | Some (JList l) => mjoin (document_texts <$> l)
      | _ => []
      end = JStr <$> below
      ∧ ∀ parts, match dict_get (lit "content") d with
                 | Some (JList l) => extract_each l parts
                 | Some (JDict _) | Some (JStr _) => Ok parts
                 | Some _ => Raise TypeError
                 | None => Ok parts
                 end = Ok (parts ++ (JStr <$> below))).
    { destruct (dict_get (lit "content") d) as [c|] eqn:Hc;
        [|exists []; split; [done|]; intros parts; cbn; by rewrite app_nil_r].
      destruct c as [| | | |l|d']; try done;
        try (exists []; split; [done|]; intros parts; cbn; by rewrite app_nil_r).
      apply dict_get_elem in Hc.
      rewrite Forall_forall in IH. specialize (IH _ Hc). cbn [snd] in IH.
      destruct (IH Hcontent) as (below & Hbelow & Heach).
      exists below. split; [done|]. intros parts.
      rewrite <- extract_content_list. apply Heach. }
    destruct Hbelow as (below & Hbelow & Heach).
    exists (own ++ below). split.
    + by rewrite document_texts_dict, Hown, Hbelow, fmap_app.
    + intros parts. rewrite extract_content_dict. cbn zeta.
      rewrite Hparts, Heach. by rewrite fmap_app, app_assoc.
Qed.

(** C8: flattening a structured document collects the text values depth
    first, in document order, and joins them with newlines, whatever other
    keys its nodes carry: a document whose texts are strings and whose
    contents can be iterated over is flattened to its text values joined by
    newlines, and whenever a dict is flattened to a string, that string is
    its text values joined by newlines; the document
    [{content: [{text: "A"}, {content: [{text: "B"}]}]}] flattens to
    ["A\nB"]. *)
Theorem extract_text_depth_first (py_str : json → str) :
  (∀ d, document_shaped (JDict d) = true →
     ∃ texts, document_texts (JDict d) = JStr <$> texts
              ∧ _extract_text_from_adf py_str (JDict d) = Ok (join [LF] texts))
  ∧ (∀ d out, _extract_text_from_adf py_str (JDict d) = Ok out →
       ∃ texts, document_texts (JDict d) = JStr <$> texts
                ∧ out = join [LF] texts)
  ∧ _extract_text_from_adf py_str Examples.doc_AB = Ok (lit "A" ++ [LF] ++ lit "B").
Proof.
  split_and!; [| |done].
  - intros d Hshaped.
    destruct (extract_content_shaped _ Hshaped) as (texts & Htexts & Hparts).
    exists texts. split; [done|]. unfold _extract_text_from_adf.
    rewrite Hparts. cbn [app mbind result_bind]. by rewrite as_strs_JStr.
  - intros d out. unfold _extract_text_from_adf.
    destruct (extract_content (JDict d) []) as [parts|] eqn:Hparts; [|done].
    cbn [mbind result_bind].
    destruct (as_strs parts) as [strs|] eqn:Hstrs; [|done].
    cbn [mbind result_bind]. intros [= <-]. exists strs. split; [|done].
    apply extract_content_texts in Hparts. cbn [app] in Hparts.
    rewrite <- Hparts. by apply as_strs_fmap.
Qed.

Lemma extract_text_depth_first_witness :
  (∃ texts, document_texts Examples.doc_inner = JStr <$> texts
            ∧ _extract_text_from_adf (λ _, []) Examples.doc_inner
              = Ok (join [LF] texts))
  ∧ ∃ texts, document_texts Examples.doc_inner = JStr <$> texts
             ∧ lit "T" ++ [LF] ++ lit "u" = join [LF] texts.
Proof.
  split.
  - refine (proj1 (extract_text_depth_first (λ _, [])) Examples.inner_node _).
    reflexivity.
  - refine (proj1 (proj2 (extract_text_depth_first (λ _, [])))
              Examples.inner_node (lit "T" ++ [LF] ++ lit "u") _).
    reflexivity.
Defined.

(** What a traversal appends does not depend on what was collected before. *)
Lemma extract_content_acc node parts :
  extract_content node parts =
    (below ← extract_content node []; Ok (parts ++ below)).
Proof.
  revert parts.
  induction node as [| | | |l IH|d IH] using json_nested_ind; intros parts;
    try (cbn; by rewrite app_nil_r).
  - rewrite !extract_content_list. revert parts.
    induction IH as [|x l Hx _ IHl]; intros parts; [cbn; by rewrite app_nil_r|].
    cbn [extract_each]. rewrite (Hx parts).
    destruct (extract_content x []) as [below|]; [|done]. cbn.
    rewrite (IHl (parts ++ below)), (IHl below).
    destruct (extract_each l []) as [below'|]; [|done]. cbn.
    by rewrite app_assoc.
  - rewrite !extract_content_dict. cbn zeta.
    set (own := match dict_get (lit "text") d with Some t => [t] | None => [] end).
    replace (match dict_get (lit "text") d with Some t => parts ++ [t] | None => parts end)
      with (parts ++ own) by (subst own; destruct (dict_get _ d); by rewrite ?app_nil_r).
    replace (match dict_get (lit "text") d with Some t => [] ++ [t] | None => [] end)
      with own by (subst own; by destruct (dict_get _ d)).
    destruct (dict_get (lit "content") d) as [c|] eqn:Hc; [|done].
    pose proof (proj1 (Forall_forall _ _) IH _ (dict_get_elem _ _ _ Hc)) as Hl.
    cbn in Hl. destruct c as [| | | |l|]; try done.
    rewrite <- !extract_content_list.
    rewrite (Hl (parts ++ own)), (Hl own).
    destruct (extract_content (JList l) []) as [below|]; [|done]. cbn.
    by rewrite app_assoc.
Qed.

Lemma extract_each_acc l parts :
  extract_each l parts = (below ← extract_each l []; Ok (parts ++ below)).
Proof. rewrite <- !extract_content_list. apply extract_content_acc. Qed.

(** A traversal appends the text of every dict it visits. *)
Lemma extract_content_collects root parts parts' :
  extract_content root parts = Ok parts' →
  ∃ below, parts' = parts ++ below ∧
    ∀ d v, visits root (JDict d) → dict_get (lit "text") d = Some v → v ∈ below.
Proof.
  revert parts parts'.
  induction root as [| | | |l IH|d IH] using json_nested_ind; intros parts parts';
    try (intros [= <-]; exists []; split; [by rewrite app_nil_r|];
         intros d v Hv; by inversion Hv).
  - rewrite extract_content_list. revert parts parts'.
    induction IH as [|x l Hx _ IHl]; intros parts parts'.
    + intros [= <-]. exists []. split; [by rewrite app_nil_r|].
      intros d v Hv. inversion Hv as [| |? item ? Hin]; subst. by apply elem_of_nil in Hin.
    + cbn [extract_each].
      destruct (extract_content x parts) as [parts1|] eqn:Hparts1; [|done]. cbn.
      intros Hrest.
      destruct (Hx _ _ Hparts1) as (below1 & -> & Hbelow1).
      destruct (IHl _ _ Hrest) as (below2 & -> & Hbelow2).
      exists (below1 ++ below2). split; [by rewrite app_assoc|].
      intros d v Hv Hd. inversion Hv as [| |? item ? Hin Hitem]; subst.
      apply elem_of_cons in Hin as [->|Hin]; apply elem_of_app.
      * left. eauto.
      * right. apply (Hbelow2 d v); [|done]. by eapply visits_item.
  - rewrite extract_content_dict. cbn zeta.
    set (own := match dict_get (lit "text") d with Some t => [t] | None => [] end).
    replace (match dict_get (lit "text") d with Some t => parts ++ [t] | None => parts end)
      with (parts ++ own) by (subst own; destruct (dict_get _ d); by rewrite ?app_nil_r).
    assert (Hown : ∀ v, dict_get (lit "text") d = Some v → v ∈ own).
    { intros v Hv. subst own. rewrite Hv. by apply list_elem_of_singleton. }
    destruct (dict_get (lit "content") d) as [c|] eqn:Hc.
    + pose proof (proj1 (Forall_forall _ _) IH _ (dict_get_elem _ _ _ Hc)) as Hl.
      cbn [snd] in Hl. destruct c as [| | | |l|]; try done.
      1,3: intros [= <-]; exists own; split; [done|];
        intros d' v Hv Hd; inversion Hv; subst; [by apply Hown|congruence].
      rewrite <- extract_content_list. intros Hrest.
      destruct (Hl _ _ Hrest) as (below & -> & Hbelow).
      exists (own ++ below). split; [by rewrite app_assoc|].
      intros d' v Hv Hd. apply elem_of_app.
      inversion Hv as [|? l' child ? Hc' Hin Hchild|]; subst.
      * left. by apply Hown.
      * right. rewrite Hc in Hc'. injection Hc' as <-.
        apply (Hbelow d' v); [|done]. by eapply visits_item.
    + intros [= <-]. exists own. split; [done|].
      intros d' v Hv Hd. inversion Hv; subst; [by apply Hown|congruence].
Qed.

Lemma as_strs_elem parts strs t :
  as_strs parts = Ok strs → JStr t ∈ parts → t ∈ strs.
Proof.
  revert strs. induction parts as [|v parts IH]; intros strs Hs Hin.
  - by apply elem_of_nil in Hin.
  - destruct v; try done. cbn in Hs.
    destruct (as_strs parts) as [strs'|]; [|done]. cbn in Hs. injection Hs as <-.
    apply elem_of_cons in Hin as [[= ->]|Hin]; [apply elem_of_cons; by left|].
    apply elem_of_cons; right. by apply IH.
Qed.

Lemma join_elem (sep : str) strs t :
  t ∈ strs → ∃ pre post, join sep strs = pre ++ t ++ post.
Proof.
  induction strs as [|p rest IH]; intros Hin; [by apply elem_of_nil in Hin|].
  apply elem_of_cons in Hin as [->|Hin].
  - exists []. destruct rest as [|q rest]; cbn [join].
    + exists []. by rewrite app_nil_r.
    + by exists (sep ++ join sep (q :: rest)).
  - destruct (IH Hin) as (pre & post & Hj).
    destruct rest as [|q rest]; [by apply elem_of_nil in Hin|].
    cbn [join] in *. rewrite Hj. exists (p ++ sep ++ pre), post.
    by rewrite <- !app_assoc.
Qed.

(** C10: the flattener collects the ['text'] value of every dict node it
    visits, leaf or not, and every such text is part of the joined output;
    the text of a node with ['content'] children comes before what its
    children contribute. *)
Theorem text_of_every_node (py_str : json → str) :
  (∀ d out node t,
     _extract_text_from_adf py_str (JDict d) = Ok out →
     visits (JDict d) (JDict node) →
     dict_get (lit "text") node = Some (JStr t) →
     ∃ pre post, out = pre ++ t ++ post)
  ∧ (∀ node t children parts parts',
       dict_get (lit "text") node = Some t →
       dict_get (lit "content") node = Some (JList children) →
       extract_content (JDict node) parts = Ok parts' →
       ∃ below, extract_each children [] = Ok below ∧ parts' = parts ++ t :: below).
Proof.
  split.
  - intros d out node t Hout Hvisit Htext. unfold _extract_text_from_adf in Hout.
    destruct (extract_content (JDict d) []) as [parts|] eqn:Hparts; [|done].
    cbn in Hout. destruct (as_strs parts) as [strs|] eqn:Hstrs; [|done].
    cbn in Hout. injection Hout as <-.
    destruct (extract_content_collects _ _ _ Hparts) as (below & -> & Hbelow).
    apply join_elem. eapply as_strs_elem; [done|]. cbn. eauto.
  - intros node t children parts parts' Htext Hcontent.
    rewrite extract_content_dict, Htext, Hcontent. cbn zeta.
    rewrite extract_each_acc.
    destruct (extract_each children []) as [below|]; [|done]. cbn.
    intros [= <-]. exists below. split; [done|]. by rewrite <- app_assoc.
Qed.

Lemma text_of_every_node_witness :
  (∃ pre post, lit "T" ++ [LF] ++ lit "u" = pre ++ lit "T" ++ post)
  ∧ (∃ below,
       extract_each [JDict [(lit "text", JStr (lit "u"))]] [] = Ok below
       ∧ [JStr (lit "T"); JStr (lit "u")] = [] ++ JStr (lit "T") :: below).
Proof.
  split.
  - refine (proj1 (text_of_every_node (λ _, [])) _ _ _ (lit "T") _ (visits_here Examples.doc_inner) _);
      reflexivity.
  - refine (proj2 (text_of_every_node (λ _, [])) Examples.inner_node (JStr (lit "T"))
              [JDict [(lit "text", JStr (lit "u"))]] []
              [JStr (lit "T"); JStr (lit "u")] _ _ _);
      reflexivity.
Defined.

(** ** The truncation of the serialization *)

(** C9: [_truncate_text] returns its text unchanged, whatever the maximum
    number of characters. *)
Theorem truncate_text_identity (text : str) (max_chars : Z) :
  _truncate_text text max_chars = text.
Proof. reflexivity. Qed.

(** ** The per-file statistics *)

Lemma split_from_length sep s seg :
  length (split_from sep s seg) = S (length (filter (λ c, c = sep) s)).
Proof.
  revert seg. induction s as [|c s IH]; intros seg; [done|].
  cbn [split_from]. rewrite filter_cons.
  case_bool_decide; destruct (decide (c = sep)); try done; cbn; by rewrite IH.
Qed.

Lemma split_segments s : length (split LF s) = segments s.
Proof. apply split_from_length. Qed.

Lemma count_lines_counted d key n :
  count_lines (dict_get_default key (JStr []) d) = Ok n →
  counted (dict_get key d) n.
Proof.
  unfold dict_get_default, count_lines, counted.
  destruct (dict_get key d) as [v|]; cbn; [|by intros [= <-]].
  destruct v as [|[]|z|[|c s]|[|x l]|[|kv l]]; cbn; try done; try by intros [= <-].
  - destruct (z =? 0)%Z; cbn; [by intros [= <-]|done].
  - intros [= <-]. by rewrite <- split_segments.
Qed.

Lemma eq_str_true v s : eq_str v s = true ↔ v = JStr s.
Proof.
  destruct v; cbn; try (split; [done|by intros [=]]).
  rewrite bool_decide_eq_true. split; [by intros ->|by intros [=]].
Qed.

Lemma format_file_statistics v file :
  format_file v = Ok file → ∃ file_info, v = JDict file_info ∧ file_statistics file_info file.
Proof.
  unfold format_file. destruct v as [| | | | |d]; try done. cbn [as_dict mbind result_bind].
  destruct (count_lines (dict_get_default (lit "content_before") _ d))
    as [before|] eqn:Hbefore; [|done]. cbn [mbind result_bind].
  destruct (count_lines (dict_get_default (lit "content_after") _ d))
    as [after|] eqn:Hafter; [|done]. cbn [mbind result_bind].
  unfold subscript.
  destruct (dict_get (lit "changeType") d) as [changeType|] eqn:Htype; [|done].
  cbn [mbind result_bind].
  destruct (dict_get (lit "path") d) as [path|]; [|done]. cbn [mbind result_bind].
  intros [= <-]. exists d. split; [done|].
  unfold file_statistics. cbn [DataFormatter.change_type DataFormatter.lines_before
    DataFormatter.lines_after DataFormatter.lines_changed].
  split; [done|].
  split; [by apply count_lines_counted|].
  split; [by apply count_lines_counted|].
  unfold lines_added, lines_removed.
  repeat split.
  - intros ->. by cbn.
  - intros ->. by cbn.
  - intros Hne. destruct (eq_str changeType (lit "delete")) eqn:Heq; [|done].
    by apply eq_str_true in Heq.
  - intros Hne. destruct (eq_str changeType (lit "add")) eqn:Heq; [|done].
    by apply eq_str_true in Heq.
Qed.

Lemma format_files_statistics file_infos files files' :
  format_files file_infos files = Ok files' →
  ∃ new, files' = files ++ new ∧ Forall2 (λ v file, format_file v = Ok file) file_infos new.
Proof.
  revert files. induction file_infos as [|v l IH]; intros files.
  - intros [= <-]. exists []. by rewrite app_nil_r.
  - cbn [format_files]. destruct (format_file v) as [file|] eqn:Hfile; [|done].
    cbn [mbind result_bind]. intros Hrest.
    destruct (IH _ Hrest) as (new & -> & Hnew).
    exists (file :: new). split; [by rewrite <- app_assoc|]. by constructor.
Qed.

(** C4, amended: every record of [format_file_contents] has as [lines_before]
    and [lines_after] the number of newline-delimited segments of the
    content, and 0 when the content is absent or empty; [lines_removed] is 0
    for an [add] and [lines_added] is 0 for a [delete], otherwise they are
    the differences of the two counts; and [lines_changed] is the absolute
    value of their difference. *)
Theorem file_contents_statistics (pr_files_content : json) (files : list file_content) :
  format_file_contents pr_files_content = Ok files →
  ∀ file, file ∈ files →
    ∃ file_info,
      in_files pr_files_content (JDict file_info) ∧ file_statistics file_info file.
Proof.
  unfold format_file_contents. destruct (truthy pr_files_content).
  2: { intros [= <-] file Hin. by apply elem_of_nil in Hin. }
  cbn [negb]. destruct pr_files_content as [| | | | |d]; try done.
  cbn [as_dict mbind result_bind].
  destruct (iterate _) as [file_infos|] eqn:Hiter; [|done]. cbn [mbind result_bind].
  intros Hfiles file Hin.
  destruct (format_files_statistics _ _ _ Hfiles) as (new & -> & Hnew).
  cbn [app] in Hin. apply list_elem_of_lookup in Hin as [i Hi].
  destruct (Forall2_lookup_r _ _ _ _ _ Hnew Hi) as (v & Hv & Hfile).
  destruct (format_file_statistics _ _ Hfile) as (file_info & -> & Hstat).
  exists file_info. split; [|done]. exists d.
  unfold dict_get_default in Hiter.
  destruct (dict_get (lit "files") d) as [fs|] eqn:Hfs; cbn in Hiter.
  2: { injection Hiter as <-. by rewrite lookup_nil in Hv. }
  assert (Hin : JDict file_info ∈ file_infos) by (apply list_elem_of_lookup; eauto).
  destruct fs as [| | |str|l|d']; try done; injection Hiter as <-.
  - apply list_elem_of_fmap in Hin as (c & [=] & _).
  - eauto.
  - apply list_elem_of_fmap in Hin as (kv & [=] & _).
Qed.

Lemma file_contents_statistics_witness :
  ∃ file_info,
    in_files
      (Examples.pr_files_content
         [Examples.file_with_contents "edit" (lit "x" ++ [LF] ++ lit "y") (lit "x")])
      (JDict file_info)
    ∧ file_statistics file_info
      {| DataFormatter.path := JStr (lit "/f.txt");
         change_type := JStr (lit "edit");
         lines_before := 2; lines_after := 1; lines_changed := 2;
         content_before := JStr (lit "x" ++ [LF] ++ lit "y");
         content_after := JStr (lit "x") |}.
Proof.
  apply (file_contents_statistics
           (Examples.pr_files_content
              [Examples.file_with_contents "edit" (lit "x" ++ [LF] ++ lit "y") (lit "x")])
           [{| DataFormatter.path := JStr (lit "/f.txt");
               change_type := JStr (lit "edit");
               lines_before := 2; lines_after := 1; lines_changed := 2;
               content_before := JStr (lit "x" ++ [LF] ++ lit "y");
               content_after := JStr (lit "x") |}]).
  - reflexivity.
  - apply elem_of_cons. by left.
Defined.

(** C4, as stated, fails on a content that is present and empty: the empty
    string has one newline-delimited segment and is counted as 0 lines. *)
Lemma empty_content_counts_no_line :
  ∃ file,
    format_file_contents
      (Examples.pr_files_content [Examples.file_with_contents "edit" [] (lit "x")])
    = Ok [file]
    ∧ content_before file = JStr []
    ∧ lines_before file = 0%Z
    ∧ lines_before file ≠ Z.of_nat (segments []).
Proof. eexists. split; [reflexivity|]. by cbn. Qed.

(** ** The assembler of added lines *)

Section Assembler.

Variable get_pull_request : json.
Variable get_diffs : str → str → json.
Variable get_file_content : json → json → option str.
Variable depth : nat.

Lemma classify_delete file_path item :
  classify get_file_content depth (JStr (lit "delete")) file_path item = Ok [].
Proof. unfold classify, eq_str. by lit_decide. Qed.

(** One change leaves the list as it is, or appends one file that has
    added lines and is not a deletion. *)
Lemma change_step_appends files change files' :
  change_step get_file_content depth files change = Ok files' →
  files' = files
  ∨ ∃ file, files' = files ++ [file]
      ∧ added_lines file ≠ [] ∧ changeType file ≠ JStr (lit "delete").
Proof.
  unfold change_step. destruct (as_dict change) as [d|]; [|done].
  cbn [mbind result_bind]. destruct (as_dict _) as [item|]; [|done].
  cbn [mbind result_bind]. destruct (truthy _); [intros [= <-]; by left|].
  destruct (classify _ _ _ _ _) as [[|line lines]|] eqn:Hlines;
    cbn [mbind result_bind added_lines]; [intros [= <-]; by left| |done].
  intros [= <-].
  right. eexists. split; [done|]. cbn [added_lines changeType]. split; [done|].
  intros Htype. by rewrite Htype, classify_delete in Hlines.
Qed.

Lemma changes_loop_invariant (P : file_info → Prop) changes files files' :
  (∀ file, added_lines file ≠ [] → changeType file ≠ JStr (lit "delete") → P file) →
  changes_loop get_file_content depth changes files = Ok files' →
  Forall P files → Forall P files'.
Proof.
  intros HP. revert files. induction changes as [|change changes IH]; intros files.
  - by intros [= <-].
  - cbn [changes_loop].
    destruct (change_step _ _ files change) as [files1|] eqn:Hstep; [|done].
    cbn [mbind result_bind]. intros Hloop Hfiles. apply (IH _ Hloop).
    destruct (change_step_appends _ _ _ Hstep) as [->|(file & -> & Hlines & Htype)];
      [done|].
    apply Forall_app. split; [done|]. apply Forall_singleton. by apply HP.
Qed.

Lemma added_lines_data_files (P : file_info → Prop) data :
  (∀ file, added_lines file ≠ [] → changeType file ≠ JStr (lit "delete") → P file) →
  get_pr_added_lines_only get_pull_request get_diffs get_file_content depth
  = Ok (Some data) →
  total data = length (files data) ∧ Forall P (files data).
Proof.
  intros HP. unfold get_pr_added_lines_only.
  destruct (truthy get_pull_request); [|done]. cbn [negb].
  ok_bind diff_data Hdiff. destruct (truthy diff_data); [|done]. cbn [negb].
  ok_bind pr_data Hpr. ok_bind source Hsource. ok_bind target Htarget.
  ok_bind diff Hdict. ok_bind changes Hchanges.
  ok_bind files_with_additions Hloop.
  intros [= <-]. cbn [total files]. split; [done|].
  by apply (changes_loop_invariant P _ _ _ HP Hloop).
Qed.

(** C1: in every result of the assembler [total] is the length of [files],
    and every file of [files] has added lines. *)
Theorem added_lines_data_invariant data :
  get_pr_added_lines_only get_pull_request get_diffs get_file_content depth
  = Ok (Some data) →
  total data = length (files data)
  ∧ ∀ file, file ∈ files data → added_lines file ≠ [].
Proof.
  intros Hdata. rewrite <- Forall_forall.
  by apply (added_lines_data_files (λ file, added_lines file ≠ [])).
Qed.

End Assembler.

Lemma added_lines_data_invariant_witness :
  total {| files := [{| AzureDevOpsClient.path := JStr (lit "/src/a.py");
                        changeType := JStr (lit "edit");
                        added_lines := [lit "x"] |}];
           total := 1;
           source_branch := lit "feature";
           target_branch := lit "main" |} = 1
  ∧ ∀ file,
      file ∈ [{| AzureDevOpsClient.path := JStr (lit "/src/a.py");
                 changeType := JStr (lit "edit");
                 added_lines := [lit "x"] |}] →
      added_lines file ≠ [].
Proof.
  apply (added_lines_data_invariant Examples.pr_data (λ _ _, Examples.diff_edits)
           Examples.blobs 900).
  vm_compute. reflexivity.
Defined.

Lemma change_step_delete get_file_content depth files item :
  change_step get_file_content depth files (Examples.change "delete" item) = Ok files.
Proof.
  unfold change_step, Examples.change, dict_get_default. dict_steps.
  destruct (truthy _); [done|].
  by rewrite classify_delete.
Qed.

Lemma change_step_add get_file_content depth files file_path object_id content :
  get_file_content (JStr file_path) (JStr object_id) = Some content →
  object_id ≠ [] →
  splitlines content ≠ [] →
  change_step get_file_content depth files
    (Examples.change "add" [(lit "path", JStr file_path); (lit "objectId", JStr object_id)])
  = Ok (files ++ [{| AzureDevOpsClient.path := JStr file_path;
                     changeType := JStr (lit "add");
                     added_lines := splitlines content |}]).
Proof.
  intros Hblob Hid Hlines.
  unfold change_step, Examples.change, dict_get_default. dict_steps. cbn [truthy].
  unfold classify, eq_str. dict_steps. cbn [truthy].
  destruct object_id as [|c object_id]; [done|]. rewrite Hblob.
  destruct content as [|c' content]; [done|].
  cbn [has_content default from_option id mbind result_bind added_lines].
  by destruct (splitlines (c' :: content)).
Qed.

(** The assembler returns a result when the pull request and its diff are
    fetched, the two branches are named and every change is well formed. *)
Lemma get_pr_added_lines_only_returns get_pull_request get_diffs get_file_content depth
    pr_data source target diff_data changes files_with_additions :
  get_pull_request = JDict pr_data → pr_data ≠ [] →
  branch_name pr_data (lit "sourceRefName") = Ok source → source ≠ [] →
  branch_name pr_data (lit "targetRefName") = Ok target → target ≠ [] →
  get_diffs target source = JDict diff_data → diff_data ≠ [] →
  dict_get_default (lit "changes") (JList []) diff_data = JList changes →
  changes_loop get_file_content depth changes [] = Ok files_with_additions →
  get_pr_added_lines_only get_pull_request get_diffs get_file_content depth
  = Ok (Some {| files := files_with_additions;
                total := length files_with_additions;
                source_branch := source;
                target_branch := target |}).
Proof.
  intros -> Hpr Hsource Hs Htarget Ht Hdiff Hd Hchanges Hloop.
  unfold get_pr_added_lines_only, get_pr_diff.
  destruct pr_data as [|kv pr_data]; [done|]. cbn [truthy negb as_dict mbind result_bind].
  rewrite Hsource, Htarget. cbn [mbind result_bind].
  destruct source as [|c source]; [done|]. destruct target as [|c' target]; [done|].
  rewrite Hdiff. destruct diff_data as [|kv' diff_data]; [done|].
  cbn [truthy negb as_dict mbind result_bind].
  rewrite Hchanges. cbn [iterate mbind result_bind]. by rewrite Hloop.
Qed.

(** C5: a [delete] never contributes added lines, whatever content can be
    fetched, and never appears in [files]; a changeset of one [add] file
    with content ["l1\nl2"] and one [delete] file is assembled into that one
    file with the added lines [l1], [l2], and [total] 1. *)
Theorem delete_contributes_nothing (get_file_content : json → json → option str)
    (depth : nat) :
  (∀ file_path item,
     classify get_file_content depth (JStr (lit "delete")) file_path item = Ok [])
  ∧ (∀ get_pull_request get_diffs data,
       get_pr_added_lines_only get_pull_request get_diffs get_file_content depth
         = Ok (Some data) →
       ∀ file, file ∈ files data → changeType file ≠ JStr (lit "delete"))
  ∧ (∀ deleted_item,
       get_file_content (JStr (lit "/new.txt")) (JStr (lit "o1"))
         = Some (lit "l1" ++ [LF] ++ lit "l2") →
       get_pr_added_lines_only Examples.pr_data
         (λ _ _, JDict [(lit "changes",
                         JList [Examples.change "add"
                                  [(lit "path", JStr (lit "/new.txt"));
                                   (lit "objectId", JStr (lit "o1"))];
                                Examples.change "delete" deleted_item])])
         get_file_content depth
       = Ok (Some {| files := [{| AzureDevOpsClient.path := JStr (lit "/new.txt");
                                  changeType := JStr (lit "add");
                                  added_lines := [lit "l1"; lit "l2"] |}];
                     total := 1;
                     source_branch := lit "feature";
                     target_branch := lit "main" |})).
Proof.
  split; [apply classify_delete|]. split.
  - intros get_pull_request get_diffs data Hdata. rewrite <- Forall_forall.
    by apply (added_lines_data_files _ _ _ _ (λ file, changeType file ≠ JStr (lit "delete"))
                _ ltac:(done) Hdata).
  - intros deleted_item Hblob.
    eapply (get_pr_added_lines_only_returns Examples.pr_data _ get_file_content depth
              _ (lit "feature") (lit "main") _ _
              [{| AzureDevOpsClient.path := JStr (lit "/new.txt");
                  changeType := JStr (lit "add");
                  added_lines := [lit "l1"; lit "l2"] |}]);
      try reflexivity; try done.
    cbn [changes_loop].
    rewrite (change_step_add _ _ _ _ _ _ Hblob) by done.
    cbn [mbind result_bind]. rewrite change_step_delete. reflexivity.
Qed.

Lemma delete_contributes_nothing_witness :
  get_pr_added_lines_only Examples.pr_data (λ _ _, Examples.diff_add_delete)
    Examples.blobs 900
  = Ok (Some {| files := [{| AzureDevOpsClient.path := JStr (lit "/new.txt");
                             changeType := JStr (lit "add");
                             added_lines := [lit "l1"; lit "l2"] |}];
                total := 1;
                source_branch := lit "feature";
                target_branch := lit "main" |})
  ∧ ∀ file,
      file ∈ [{| AzureDevOpsClient.path := JStr (lit "/new.txt");
                 changeType := JStr (lit "add");
                 added_lines := [lit "l1"; lit "l2"] |}] →
      changeType file ≠ JStr (lit "delete").
Proof.
  split.
  - apply (proj2 (proj2 (delete_contributes_nothing Examples.blobs 900))
             [(lit "path", JStr (lit "/old.txt"));
              (lit "originalObjectId", JStr (lit "o0"))]).
    reflexivity.
  - apply (proj1 (proj2 (delete_contributes_nothing Examples.blobs 900))
             Examples.pr_data (λ _ _, Examples.diff_add_delete)
             {| files := [{| AzureDevOpsClient.path := JStr (lit "/new.txt");
                             changeType := JStr (lit "add");
                             added_lines := [lit "l1"; lit "l2"] |}];
                total := 1;
                source_branch := lit "feature";
                target_branch := lit "main" |}).
    vm_compute. reflexivity.
Defined.




(** ** The line differ *)

(** C2: on the reordered file [a], [b] against [b], [a] the differ returns
    exactly one line, here [b]: neither no line nor both lines. *)
Theorem reordered_lines_one_added (depth : nat) :
  compute_added_lines depth [lit "a"; lit "b"] [lit "b"; lit "a"] = Ok [lit "b"]
  ∧ (∃ added, compute_added_lines depth [lit "a"; lit "b"] [lit "b"; lit "a"] = Ok added
              ∧ length added = 1)
  ∧ (compute_added_lines depth [lit "a"; lit "b"] [lit "b"; lit "a"] = Ok [lit "a"]
     ∨ compute_added_lines depth [lit "a"; lit "b"] [lit "b"; lit "a"] = Ok [lit "b"])
  ∧ compute_added_lines depth [lit "a"; lit "b"] [lit "b"; lit "a"] ≠ Ok []
  ∧ compute_added_lines depth [lit "a"; lit "b"] [lit "b"; lit "a"]
    ≠ Ok [lit "b"; lit "a"].
Proof.
  assert (Heq : compute_added_lines depth [lit "a"; lit "b"] [lit "b"; lit "a"]
                = Ok [lit "b"])
    by (by vm_compute).
  rewrite Heq. split_and!; [done|by eexists|by right|done|done].
Qed.

Section EmptyBefore.

Context `{Countable E}.

Lemma find_longest_match_nil (b : list E) bhi :
  find_longest_match [] b 0 0 0 bhi = (0, 0, 0).
Proof. done. Qed.

Lemma get_matching_blocks_nil (b : list E) :
  get_matching_blocks [] b = [(0, length b, 0)].
Proof. done. Qed.

Lemma get_opcodes_nil (b : list E) :
  get_opcodes [] b =
    match b with
    | [] => []
    | _ => [(Insert, 0, 0, 0, length b)]
    end.
Proof.
  unfold get_opcodes. rewrite get_matching_blocks_nil. by destruct b.
Qed.

End EmptyBefore.

Lemma dump_all (tag : char) (x : list str) :
  _dump tag x 0 (length x) = (λ line, tag :: SP :: line) <$> x.
Proof.
  unfold _dump. rewrite Nat.sub_0_r.
  induction x as [|line x IH]; [done|].
  cbn [length seq fmap list_fmap]. f_equal.
  rewrite <- fmap_S_seq, <- list_fmap_compose. apply IH.
Qed.

Lemma added_lines_of_dump_plus (x : list str) :
  drop 2 <$> filter (λ line, startswith (lit "+ ") line = true)
               ((λ line, PLUS :: SP :: line) <$> x) = x.
Proof.
  induction x as [|line x IH]; [done|].
  rewrite fmap_cons, filter_cons_True by done.
  rewrite fmap_cons. by rewrite IH.
Qed.

(** C6: with no line before, the added lines are the lines after, all of
    them, in their order. *)
Theorem added_lines_empty_before (depth : nat) (after : list str) :
  compute_added_lines depth [] after = Ok after.
Proof.
  unfold compute_added_lines, compare. rewrite get_opcodes_nil.
  destruct after as [|line after]; [done|].
  cbn [compare_loop compare_group mbind result_bind]. rewrite app_nil_r, dump_all.
  by rewrite added_lines_of_dump_plus.
Qed.

(** ** Identical sequences *)

Section Identical.

Context `{Countable E}.

Lemma chain_b_index_snoc (b : list E) (x : E) :
  chain_b_index (b ++ [x]) =
    <[x := default [] (chain_b_index b !! x) ++ [length b]]> (chain_b_index b).
Proof.
  unfold chain_b_index. rewrite imap_app, foldl_app. cbn.
  by rewrite Nat.add_0_r.
Qed.

(** [b2j] before the purge: the indices of every element, increasing. *)
Lemma chain_b_index_spec (b : list E) (x : E) :
  (∀ j, j ∈ default [] (chain_b_index b !! x) ↔ b !! j = Some x)
  ∧ StronglySorted lt (default [] (chain_b_index b !! x)).
Proof.
  induction b as [|y b [IHin IHsorted]] using rev_ind.
  - split; [|constructor]. intros j. cbn. split; [by intros ?%elem_of_nil|done].
  - rewrite chain_b_index_snoc. destruct (decide (y = x)) as [->|Hne].
    + rewrite lookup_insert_eq. cbn [default from_option id]. split.
      * intros j. rewrite elem_of_app, list_elem_of_singleton, IHin.
        destruct (decide (j < length b)) as [Hlt|Hge].
        -- rewrite lookup_app_l by done. split; [intros [?| ->]; [done|lia]|by left].
        -- split.
           ++ intros [Hj%lookup_lt_Some | ->]; [lia|]. by rewrite list_lookup_middle.
           ++ intros Hj. right. apply lookup_lt_Some in Hj as Hlen.
              rewrite length_app in Hlen. cbn in Hlen. lia.
      * apply StronglySorted_app. split_and!; [|done|repeat constructor].
        intros j1 j2 Hj1%IHin%lookup_lt_Some ->%list_elem_of_singleton. done.
    + rewrite lookup_insert_ne by done. split; [|done].
      intros j. rewrite IHin. destruct (decide (j < length b)) as [Hlt|Hge].
      * by rewrite lookup_app_l.
      * split; [intros Hj%lookup_lt_Some; lia|].
        intros Hj. apply lookup_lt_Some in Hj as Hlen.
        rewrite length_app in Hlen. cbn in Hlen.
        assert (j = length b) as -> by lia.
        rewrite list_lookup_middle in Hj by done. congruence.
Qed.

(** The purge removes keys and leaves the other entries as they are. *)
Lemma chain_b_lookup (b : list E) (x : E) :
  default [] (chain_b b !! x) = []
  ∨ default [] (chain_b b !! x) = default [] (chain_b_index b !! x).
Proof.
  unfold chain_b. case_bool_decide; [|by right].
  destruct (filter _ (chain_b_index b) !! x) as [idxs|] eqn:Hx; [|by left].
  apply map_lookup_filter_Some in Hx as [-> _]. by right.
Qed.

Lemma indices_at_spec (b : list E) (i : nat) :
  (∀ j, j ∈ indices_at b i → b !! j = b !! i ∧ j < length b)
  ∧ StronglySorted lt (indices_at b i)
  ∧ (indices_at b i ≠ [] → i ∈ indices_at b i).
Proof.
  unfold indices_at. destruct (b !! i) as [x|] eqn:Hi; cbn.
  2: { split_and!; [by intros j ?%elem_of_nil|constructor|done]. }
  destruct (chain_b_index_spec b x) as [Hin Hsorted].
  destruct (chain_b_lookup b x) as [->| ->].
  - split_and!; [by intros j ?%elem_of_nil|constructor|done].
  - split_and!; [|done|intros _; by apply Hin].
    intros j Hj%Hin. split; [done|]. by apply lookup_lt_Some in Hj.
Qed.

Lemma indices_at_same (b : list E) (i j : nat) :
  j ∈ indices_at b i → indices_at b j = indices_at b i.
Proof.
  intros Hj. destruct (indices_at_spec b i) as (Hin & _ & _).
  destruct (Hin _ Hj) as [Heq _]. unfold indices_at. by rewrite Heq.
Qed.

Lemma run_le (b : list E) (j : nat) : run b j ≤ S j.
Proof.
  induction j as [|j IH]; cbn; destruct (indices_at b _); lia.
Qed.

Lemma run_unfold (b : list E) (j : nat) :
  run b j = match indices_at b j with [] => 0 | _ => S (run_before b j) end.
Proof. by destruct j. Qed.

(** Without [continue] and [break] a row is two folds, one for [newj2len]
    and one for the best match. *)
Lemma longest_row_folds i blo bhi j2len idxs newj2len best :
  Forall (λ j, blo ≤ j < bhi) idxs →
  longest_row i blo bhi j2len idxs newj2len best =
    (foldl (λ m j, <[Z.of_nat j := j2lenget j2len (Z.of_nat j - 1) 0 + 1]> m)
       newj2len idxs,
     foldl (λ best j,
              let k := j2lenget j2len (Z.of_nat j - 1) 0 + 1 in
              if bool_decide (best.2 < k) then (i + 1 - k, j + 1 - k, k) else best)
       best idxs).
Proof.
  intros Hidxs. revert newj2len best.
  induction Hidxs as [|j idxs [Hlo Hhi] _ IH]; intros newj2len best; [done|].
  cbn [longest_row foldl].
  rewrite bool_decide_eq_false_2, (bool_decide_eq_false_2 (bhi ≤ j)) by lia.
  apply IH.
Qed.

Lemma newj2len_lookup (f : nat → nat) (idxs : list nat) (m : gmap Z nat) (j : nat) :
  foldl (λ m j, <[Z.of_nat j := f j]> m) m idxs !! Z.of_nat j =
    if bool_decide (j ∈ idxs) then Some (f j) else m !! Z.of_nat j.
Proof.
  revert m. induction idxs as [|j' idxs IH]; intros m; [done|].
  cbn [foldl]. rewrite IH. destruct (decide (j = j')) as [->|Hne].
  - rewrite lookup_insert_eq. rewrite (bool_decide_eq_true_2 (j' ∈ j' :: idxs))
      by (apply elem_of_cons; by left).
    by case_bool_decide.
  - rewrite lookup_insert_ne by lia.
    case_bool_decide as Hin.
    + by rewrite bool_decide_eq_true_2 by (apply elem_of_cons; by right).
    + rewrite bool_decide_eq_false_2; [done|].
      intros [?|?]%elem_of_cons; done.
Qed.

Lemma newj2len_lookup_neg (f : nat → nat) (idxs : list nat) (m : gmap Z nat) (z : Z) :
  (z < 0)%Z →
  foldl (λ m j, <[Z.of_nat j := f j]> m) m idxs !! z = m !! z.
Proof.
  intros Hz. revert m. induction idxs as [|j' idxs IH]; intros m; [done|].
  cbn [foldl]. rewrite IH. apply lookup_insert_ne. lia.
Qed.

Lemma best_fold_same (i : nat) (f : nat → nat) (idxs : list nat) (best : nat * nat * nat) :
  Forall (λ j, f j ≤ best.2) idxs →
  foldl (λ best j,
           let k := f j in
           if bool_decide (best.2 < k) then (i + 1 - k, j + 1 - k, k) else best)
    best idxs = best.
Proof.
  induction 1 as [|j idxs Hj _ IH]; [done|].
  cbn [foldl]. by rewrite bool_decide_eq_false_2 by lia.
Qed.

Lemma run_indexed (b : list E) (i j : nat) :
  j ∈ indices_at b i → run b j = S (run_before b j) ∧ run b i = S (run_before b i).
Proof.
  intros Hj. rewrite !run_unfold, (indices_at_same _ _ _ Hj).
  by destruct (indices_at b i); [apply elem_of_nil in Hj|].
Qed.

(** One row of the search, on a sequence matched against itself. *)
Lemma longest_row_identical (a : list E) (i : nat) (j2len : gmap Z nat)
    (best : nat * nat * nat) :
  j2len_inv a i j2len → best_inv a i best →
  ∃ newj2len best',
    longest_row i 0 (length a) j2len (indices_at a i) ∅ best = (newj2len, best')
    ∧ j2len_inv a (S i) newj2len ∧ best_inv a (S i) best'.
Proof.
  intros (Hcol & Hrow & Hdiag) (Hbest & Hend & Hruns).
  destruct (indices_at_spec a i) as (Hin & Hsorted & Hself).
  rewrite longest_row_folds
    by (apply Forall_forall; intros j Hj; destruct (Hin j Hj); lia).
  eexists _, _. split; [done|]. split.
  - assert (Hentry : ∀ j,
      j2lenget (foldl (λ m j, <[Z.of_nat j := j2lenget j2len (Z.of_nat j - 1) 0 + 1]> m)
                  ∅ (indices_at a i)) (Z.of_nat j - 1) 0
      = match j with
        | 0 => 0
        | S j' => if bool_decide (j' ∈ indices_at a i)
                  then j2lenget j2len (Z.of_nat j' - 1) 0 + 1 else 0
        end).
    { intros [|j']; unfold j2lenget at 1.
      - by rewrite (newj2len_lookup_neg (λ j, j2lenget j2len (Z.of_nat j - 1) 0 + 1)).
      - replace (Z.of_nat (S j') - 1)%Z with (Z.of_nat j') by lia.
        rewrite (newj2len_lookup (λ j, j2lenget j2len (Z.of_nat j - 1) 0 + 1)).
        by case_bool_decide. }
    split_and!.
    + intros j. rewrite Hentry. destruct j as [|j']; [lia|]. case_bool_decide as Hj'; [|lia].
      cbn [run_before]. destruct (run_indexed _ _ _ Hj') as [-> _].
      specialize (Hcol j'). lia.
    + intros j. rewrite Hentry. destruct j as [|j']; [lia|]. case_bool_decide as Hj'; [|lia].
      cbn [run_before]. destruct (run_indexed _ _ _ Hj') as [_ ->].
      specialize (Hrow j'). lia.
    + rewrite Hentry. cbn [run_before]. case_bool_decide as Hi.
      * destruct (run_indexed _ _ _ Hi) as [-> _]. lia.
      * rewrite run_unfold. destruct (indices_at a i); [done|].
        exfalso. by apply Hi, Hself.
  - destruct (decide (indices_at a i = [])) as [Hnil|Hne].
    { rewrite Hnil. cbn [foldl]. unfold best_inv. split_and!; [done|lia|].
      intros i' Hi'. destruct (decide (i' = i)) as [->|]; [|apply Hruns; lia].
      rewrite run_unfold, Hnil. lia. }
    specialize (Hself Hne).
    destruct (run_indexed _ _ _ Hself) as [Hrun _].
    destruct (list_elem_of_split _ _ Hself) as (l1 & l2 & Hsplit).
    rewrite Hsplit in Hsorted, Hin |- *. rewrite foldl_app. cbn [foldl].
    rewrite (best_fold_same i (λ j, j2lenget j2len (Z.of_nat j - 1) 0 + 1) l1).
    2: { apply Forall_forall. intros j Hj.
         assert (j < i) as Hlt.
         { apply (StronglySorted_app_1_elem_of _ _ _ _ _ Hsorted Hj).
           apply elem_of_cons. by left. }
         assert (j ∈ indices_at a i) as Hji
           by (rewrite Hsplit; apply elem_of_app; by left).
         destruct (run_indexed _ _ _ Hji) as [Hrunj _].
         specialize (Hcol j). specialize (Hruns j Hlt). lia. }
    assert (Hafter : ∀ best1 : nat * nat * nat, run a i ≤ best1.2 →
      Forall (λ j, j2lenget j2len (Z.of_nat j - 1) 0 + 1 ≤ best1.2) l2).
    { intros best1 Hbest1. apply Forall_forall. intros j Hj.
      specialize (Hrow j). lia. }
    pose proof (run_le a i) as Hle.
    case_bool_decide as Hlong.
    + rewrite best_fold_same by (apply Hafter; cbn; lia).
      unfold best_inv. cbn [fst snd]. split_and!; [done|lia|].
      intros i' Hi'. destruct (decide (i' = i)) as [->|]; [lia|].
      specialize (Hruns i'). lia.
    + rewrite best_fold_same by (apply Hafter; lia).
      unfold best_inv. split_and!; [done|lia|].
      intros i' Hi'. destruct (decide (i' = i)) as [->|]; [lia|].
      apply Hruns. lia.
Qed.

Lemma longest_rows_identical (a : list E) (m : nat) :
  ∃ j2len best,
    longest_rows a a 0 m 0 (length a) = (j2len, best)
    ∧ j2len_inv a m j2len ∧ best_inv a m best.
Proof.
  induction m as [|m (j2len & best & Hrows & Hj2len & Hbest)].
  - exists ∅, (0, 0, 0). split; [done|].
    unfold j2len_inv, best_inv, j2lenget. cbn [fst snd run_before].
    setoid_rewrite lookup_empty. cbn.
    split_and!; try done; intros; lia.
  - destruct (longest_row_identical a m j2len best Hj2len Hbest)
      as (newj2len & best' & Hrow & Hinv).
    exists newj2len, best'. split; [|done].
    unfold longest_rows in Hrows |- *. cbn zeta in Hrows |- *.
    rewrite Nat.sub_0_r in Hrows |- *. rewrite seq_S, foldl_app, Hrows. apply Hrow.
Qed.

Lemma item_eqb_refl (a : list E) (i : nat) :
  i < length a → item_eqb (a !! i) (a !! i) = true.
Proof.
  intros [x Hx]%lookup_lt_is_Some. rewrite Hx. cbn. by apply bool_decide_eq_true.
Qed.

Lemma extend_left_identical (a : list E) (besti bestsize : nat) :
  besti ≤ length a →
  extend_left a a 0 0 besti besti bestsize = (0, 0, besti + bestsize).
Proof.
  revert bestsize. induction besti as [|besti IH]; intros bestsize Hle; [done|].
  cbn [extend_left]. rewrite item_eqb_refl by lia.
  rewrite bool_decide_eq_true_2 by lia. cbn [andb].
  rewrite IH by lia. f_equal. lia.
Qed.

Lemma extend_right_identical (a : list E) (n bestsize : nat) :
  bestsize + n = length a →
  extend_right a a n (length a) (length a) 0 0 bestsize = length a.
Proof.
  revert bestsize. induction n as [|n IH]; intros bestsize Hlen; cbn [extend_right]; [lia|].
  cbn [Nat.add]. rewrite item_eqb_refl by lia.
  rewrite bool_decide_eq_true_2 by lia. cbn [andb]. apply IH. lia.
Qed.

(** The longest match of a sequence with itself is the whole sequence, also
    when elements were purged as popular: the search then finds the first
    longest run of the other elements, on the diagonal, and the extension
    takes in the rest. *)
Lemma find_longest_match_identical (a : list E) :
  find_longest_match a a 0 (length a) 0 (length a) = (0, 0, length a).
Proof.
  unfold find_longest_match.
  destruct (longest_rows_identical a (length a))
    as (j2len & [[besti bestj] bestsize] & -> & _ & Hdiag & Hend & _).
  cbn [fst snd] in *. subst bestj.
  rewrite extend_left_identical by lia.
  by rewrite extend_right_identical by lia.
Qed.

Lemma get_matching_blocks_identical (a : list E) :
  a ≠ [] →
  get_matching_blocks a a = [(0, 0, length a); (length a, length a, 0)].
Proof.
  intros Ha. unfold get_matching_blocks. cbn zeta.
  replace (2 * length a + 1) with (S (2 * length a)) by lia.
  cbn [blocks_loop]. unfold list_pop at 1. cbn [reverse rev_append].
  rewrite find_longest_match_identical.
  assert (length a ≠ 0) as Hlen by (by destruct a).
  rewrite bool_decide_eq_true_2 by done.
  rewrite (bool_decide_eq_false_2 (0 < 0)) by lia.
  rewrite (bool_decide_eq_false_2 (0 + length a < length a)) by lia.
  cbn [andb app].
  assert (Hstop : ∀ fuel blocks, blocks_loop a a fuel [] blocks = blocks)
    by (by intros [|fuel] blocks).
  rewrite Hstop. cbn.
  rewrite (bool_decide_eq_true_2 (0 = 0)) by done. cbn [andb].
  by rewrite bool_decide_eq_true_2 by done.
Qed.

Lemma get_opcodes_identical (a : list E) :
  a ≠ [] → get_opcodes a a = [(Equal, 0, length a, 0, length a)].
Proof.
  intros Ha. unfold get_opcodes. rewrite get_matching_blocks_identical by done.
  assert (length a ≠ 0) as Hlen by (by destruct a).
  cbn [foldl opcodes_step].
  rewrite !(bool_decide_eq_false_2 (0 < 0)) by lia. cbn [andb app Nat.add].
  rewrite (bool_decide_eq_true_2 (length a ≠ 0)) by done.
  rewrite !(bool_decide_eq_false_2 (length a < length a)) by lia. cbn [andb].
  by rewrite (bool_decide_eq_false_2 (0 ≠ 0)) by lia.
Qed.

End Identical.

Lemma added_lines_of_dump_equal (x : list str) :
  filter (λ line, startswith (lit "+ ") line = true)
    ((λ line, SP :: SP :: line) <$> x) = [].
Proof.
  induction x as [|line x IH]; [done|].
  rewrite fmap_cons, filter_cons_False by done. apply IH.
Qed.

(** C7: a sequence of lines diffed against itself has no added line. *)
Theorem added_lines_identical (depth : nat) (before after : list str) :
  before = after → compute_added_lines depth before after = Ok [].
Proof.
  intros <-. destruct (decide (before = [])) as [->|Hne]; [done|].
  unfold compute_added_lines, compare. rewrite get_opcodes_identical by done.
  cbn [compare_loop compare_group mbind result_bind]. rewrite app_nil_r, dump_all.
  by rewrite added_lines_of_dump_equal.
Qed.

Lemma added_lines_identical_witness :
  compute_added_lines 900 [lit "a"; lit "b"; lit "a"] [lit "a"; lit "b"; lit "a"] = Ok [].
Proof. apply added_lines_identical. reflexivity. Defined.

(** ** The bounds of the loops

    The [while] loops of [difflib] and the recursion of [_fancy_replace] are
    embedded with a bound on their turns. The bounds chosen are never
    reached: beyond them the results do not depend on the bound. *)

Lemma longest_row_bounds i alo ahi blo bhi j2len idxs newj2len best :
  alo ≤ i < ahi →
  j2len_bounds blo (i - alo) j2len →
  j2len_bounds blo (S i - alo) newj2len →
  best_bounds alo ahi blo bhi best →
  j2len_bounds blo (S i - alo) (longest_row i blo bhi j2len idxs newj2len best).1
  ∧ best_bounds alo ahi blo bhi (longest_row i blo bhi j2len idxs newj2len best).2.
Proof.
  intros Hi Hj2len. revert newj2len best.
  induction idxs as [|j idxs IH]; intros newj2len best Hnew Hbest; [done|].
  cbn [longest_row]. case_bool_decide as Hlo; [by apply IH|].
  case_bool_decide as Hhi; [done|].
  assert (Hk : j2lenget j2len (Z.of_nat j - 1) 0 + 1 ≤ S i - alo
               ∧ j2lenget j2len (Z.of_nat j - 1) 0 + 1 ≤ j + 1 - blo).
  { unfold j2lenget. destruct (j2len !! _) as [v|] eqn:Hv; cbn; [|lia].
    destruct (Hj2len _ _ Hv) as (j' & Hj' & ? & ? & ?). lia. }
  destruct Hk as [Hrows Hcols]. apply IH.
  - intros z v. destruct (decide (z = Z.of_nat j)) as [->|Hne].
    + rewrite lookup_insert_eq. intros [= <-]. exists j. split_and!; [done|lia..].
    + rewrite lookup_insert_ne by done. apply Hnew.
  - case_bool_decide; [|done]. unfold best_bounds. cbn [fst snd]. lia.
Qed.

Section Bounds.

Context `{Countable E}.

Lemma longest_rows_bounds (a b : list E) alo ahi blo bhi :
  alo ≤ ahi → blo ≤ bhi →
  best_bounds alo ahi blo bhi (longest_rows a b alo ahi blo bhi).2.
Proof.
  intros Ha Hb. unfold longest_rows. cbn zeta.
  assert (Hrows : ∀ m, alo + m ≤ ahi →
    ∀ st, st = foldl (λ '(j2len, best) i,
                 longest_row i blo bhi j2len
                   (default [] (a !! i ≫= (chain_b b !!.))) ∅ best)
              (∅, (alo, blo, 0)) (seq alo m) →
    j2len_bounds blo m st.1 ∧ best_bounds alo ahi blo bhi st.2).
  { induction m as [|m IH]; intros Hm st ->.
    - cbn. split; [by intros z v|]. unfold best_bounds. cbn. lia.
    - rewrite seq_S, foldl_app. cbn [foldl].
      destruct (foldl _ _ (seq alo m)) as [j2len best] eqn:Hfold.
      destruct (IH ltac:(lia) _ eq_refl) as [Hj2len Hbest]. cbn [fst snd] in *.
      replace (S m) with (S (alo + m) - alo) by lia.
      apply (longest_row_bounds _ alo ahi); [lia| |by intros z v|done].
      by replace (alo + m - alo) with m by lia. }
  by apply (Hrows (ahi - alo) ltac:(lia) _ eq_refl).
Qed.

Lemma extend_left_bounds (a b : list E) alo ahi blo bhi besti bestj bestsize :
  best_bounds alo ahi blo bhi (besti, bestj, bestsize) →
  best_bounds alo ahi blo bhi (extend_left a b alo blo besti bestj bestsize).
Proof.
  revert bestj bestsize.
  induction besti as [|besti IH]; intros bestj bestsize Hbest; [done|].
  destruct bestj as [|bestj]; [done|]. cbn [extend_left].
  destruct (_ && _ && _) eqn:Hcond; [|done].
  apply andb_prop in Hcond as [[Ha%bool_decide_eq_true Hb%bool_decide_eq_true]%andb_prop _].
  apply IH. unfold best_bounds in *. cbn [fst snd] in *. lia.
Qed.

Lemma extend_right_bounds (a b : list E) n ahi bhi besti bestj bestsize :
  besti + bestsize ≤ ahi → bestj + bestsize ≤ bhi →
  bestsize ≤ extend_right a b n ahi bhi besti bestj bestsize
  ∧ besti + extend_right a b n ahi bhi besti bestj bestsize ≤ ahi
  ∧ bestj + extend_right a b n ahi bhi besti bestj bestsize ≤ bhi.
Proof.
  revert bestsize. induction n as [|n IH]; intros bestsize Ha Hb; [done|].
  cbn [extend_right]. destruct (_ && _ && _) eqn:Hcond; [|done].
  apply andb_prop in Hcond as [[Ha'%bool_decide_eq_true Hb'%bool_decide_eq_true]%andb_prop _].
  destruct (IH (bestsize + 1)) as (? & ? & ?); lia.
Qed.

(** The match [find_longest_match] returns lies inside the two ranges. *)
Lemma find_longest_match_bounds (a b : list E) alo ahi blo bhi :
  alo ≤ ahi → blo ≤ bhi →
  best_bounds alo ahi blo bhi (find_longest_match a b alo ahi blo bhi).
Proof.
  intros Ha Hb. unfold find_longest_match.
  pose proof (longest_rows_bounds a b alo ahi blo bhi Ha Hb) as Hrows.
  destruct (longest_rows a b alo ahi blo bhi).2 as [[besti bestj] bestsize].
  apply (extend_left_bounds a b) in Hrows.
  destruct (extend_left a b alo blo besti bestj bestsize) as [[besti' bestj'] bestsize'].
  unfold best_bounds in Hrows |- *. cbn [fst snd] in *.
  destruct (extend_right_bounds a b (ahi - (besti' + bestsize')) ahi bhi
              besti' bestj' bestsize') as (? & ? & ?); lia.
Qed.

Lemma extend_right_fuel (a b : list E) n n' ahi bhi besti bestj bestsize :
  ahi - (besti + bestsize) ≤ n → ahi - (besti + bestsize) ≤ n' →
  extend_right a b n ahi bhi besti bestj bestsize
  = extend_right a b n' ahi bhi besti bestj bestsize.
Proof.
  revert n' bestsize. induction n as [|n IH]; intros n' bestsize Hn Hn'.
  - destruct n' as [|n']; [done|]. cbn [extend_right].
    by rewrite bool_decide_eq_false_2 by lia.
  - destruct n' as [|n']; cbn [extend_right].
    + by rewrite bool_decide_eq_false_2 by lia.
    + destruct (_ && _ && _) eqn:Hcond; [|done].
      apply andb_prop in Hcond as [[Ha%bool_decide_eq_true _]%andb_prop _].
      apply IH; lia.
Qed.

Lemma list_pop_snoc {A} (l : list A) (x : A) : list_pop (l ++ [x]) = Some (x, l).
Proof. unfold list_pop. by rewrite reverse_snoc, reverse_involutive. Qed.

Lemma queue_work_snoc queue alo ahi blo bhi :
  queue_work (queue ++ [(alo, ahi, blo, bhi)]) = queue_work queue + (2 * (ahi - alo) + 1).
Proof. unfold queue_work. rewrite fmap_app, sum_list_with_app. cbn. lia. Qed.

(** [get_matching_blocks] stops with an empty queue before its bound. *)
Lemma blocks_loop_fuel (a b : list E) fuel fuel' queue blocks :
  queue_wf queue → queue_work queue ≤ fuel → queue_work queue ≤ fuel' →
  blocks_loop a b fuel queue blocks = blocks_loop a b fuel' queue blocks.
Proof.
  revert fuel' queue blocks.
  induction fuel as [|fuel IH]; intros fuel' queue blocks Hwf Hfuel Hfuel';
    destruct queue as [|[[[alo ahi] blo] bhi] queue _] using rev_ind.
  - by destruct fuel'.
  - rewrite queue_work_snoc in Hfuel. lia.
  - by destruct fuel'.
  - rewrite queue_work_snoc in Hfuel, Hfuel'.
    destruct fuel' as [|fuel']; [lia|]. cbn [blocks_loop]. rewrite list_pop_snoc.
    apply Forall_app in Hwf as [Hwf [[Ha Hb] _]%Forall_cons].
    pose proof (find_longest_match_bounds a b alo ahi blo bhi Ha Hb) as Hbest.
    destruct (find_longest_match a b alo ahi blo bhi) as [[i j] k].
    unfold best_bounds in Hbest. cbn [fst snd] in Hbest.
    case_bool_decide as Hk; [|apply IH; [done|lia..]].
    destruct (bool_decide (alo < i) && bool_decide (blo < j)) eqn:Hleft;
      destruct (bool_decide (i + k < ahi) && bool_decide (j + k < bhi)) eqn:Hright;
      try apply andb_prop in Hleft as [?%bool_decide_eq_true ?%bool_decide_eq_true];
      try apply andb_prop in Hright as [?%bool_decide_eq_true ?%bool_decide_eq_true];
      apply IH; unfold queue_wf;
      rewrite ?Forall_app, ?Forall_singleton, ?queue_work_snoc;
      first [lia | done | repeat split; try done; lia].
Qed.

(** The bound of [get_matching_blocks] is one of them. *)
Lemma get_matching_blocks_fuel (a b : list E) fuel :
  2 * length a + 1 ≤ fuel →
  blocks_loop a b fuel [(0, length a, 0, length b)] []
  = blocks_loop a b (2 * length a + 1) [(0, length a, 0, length b)] [].
Proof.
  intros Hfuel. apply blocks_loop_fuel.
  - apply Forall_singleton. lia.
  - cbn. lia.
  - cbn. lia.
Qed.

End Bounds.

Lemma foldl_invariant {A B} (P : A → Prop) (f : A → B → A) (l : list B) (a : A) :
  P a → (∀ a x, x ∈ l → P a → P (f a x)) → P (foldl f a l).
Proof.
  revert a. induction l as [|x l IH]; intros a Ha Hf; [done|].
  cbn [foldl]. apply IH.
  - apply Hf; [apply elem_of_cons; by left|done].
  - intros a' x' Hx'. apply Hf. apply elem_of_cons. by right.
Qed.

(** The synch point of [_fancy_replace] lies inside the two ranges. *)
Lemma synch_point_bounds (a : list str) alo ahi (b : list str) blo bhi best_i best_j identical :
  synch_point (search a alo ahi b blo bhi) = Some (best_i, best_j, identical) →
  alo ≤ best_i < ahi ∧ blo ≤ best_j < bhi.
Proof.
  set (inside := λ i j : nat, alo ≤ i < ahi ∧ blo ≤ j < bhi).
  assert (Hsearch :
    (λ st : option (Q * nat * nat) * option (nat * nat),
       (∀ r i j, st.1 = Some (r, i, j) → inside i j)
       ∧ (∀ i j, st.2 = Some (i, j) → inside i j))
      (search a alo ahi b blo bhi)).
  { unfold search. apply foldl_invariant; [done|].
    intros st j Hj%elem_of_seq Hst. apply foldl_invariant; [done|].
    clear st Hst. intros [best eqs] i Hi%elem_of_seq [Hbest Heqs].
    unfold search_step. cbn [fst snd] in *.
    assert (inside i j) by (unfold inside; lia).
    case_bool_decide.
    - split; [done|]. destruct eqs; [done|]. by intros i' j' [= <- <-].
    - destruct (_ && _ && _); [|done]. split; [|done]. by intros r i' j' [= _ <- <-]. }
  destruct (search a alo ahi b blo bhi) as [best eqs]. destruct Hsearch as [Hbest Heqs].
  unfold synch_point. cbn [fst snd] in *. destruct (Qltb _ _).
  - destruct eqs as [[eqi eqj]|]; [|done]. intros [= <- <- _]. by apply Heqs.
  - destruct best as [[[r i] j]|]; [|done]. intros [= <- <- _]. by eapply Hbest.
Qed.

Section BlockBounds.

Context `{Countable E}.

Lemma blocks_loop_bounds (a b : list E) fuel queue blocks :
  Forall (λ '(alo, ahi, blo, bhi),
            alo ≤ ahi ∧ blo ≤ bhi ∧ ahi ≤ length a ∧ bhi ≤ length b) queue →
  Forall (best_bounds 0 (length a) 0 (length b)) blocks →
  Forall (best_bounds 0 (length a) 0 (length b)) (blocks_loop a b fuel queue blocks).
Proof.
  revert queue blocks. induction fuel as [|fuel IH]; intros queue blocks Hqueue Hblocks;
    [done|].
  destruct queue as [|[[[alo ahi] blo] bhi] queue _] using rev_ind; [done|].
  cbn [blocks_loop]. rewrite list_pop_snoc.
  apply Forall_app in Hqueue as [Hqueue [(Ha & Hb & Hla & Hlb) _]%Forall_cons].
  pose proof (find_longest_match_bounds a b alo ahi blo bhi Ha Hb) as Hbest.
  destruct (find_longest_match a b alo ahi blo bhi) as [[i j] k].
  unfold best_bounds in Hbest. cbn [fst snd] in Hbest.
  case_bool_decide as Hk; [|by apply IH].
  apply IH.
  - destruct (bool_decide (alo < i) && bool_decide (blo < j)) eqn:Hleft;
      destruct (bool_decide (i + k < ahi) && bool_decide (j + k < bhi)) eqn:Hright;
      try apply andb_prop in Hleft as [?%bool_decide_eq_true ?%bool_decide_eq_true];
      try apply andb_prop in Hright as [?%bool_decide_eq_true ?%bool_decide_eq_true];
      rewrite ?Forall_app, ?Forall_singleton;
      first [done | repeat split; try done; lia].
  - apply Forall_app. split; [done|]. apply Forall_singleton.
    unfold best_bounds. cbn [fst snd]. lia.
Qed.

(** The matching blocks lie inside the two sequences. *)
Lemma get_matching_blocks_bounds (a b : list E) :
  Forall (best_bounds 0 (length a) 0 (length b)) (get_matching_blocks a b).
Proof.
  unfold get_matching_blocks. cbn zeta.
  assert (Hsorted : Forall (best_bounds 0 (length a) 0 (length b))
            (merge_sort (λ x y, block_leb x y)
               (blocks_loop a b (2 * length a + 1) [(0, length a, 0, length b)] []))).
  { rewrite merge_sort_Permutation. apply blocks_loop_bounds; [|done].
    apply Forall_singleton. lia. }
  set (inv := λ st : nat * nat * nat * list (nat * nat * nat),
         best_bounds 0 (length a) 0 (length b) st.1
         ∧ Forall (best_bounds 0 (length a) 0 (length b)) st.2).
  assert (Hfold : inv (foldl collapse_step (0, 0, 0, [])
                         (merge_sort (λ x y, block_leb x y)
                            (blocks_loop a b (2 * length a + 1)
                               [(0, length a, 0, length b)] [])))).
  { apply foldl_invariant.
    - split; [|done]. unfold best_bounds. cbn. lia.
    - intros [[[i1 j1] k1] non_adjacent] [[i2 j2] k2] Hin [Hcur Hdone].
      apply (proj1 (Forall_forall _ _) Hsorted) in Hin.
      unfold inv, collapse_step, best_bounds in *. cbn [fst snd] in *.
      destruct (_ && _) eqn:Hadj.
      + apply andb_prop in Hadj as [?%bool_decide_eq_true ?%bool_decide_eq_true].
        cbn [fst snd]. split; [lia|done].
      + cbn [fst snd]. split; [done|]. destruct (bool_decide (k1 ≠ 0)); [|done].
        apply Forall_app. split; [done|]. by apply Forall_singleton. }
  destruct (foldl collapse_step _ _) as [[[i1 j1] k1] non_adjacent].
  destruct Hfold as [Hcur Hdone]. cbn [fst snd] in *.
  apply Forall_app. split.
  - case_bool_decide; [|done]. apply Forall_app. split; [done|]. by apply Forall_singleton.
  - apply Forall_singleton. unfold best_bounds. cbn. lia.
Qed.

(** The ranges of the opcodes end inside the two sequences. *)
Lemma get_opcodes_bounds (a b : list E) :
  Forall (λ '(tag, alo, ahi, blo, bhi), ahi ≤ length a ∧ bhi ≤ length b)
    (get_opcodes a b).
Proof.
  unfold get_opcodes.
  pose proof (get_matching_blocks_bounds a b) as Hblocks.
  apply (foldl_invariant
           (λ st : nat * nat * list (tag * nat * nat * nat * nat),
              Forall (λ '(tag, alo, ahi, blo, bhi), ahi ≤ length a ∧ bhi ≤ length b)
                st.2)); [done|].
  intros [[i j] answer] [[ai bj] size] Hin Hanswer.
  apply (proj1 (Forall_forall _ _) Hblocks) in Hin.
  unfold best_bounds in Hin. cbn [fst snd opcodes_step] in *.
  assert (Hfirst : Forall
            (λ '(tag, alo, ahi, blo, bhi), ahi ≤ length a ∧ bhi ≤ length b)
            match (if bool_decide (i < ai) && bool_decide (j < bj) then Some Replace
                   else if bool_decide (i < ai) then Some Delete
                   else if bool_decide (j < bj) then Some Insert else None) with
            | Some tag => answer ++ [(tag, i, ai, j, bj)]
            | None => answer
            end).
  { destruct (if _ && _ then _ else _); [|done].
    apply Forall_app. split; [done|]. apply Forall_singleton. lia. }
  destruct (bool_decide (size ≠ 0)); [|done].
  apply Forall_app. split; [done|]. apply Forall_singleton. lia.
Qed.

End BlockBounds.

(** ** The depth of the calls of [_fancy_replace]

    A call of [_fancy_replace] nests its calls no deeper than the range of
    [a] it is called for is long: with that much room it returns. When it
    does not return it raises [RecursionError], and with more room it
    returns the same lines. *)

Lemma fancy_replace_returns depth (a : list str) alo ahi (b : list str) blo bhi :
  alo < ahi → ahi - alo ≤ depth →
  ∃ out, _fancy_replace depth a alo ahi b blo bhi = Ok out.
Proof.
  revert alo ahi blo bhi.
  induction depth as [|depth IH]; intros alo ahi blo bhi Ha Hdepth; [lia|].
  cbn [_fancy_replace].
  destruct (synch_point _) as [[[best_i best_j] identical]|] eqn:Hsynch; [|by eexists].
  apply synch_point_bounds in Hsynch as [Hi Hj].
  assert (Hhelper : ∀ alo' ahi' blo' bhi', ahi' - alo' ≤ depth →
    ∃ out,
      (if bool_decide (alo' < ahi') then
         if bool_decide (blo' < bhi') then _fancy_replace depth a alo' ahi' b blo' bhi'
         else Ok (_dump MINUS a alo' ahi')
       else if bool_decide (blo' < bhi') then Ok (_dump PLUS b blo' bhi') else Ok [])
      = Ok out).
  { intros alo' ahi' blo' bhi' Hdepth'.
    case_bool_decide; [|case_bool_decide; by eexists].
    case_bool_decide; [|by eexists]. by apply IH. }
  destruct (Hhelper alo best_i blo best_j) as [before ->]; [lia|].
  destruct (Hhelper (best_i + 1) ahi (best_j + 1) bhi) as [after ->]; [lia|].
  by eexists.
Qed.

Lemma fancy_replace_raises depth (a : list str) alo ahi (b : list str) blo bhi e :
  _fancy_replace depth a alo ahi b blo bhi = Raise e → e = RecursionError.
Proof.
  revert alo ahi blo bhi.
  induction depth as [|depth IH]; intros alo ahi blo bhi; [by intros [= <-]|].
  cbn [_fancy_replace].
  destruct (synch_point _) as [[[best_i best_j] identical]|]; [|done].
  assert (Hhelper : ∀ alo' ahi' blo' bhi',
    (if bool_decide (alo' < ahi') then
       if bool_decide (blo' < bhi') then _fancy_replace depth a alo' ahi' b blo' bhi'
       else Ok (_dump MINUS a alo' ahi')
     else if bool_decide (blo' < bhi') then Ok (_dump PLUS b blo' bhi') else Ok [])
    = Raise e → e = RecursionError).
  { intros alo' ahi' blo' bhi'.
    case_bool_decide; [|by case_bool_decide].
    case_bool_decide; [|done]. apply IH. }
  destruct (if bool_decide (alo < best_i) then _ else _) as [before|e'] eqn:Hbefore;
    cbn [mbind result_bind]; [|intros [= <-]; by eapply Hhelper].
  destruct (if bool_decide (best_i + 1 < ahi) then _ else _) as [after|e'] eqn:Hafter;
    cbn [mbind result_bind]; [done|intros [= <-]; by eapply Hhelper].
Qed.

Lemma fancy_replace_deeper depth depth' (a : list str) alo ahi (b : list str) blo bhi out :
  _fancy_replace depth a alo ahi b blo bhi = Ok out → depth ≤ depth' →
  _fancy_replace depth' a alo ahi b blo bhi = Ok out.
Proof.
  revert depth' alo ahi blo bhi out.
  induction depth as [|depth IH]; intros depth' alo ahi blo bhi out; [done|].
  intros Hout Hdepth. destruct depth' as [|depth']; [lia|].
  revert Hout. cbn [_fancy_replace].
  destruct (synch_point _) as [[[best_i best_j] identical]|]; [|done].
  assert (Hhelper : ∀ alo' ahi' blo' bhi' out',
    (if bool_decide (alo' < ahi') then
       if bool_decide (blo' < bhi') then _fancy_replace depth a alo' ahi' b blo' bhi'
       else Ok (_dump MINUS a alo' ahi')
     else if bool_decide (blo' < bhi') then Ok (_dump PLUS b blo' bhi') else Ok [])
    = Ok out' →
    (if bool_decide (alo' < ahi') then
       if bool_decide (blo' < bhi') then _fancy_replace depth' a alo' ahi' b blo' bhi'
       else Ok (_dump MINUS a alo' ahi')
     else if bool_decide (blo' < bhi') then Ok (_dump PLUS b blo' bhi') else Ok [])
    = Ok out').
  { intros alo' ahi' blo' bhi' out'.
    case_bool_decide; [|done]. case_bool_decide; [|done].
    intros Hout'. apply IH; [done|lia]. }
  destruct (if bool_decide (alo < best_i) then _ else _) as [before|] eqn:Hbefore; [|done].
  rewrite (Hhelper _ _ _ _ _ Hbefore). cbn [mbind result_bind].
  destruct (if bool_decide (best_i + 1 < ahi) then _ else _) as [after|] eqn:Hafter; [|done].
  by rewrite (Hhelper _ _ _ _ _ Hafter).
Qed.

Lemma compare_loop_returns depth (a b : list str) opcodes :
  Forall (λ '(tag, alo, ahi, blo, bhi), tag = Replace → alo < ahi ∧ ahi - alo ≤ depth)
    opcodes →
  ∃ delta, compare_loop depth a b opcodes = Ok delta.
Proof.
  induction 1 as [|[[[[tag alo] ahi] blo] bhi] opcodes Hop _ [rest IH]]; [by eexists|].
  cbn [compare_loop]. rewrite IH.
  destruct tag; cbn [compare_group mbind result_bind]; try by eexists.
  destruct (Hop eq_refl) as [Ha Hdepth].
  destruct (fancy_replace_returns depth a alo ahi b blo bhi Ha Hdepth) as [g ->].
  by eexists.
Qed.

Lemma compare_loop_raises depth (a b : list str) opcodes e :
  compare_loop depth a b opcodes = Raise e → e = RecursionError.
Proof.
  induction opcodes as [|[[[[tag alo] ahi] blo] bhi] opcodes IH]; [done|].
  cbn [compare_loop].
  destruct (compare_group _ _ _ _) as [g|e'] eqn:Hg; cbn [mbind result_bind].
  - destruct (compare_loop _ _ _ _) as [rest|e'']; cbn [mbind result_bind]; [done|].
    intros [= <-]. by apply IH.
  - intros [= <-]. destruct tag; try done. by eapply fancy_replace_raises.
Qed.

Lemma compare_loop_deeper depth depth' (a b : list str) opcodes delta :
  compare_loop depth a b opcodes = Ok delta → depth ≤ depth' →
  compare_loop depth' a b opcodes = Ok delta.
Proof.
  intros Hdelta Hdepth. revert delta Hdelta.
  induction opcodes as [|[[[[tag alo] ahi] blo] bhi] opcodes IH]; intros delta; [done|].
  cbn [compare_loop].
  destruct (compare_group depth _ _ _) as [g|] eqn:Hg; [|done].
  assert (compare_group depth' a b (tag, alo, ahi, blo, bhi) = Ok g) as ->.
  { destruct tag; try done. by eapply fancy_replace_deeper. }
  cbn [mbind result_bind].
  destruct (compare_loop depth _ _ _) as [rest|]; [|done].
  by rewrite (IH _ eq_refl).
Qed.

(** ** The matching blocks are matches *)

Section Matches.

Context `{Countable E}.

Lemma b2j_indices (a b : list E) (i j : nat) :
  j ∈ default [] (a !! i ≫= (chain_b b !!.)) →
  ∃ x, a !! i = Some x ∧ b !! j = Some x.
Proof.
  destruct (a !! i) as [x|]; cbn; [|by intros ?%elem_of_nil].
  intros Hj. exists x. split; [done|].
  destruct (chain_b_lookup b x) as [Hx|Hx]; rewrite Hx in Hj.
  - by apply elem_of_nil in Hj.
  - by apply chain_b_index_spec.
Qed.

Lemma longest_row_matches (a b : list E) i blo bhi j2len idxs newj2len best :
  (∀ j, j ∈ idxs → ∃ x, a !! i = Some x ∧ b !! j = Some x) →
  j2len_matches a b i j2len →
  j2len_matches a b (S i) newj2len →
  block_matches a b best →
  j2len_matches a b (S i) (longest_row i blo bhi j2len idxs newj2len best).1
  ∧ block_matches a b (longest_row i blo bhi j2len idxs newj2len best).2.
Proof.
  intros Hidxs Hj2len. revert newj2len best Hidxs.
  induction idxs as [|j idxs IH]; intros newj2len best Hidxs Hnew Hbest; [done|].
  assert (Hrest : ∀ j', j' ∈ idxs → ∃ x, a !! i = Some x ∧ b !! j' = Some x).
  { intros j' Hj'. apply Hidxs, elem_of_cons. by right. }
  cbn [longest_row]. case_bool_decide as Hlo; [by apply IH|].
  case_bool_decide as Hhi; [done|].
  destruct (Hidxs j) as (x & Hai & Hbj); [apply elem_of_cons; by left|].
  assert (Hk : j2lenget j2len (Z.of_nat j - 1) 0 + 1 ≤ S i
               ∧ j2lenget j2len (Z.of_nat j - 1) 0 + 1 ≤ j + 1
               ∧ block_matches a b
                   (i + 1 - (j2lenget j2len (Z.of_nat j - 1) 0 + 1),
                    j + 1 - (j2lenget j2len (Z.of_nat j - 1) 0 + 1),
                    j2lenget j2len (Z.of_nat j - 1) 0 + 1)).
  { unfold j2lenget. destruct (j2len !! _) as [v|] eqn:Hv; cbn [default from_option id].
    - destruct (Hj2len _ _ Hv) as (j' & Hj' & Hvi & Hvj & Hmatch).
      unfold block_matches in Hmatch. cbn [fst snd] in Hmatch.
      split_and!; [lia..|]. intros t Ht. cbn [fst snd] in *.
      destruct (decide (t < v)) as [Hlt|Hge].
      + destruct (Hmatch t Hlt) as (y & Hya & Hyb). exists y.
        cbn [fst snd] in *. split.
        * by replace (i + 1 - (v + 1) + t) with (i - v + t) by lia.
        * by replace (j + 1 - (v + 1) + t) with (j' + 1 - v + t) by lia.
      + exists x. split.
        * by replace (i + 1 - (v + 1) + t) with i by lia.
        * by replace (j + 1 - (v + 1) + t) with j by lia.
    - split_and!; [lia..|]. intros t Ht. cbn [fst snd] in *. exists x. split.
      + by replace (i + 1 - (0 + 1) + t) with i by lia.
      + by replace (j + 1 - (0 + 1) + t) with j by lia. }
  destruct Hk as (Hrows & Hcols & Hmatch). apply IH; [done| |].
  - intros z v. destruct (decide (z = Z.of_nat j)) as [->|Hne].
    + rewrite lookup_insert_eq. intros [= <-]. exists j. split_and!; [done|lia..|].
      by replace (S i - (j2lenget j2len (Z.of_nat j - 1) 0 + 1))
        with (i + 1 - (j2lenget j2len (Z.of_nat j - 1) 0 + 1)) by lia.
    + rewrite lookup_insert_ne by done. apply Hnew.
  - by case_bool_decide.
Qed.

Lemma longest_rows_matches (a b : list E) alo ahi blo bhi :
  block_matches a b (longest_rows a b alo ahi blo bhi).2.
Proof.
  unfold longest_rows. cbn zeta.
  assert (Hrows : ∀ m st,
    st = foldl (λ '(j2len, best) i,
                 longest_row i blo bhi j2len
                   (default [] (a !! i ≫= (chain_b b !!.))) ∅ best)
              (∅, (alo, blo, 0)) (seq alo m) →
    j2len_matches a b (alo + m) st.1 ∧ block_matches a b st.2).
  { induction m as [|m IH]; intros st ->.
    - cbn. split; [by intros z v|]. intros t Ht. cbn in Ht. lia.
    - rewrite seq_S, foldl_app. cbn [foldl].
      destruct (foldl _ _ (seq alo m)) as [j2len best] eqn:Hfold.
      destruct (IH _ eq_refl) as [Hj2len Hbest]. cbn [fst snd] in *.
      replace (alo + S m) with (S (alo + m)) by lia.
      apply longest_row_matches; [apply b2j_indices|done|by intros z v|done]. }
  apply (Hrows (ahi - alo) _ eq_refl).
Qed.

Lemma item_eqb_true (x y : option E) :
  item_eqb x y = true → ∃ e, x = Some e ∧ y = Some e.
Proof.
  destruct x as [x|], y as [y|]; try done. cbn. intros ->%bool_decide_eq_true. eauto.
Qed.

Lemma extend_left_matches (a b : list E) alo blo besti bestj bestsize :
  block_matches a b (besti, bestj, bestsize) →
  block_matches a b (extend_left a b alo blo besti bestj bestsize).
Proof.
  revert bestj bestsize.
  induction besti as [|besti IH]; intros bestj bestsize Hbest; [done|].
  destruct bestj as [|bestj]; [done|]. cbn [extend_left].
  destruct (_ && _ && _) eqn:Hcond; [|done].
  apply andb_prop in Hcond as [_ (x & Ha & Hb)%item_eqb_true].
  unfold block_matches in Hbest. cbn [fst snd] in Hbest.
  apply IH. intros t Ht. cbn [fst snd] in *. destruct t as [|t].
  - exists x. by rewrite !Nat.add_0_r.
  - destruct (Hbest t ltac:(lia)) as (y & Hya & Hyb).
    exists y. split.
    + by replace (besti + S t) with (S besti + t) by lia.
    + by replace (bestj + S t) with (S bestj + t) by lia.
Qed.

Lemma extend_right_matches (a b : list E) n ahi bhi besti bestj bestsize :
  block_matches a b (besti, bestj, bestsize) →
  block_matches a b (besti, bestj, extend_right a b n ahi bhi besti bestj bestsize).
Proof.
  revert bestsize. induction n as [|n IH]; intros bestsize Hbest; [done|].
  cbn [extend_right]. destruct (_ && _ && _) eqn:Hcond; [|done].
  apply andb_prop in Hcond as [_ (x & Ha & Hb)%item_eqb_true].
  apply IH. intros t Ht. cbn [fst snd] in *.
  destruct (decide (t < bestsize)) as [Hlt|Hge]; [by apply Hbest|].
  assert (t = bestsize) as -> by lia. eauto.
Qed.

(** The match [find_longest_match] returns is one: its elements are equal
    one by one. *)
Lemma find_longest_match_matches (a b : list E) alo ahi blo bhi :
  block_matches a b (find_longest_match a b alo ahi blo bhi).
Proof.
  unfold find_longest_match.
  pose proof (longest_rows_matches a b alo ahi blo bhi) as Hrows.
  destruct (longest_rows a b alo ahi blo bhi).2 as [[besti bestj] bestsize].
  apply (extend_left_matches a b alo blo) in Hrows.
  destruct (extend_left a b alo blo besti bestj bestsize) as [[besti' bestj'] bestsize'].
  by apply extend_right_matches.
Qed.

Lemma blocks_loop_matches (a b : list E) fuel queue blocks :
  Forall (block_matches a b) blocks →
  Forall (block_matches a b) (blocks_loop a b fuel queue blocks).
Proof.
  revert queue blocks. induction fuel as [|fuel IH]; intros queue blocks Hblocks; [done|].
  cbn [blocks_loop]. destruct (list_pop queue) as [[[[[alo ahi] blo] bhi] queue']|]; [|done].
  pose proof (find_longest_match_matches a b alo ahi blo bhi) as Hbest.
  destruct (find_longest_match a b alo ahi blo bhi) as [[i j] k].
  case_bool_decide; [|by apply IH].
  apply IH, Forall_app. split; [done|]. by apply Forall_singleton.
Qed.

(** Every matching block is a match. *)
Lemma get_matching_blocks_matches (a b : list E) :
  Forall (block_matches a b) (get_matching_blocks a b).
Proof.
  unfold get_matching_blocks. cbn zeta.
  assert (Hsorted : Forall (block_matches a b)
            (merge_sort (λ x y, block_leb x y)
               (blocks_loop a b (2 * length a + 1) [(0, length a, 0, length b)] []))).
  { rewrite merge_sort_Permutation. by apply blocks_loop_matches. }
  set (inv := λ st : nat * nat * nat * list (nat * nat * nat),
         block_matches a b st.1 ∧ Forall (block_matches a b) st.2).
  assert (Hfold : inv (foldl collapse_step (0, 0, 0, [])
                         (merge_sort (λ x y, block_leb x y)
                            (blocks_loop a b (2 * length a + 1)
                               [(0, length a, 0, length b)] [])))).
  { apply foldl_invariant.
    - split; [|done]. intros t Ht. cbn in Ht. lia.
    - intros [[[i1 j1] k1] non_adjacent] [[i2 j2] k2] Hin [Hcur Hdone].
      apply (proj1 (Forall_forall _ _) Hsorted) in Hin.
      unfold inv, collapse_step in *. cbn [fst snd] in *.
      destruct (_ && _) eqn:Hadj.
      + apply andb_prop in Hadj as [<-%bool_decide_eq_true <-%bool_decide_eq_true].
        cbn [fst snd]. split; [|done]. intros t Ht. cbn [fst snd] in *.
        destruct (decide (t < k1)) as [Hlt|Hge]; [by apply Hcur|].
        unfold block_matches in Hin. cbn [fst snd] in Hin.
        destruct (Hin (t - k1) ltac:(lia)) as (x & Hxa & Hxb).
        exists x. split.
        * by replace (i1 + t) with (i1 + k1 + (t - k1)) by lia.
        * by replace (j1 + t) with (j1 + k1 + (t - k1)) by lia.
      + cbn [fst snd]. split; [done|]. destruct (bool_decide (k1 ≠ 0)); [|done].
        apply Forall_app. split; [done|]. by apply Forall_singleton. }
  destruct (foldl collapse_step _ _) as [[[i1 j1] k1] non_adjacent].
  destruct Hfold as [Hcur Hdone]. cbn [fst snd] in *.
  apply Forall_app. split.
  - case_bool_decide; [|done]. apply Forall_app. split; [done|]. by apply Forall_singleton.
  - apply Forall_singleton. intros t Ht. cbn in Ht. lia.
Qed.

Lemma get_matching_blocks_last (a b : list E) :
  ∃ blocks, get_matching_blocks a b = blocks ++ [(length a, length b, 0)].
Proof.
  unfold get_matching_blocks. cbn zeta.
  destruct (foldl collapse_step _ _) as [[[i1 j1] k1] non_adjacent]. eauto.
Qed.

(** The opcodes say the truth about their ranges. *)
Lemma get_opcodes_sound (a b : list E) :
  Forall (opcode_sound a b) (get_opcodes a b).
Proof.
  unfold get_opcodes.
  apply (foldl_invariant
           (λ st : nat * nat * list (tag * nat * nat * nat * nat),
              Forall (opcode_sound a b) st.2)); [done|].
  intros [[i j] answer] [[ai bj] size] Hin Hsound.
  apply (proj1 (Forall_forall _ _) (get_matching_blocks_matches a b)) in Hin.
  cbn [fst snd opcodes_step] in *.
  assert (Hfirst : Forall (opcode_sound a b)
            match (if bool_decide (i < ai) && bool_decide (j < bj) then Some Replace
                   else if bool_decide (i < ai) then Some Delete
                   else if bool_decide (j < bj) then Some Insert else None) with
            | Some tag => answer ++ [(tag, i, ai, j, bj)]
            | None => answer
            end).
  { destruct (decide (i < ai)) as [Hi|Hi], (decide (j < bj)) as [Hj|Hj];
      rewrite ?(bool_decide_eq_true_2 (i < ai)), ?(bool_decide_eq_false_2 (i < ai)),
        ?(bool_decide_eq_true_2 (j < bj)), ?(bool_decide_eq_false_2 (j < bj)) by done;
      cbn [andb]; [| | |done];
      (apply Forall_app; split; [done|]); apply Forall_singleton; cbn; lia. }
  destruct (bool_decide (size ≠ 0)); [|done].
  apply Forall_app. split; [done|]. apply Forall_singleton. cbn.
  split; [lia|]. by replace (bj + size - bj) with size by lia.
Qed.

End Matches.

(** An identical pair the search of [_fancy_replace] synchs on is a pair of
    equal lines. *)
Lemma synch_point_identical (a : list str) alo ahi (b : list str) blo bhi best_i best_j :
  synch_point (search a alo ahi b blo bhi) = Some (best_i, best_j, true) →
  a !!! best_i = b !!! best_j.
Proof.
  assert (Hsearch :
    (λ st : option (Q * nat * nat) * option (nat * nat),
       ∀ i j, st.2 = Some (i, j) → a !!! i = b !!! j)
      (search a alo ahi b blo bhi)).
  { unfold search. apply foldl_invariant; [done|].
    intros st j _ Hst. apply foldl_invariant; [done|].
    clear st Hst. intros [best eqs] i _ Heqs.
    unfold search_step. cbn [fst snd] in *.
    case_bool_decide as Heq.
    - destruct eqs; [done|]. by intros i' j' [= <- <-].
    - by destruct (_ && _ && _). }
  destruct (search a alo ahi b blo bhi) as [best eqs].
  unfold synch_point. cbn [fst snd] in *. destruct (Qltb _ _).
  - destruct eqs as [[eqi eqj]|]; [|done]. intros [= <- <-]. by apply Hsearch.
  - by destruct best as [[[r i] j]|].
Qed.

(** ** The matching blocks are in order *)

Lemma StronglySorted_symmetric_perm {A} (R : relation A) (l l' : list A) :
  Symmetric R → l ≡ₚ l' → StronglySorted R l → StronglySorted R l'.
Proof.
  intros Hsym. induction 1 as [|x l l' Hperm IH|x y l|l l' l'' _ IH1 _ IH2]; [done|..].
  - rewrite !StronglySorted_cons. intros [Hx Hl]. split; [by rewrite <- Hperm|by apply IH].
  - rewrite !StronglySorted_cons, !Forall_cons. intros ((Hyx & Hy) & Hx & Hl).
    by split_and!.
  - auto.
Qed.

Lemma ranges_apart_symmetric : Symmetric ranges_apart.
Proof. intros x y [?|?]; [by right|by left]. Qed.

Lemma ranges_apart_inside x alo ahi blo bhi alo' ahi' blo' bhi' :
  ranges_apart x (alo, ahi, blo, bhi) →
  alo ≤ alo' → ahi' ≤ ahi → blo ≤ blo' → bhi' ≤ bhi →
  ranges_apart x (alo', ahi', blo', bhi').
Proof.
  destruct x as [[[xalo xahi] xblo] xbhi]. unfold ranges_apart, range_before. lia.
Qed.

Lemma block_leb_fst (x y : nat * nat * nat) : block_leb x y → x.1.1 ≤ y.1.1.
Proof.
  destruct x as [[i1 j1] k1], y as [[i2 j2] k2]. unfold block_leb.
  repeat case_bool_decide; cbn; intros; first [done | lia].
Qed.

Lemma block_leb_transitive :
  Transitive (λ x y : nat * nat * nat, Is_true (block_leb x y)).
Proof.
  intros [[i1 j1] k1] [[i2 j2] k2] [[i3 j3] k3]. unfold block_leb.
  repeat case_bool_decide; cbn; intros; first [done | lia].
Qed.

Lemma block_leb_total :
  Total (λ x y : nat * nat * nat, Is_true (block_leb x y)).
Proof.
  intros [[i1 j1] k1] [[i2 j2] k2]. unfold block_leb.
  repeat case_bool_decide; cbn; first [by left | by right | lia].
Qed.

(** Matches that lie apart from one another and are sorted as
    [matching_blocks.sort()] leaves them follow one another in both
    sequences. *)
Lemma sorted_blocks_before (blocks : list (nat * nat * nat)) :
  StronglySorted (λ x y, Is_true (block_leb x y)) blocks →
  StronglySorted ranges_apart (block_range <$> blocks) →
  Forall (λ blk, blk.2 ≠ 0) blocks →
  StronglySorted block_before blocks.
Proof.
  induction blocks as [|x blocks IH]; [constructor|].
  rewrite fmap_cons, !StronglySorted_cons, Forall_cons.
  intros [Hleb Hsorted] [Hapart Hrest] [Hx Hnz].
  split; [|by apply IH].
  apply Forall_forall. intros y Hy.
  pose proof (proj1 (Forall_forall _ _) Hleb y Hy) as Hxy.
  pose proof (proj1 (Forall_forall _ _) Hapart (block_range y)
                (list_elem_of_fmap_2 _ _ _ Hy)) as Hap.
  pose proof (proj1 (Forall_forall _ _) Hnz y Hy) as Hky.
  apply block_leb_fst in Hxy.
  destruct x as [[i1 j1] k1], y as [[i2 j2] k2].
  unfold block_before, ranges_apart, range_before, block_range in *.
  cbn [fst snd] in *. lia.
Qed.

Section Ordered.

Context `{Countable E}.

Lemma blocks_loop_nonzero (a b : list E) fuel queue blocks :
  Forall (λ blk, blk.2 ≠ 0) blocks →
  Forall (λ blk, blk.2 ≠ 0) (blocks_loop a b fuel queue blocks).
Proof.
  revert queue blocks. induction fuel as [|fuel IH]; intros queue blocks Hblocks; [done|].
  cbn [blocks_loop]. destruct (list_pop queue) as [[[[[alo ahi] blo] bhi] queue']|]; [|done].
  destruct (find_longest_match a b alo ahi blo bhi) as [[i j] k].
  case_bool_decide; [|by apply IH].
  apply IH, Forall_app. split; [done|]. by apply Forall_singleton.
Qed.

(** The matches found and the ranges still to search lie apart from one
    another. *)
Lemma blocks_loop_apart (a b : list E) fuel queue blocks :
  queue_wf queue →
  StronglySorted ranges_apart ((block_range <$> blocks) ++ queue) →
  StronglySorted ranges_apart (block_range <$> blocks_loop a b fuel queue blocks).
Proof.
  revert queue blocks. induction fuel as [|fuel IH]; intros queue blocks Hwf Hsorted.
  { by apply StronglySorted_app_1_l in Hsorted. }
  destruct queue as [|[[[alo ahi] blo] bhi] queue _] using rev_ind.
  { cbn. by rewrite app_nil_r in Hsorted. }
  cbn [blocks_loop]. rewrite list_pop_snoc.
  apply Forall_app in Hwf as [Hwf [[Ha Hb] _]%Forall_cons].
  pose proof (find_longest_match_bounds a b alo ahi blo bhi Ha Hb) as Hbest.
  destruct (find_longest_match a b alo ahi blo bhi) as [[i j] k].
  unfold best_bounds in Hbest. cbn [fst snd] in Hbest.
  rewrite app_assoc in Hsorted.
  apply StronglySorted_app in Hsorted as (Hcross & Hrest & _).
  case_bool_decide as Hk; [|by apply IH].
  set (before := if bool_decide (alo < i) && bool_decide (blo < j)
                 then [(alo, i, blo, j)] else []).
  set (after := if bool_decide (i + k < ahi) && bool_decide (j + k < bhi)
                then [(i + k, ahi, j + k, bhi)] else []).
  assert (Hqueue :
    (if bool_decide (i + k < ahi) && bool_decide (j + k < bhi)
     then (if bool_decide (alo < i) && bool_decide (blo < j)
           then queue ++ [(alo, i, blo, j)] else queue) ++ [(i + k, ahi, j + k, bhi)]
     else if bool_decide (alo < i) && bool_decide (blo < j)
          then queue ++ [(alo, i, blo, j)] else queue)
    = queue ++ before ++ after).
  { subst before after. destruct (_ && _), (_ && _); by rewrite <- ?app_assoc, ?app_nil_r. }
  rewrite Hqueue. clear Hqueue.
  assert (Hinside : ∀ y, y ∈ [(i, i + k, j, j + k)] ++ before ++ after →
            ∃ alo' ahi' blo' bhi', y = (alo', ahi', blo', bhi')
              ∧ alo ≤ alo' ∧ ahi' ≤ ahi ∧ blo ≤ blo' ∧ bhi' ≤ bhi).
  { intros y. subst before after. rewrite !elem_of_app, list_elem_of_singleton.
    intros [->|[Hy|Hy]].
    - eexists _, _, _, _. split; [done|lia].
    - destruct (_ && _); [|by apply elem_of_nil in Hy].
      apply list_elem_of_singleton in Hy as ->. eexists _, _, _, _. split; [done|lia].
    - destruct (_ && _); [|by apply elem_of_nil in Hy].
      apply list_elem_of_singleton in Hy as ->. eexists _, _, _, _. split; [done|lia]. }
  apply IH.
  - unfold queue_wf. rewrite !Forall_app. split; [done|]. clear Hinside.
    subst before after. split.
    + destruct (bool_decide (alo < i) && _) eqn:Hc; [|done].
      apply andb_prop in Hc as [?%bool_decide_eq_true ?%bool_decide_eq_true].
      apply Forall_singleton. lia.
    + destruct (bool_decide (i + k < ahi) && _) eqn:Hc; [|done].
      apply andb_prop in Hc as [?%bool_decide_eq_true ?%bool_decide_eq_true].
      apply Forall_singleton. lia.
  - apply (StronglySorted_symmetric_perm _
             (((block_range <$> blocks) ++ queue)
              ++ [(i, i + k, j, j + k)] ++ before ++ after));
      [apply ranges_apart_symmetric| |].
    + rewrite fmap_app. cbn [fmap list_fmap block_range].
      rewrite <- !app_assoc. f_equiv. rewrite !app_assoc. f_equiv. f_equiv.
      apply Permutation_app_comm.
    + apply StronglySorted_app_2; [|done|].
      * intros x y Hx Hy.
        destruct (Hinside y Hy) as (alo' & ahi' & blo' & bhi' & -> & ? & ? & ? & ?).
        eapply ranges_apart_inside; [|done..].
        apply Hcross; [done|]. by apply list_elem_of_singleton.
      * subst before after. unfold ranges_apart, range_before.
        destruct (_ && _), (_ && _); cbn [app];
          rewrite ?StronglySorted_cons, ?Forall_cons;
          split_and?; try apply Forall_nil_2; try apply SSorted_nil; lia.
Qed.

(** The matching blocks follow one another, in [a] and in [b]. *)
Lemma get_matching_blocks_sorted (a b : list E) :
  StronglySorted block_before (get_matching_blocks a b).
Proof.
  pose proof (get_matching_blocks_bounds a b) as Hbounds.
  unfold get_matching_blocks in *. cbn zeta in *.
  set (found := blocks_loop a b (2 * length a + 1) [(0, length a, 0, length b)] []) in *.
  assert (Hsorted : StronglySorted block_before
                      (merge_sort (λ x y, block_leb x y) found)).
  { apply sorted_blocks_before.
    - apply StronglySorted_merge_sort; [apply block_leb_transitive|apply block_leb_total].
    - apply (StronglySorted_symmetric_perm _ (block_range <$> found));
        [apply ranges_apart_symmetric|by rewrite merge_sort_Permutation|].
      apply blocks_loop_apart; [apply Forall_singleton; lia|].
      cbn. apply SSorted_cons; [apply SSorted_nil|apply Forall_nil_2].
    - rewrite merge_sort_Permutation. by apply blocks_loop_nonzero. }
  assert (Hcollapse : ∀ blocks cur non_adjacent,
    StronglySorted block_before blocks →
    Forall (block_before cur) blocks →
    StronglySorted block_before (non_adjacent ++ [cur]) →
    StronglySorted block_before
      ((foldl collapse_step (cur, non_adjacent) blocks).2
       ++ [(foldl collapse_step (cur, non_adjacent) blocks).1])).
  { clear. induction blocks as [|blk blocks IH]; intros cur non_adjacent; [done|].
    rewrite StronglySorted_cons, Forall_cons. intros [Hblk Hblocks] [Hcur Hrest] Hdone.
    apply StronglySorted_app in Hdone as (Hcross & Hna & _).
    cbn [foldl]. destruct cur as [[i1 j1] k1], blk as [[i2 j2] k2].
    cbn [collapse_step]. destruct (_ && _) eqn:Hadj.
    - apply andb_prop in Hadj as [<-%bool_decide_eq_true <-%bool_decide_eq_true].
      apply IH; [done| |].
      + eapply Forall_impl; [exact Hblk|]. intros [[i3 j3] k3].
        unfold block_before, range_before, block_range. lia.
      + apply StronglySorted_app_2; [|done|repeat constructor].
        intros x y Hx ->%list_elem_of_singleton.
        specialize (Hcross x _ Hx ltac:(by apply list_elem_of_singleton)).
        destruct x as [[i0 j0] k0].
        unfold block_before, range_before, block_range in *. lia.
    - apply IH; [done..|].
      assert (Hbefore : ∀ x, x ∈ non_adjacent → block_before x (i2, j2, k2)).
      { intros x Hx.
        specialize (Hcross x _ Hx ltac:(by apply list_elem_of_singleton)).
        destruct x as [[i0 j0] k0].
        unfold block_before, range_before, block_range in *. lia. }
      apply StronglySorted_app_2; [| |repeat constructor].
      + intros x y Hx ->%list_elem_of_singleton.
        destruct (bool_decide (k1 ≠ 0)); [|by apply Hbefore].
        apply elem_of_app in Hx as [Hx| ->%list_elem_of_singleton]; [by apply Hbefore|done].
      + destruct (bool_decide (k1 ≠ 0)); [|done].
        apply StronglySorted_app_2; [|done|repeat constructor].
        intros x y Hx Hy. by apply Hcross. }
  specialize (Hcollapse _ (0, 0, 0) [] Hsorted).
  destruct (foldl collapse_step _ _) as [[[i1 j1] k1] non_adjacent].
  cbn [fst snd] in Hcollapse.
  apply StronglySorted_app_2.
  - intros x y Hx ->%list_elem_of_singleton.
    apply Forall_app in Hbounds as [Hbounds _].
    apply (proj1 (Forall_forall _ _) Hbounds) in Hx.
    destruct x as [[i0 j0] k0].
    unfold best_bounds, block_before, range_before, block_range in *.
    cbn [fst snd] in *. lia.
  - assert (Hall : StronglySorted block_before (non_adjacent ++ [(i1, j1, k1)])).
    { apply Hcollapse; [|repeat constructor].
      apply Forall_forall. intros [[i0 j0] k0] _.
      unfold block_before, range_before, block_range. lia. }
    case_bool_decide; [done|]. by apply StronglySorted_app_1_l in Hall.
  - repeat constructor.
Qed.

End Ordered.

(** ** A delta holds its two sequences *)

Lemma range_items_app `{Inhabited A} (x : list A) lo mid hi :
  lo ≤ mid → mid ≤ hi →
  range_items x lo mid ++ range_items x mid hi = range_items x lo hi.
Proof.
  intros Hlo Hhi. unfold range_items. rewrite <- fmap_app. f_equal.
  replace (hi - lo) with ((mid - lo) + (hi - mid)) by lia.
  rewrite seq_app. by replace (lo + (mid - lo)) with mid by lia.
Qed.

Lemma range_items_empty `{Inhabited A} (x : list A) lo hi :
  hi ≤ lo → range_items x lo hi = [].
Proof. intros Hhi. unfold range_items. by replace (hi - lo) with 0 by lia. Qed.

Lemma range_items_one `{Inhabited A} (x : list A) lo :
  range_items x lo (lo + 1) = [x !!! lo].
Proof. unfold range_items. by replace (lo + 1 - lo) with 1 by lia. Qed.

Lemma range_items_all `{Inhabited A} (x : list A) : range_items x 0 (length x) = x.
Proof.
  unfold range_items. rewrite Nat.sub_0_r. apply list_eq. intros i.
  rewrite list_lookup_fmap. destruct (decide (i < length x)) as [Hlt|Hge].
  - rewrite lookup_seq_lt by done. cbn. symmetry.
    by apply list_lookup_lookup_total_lt.
  - rewrite lookup_seq_ge by lia. cbn. symmetry. apply lookup_ge_None_2. lia.
Qed.

Lemma block_matches_items `{Inhabited E} (a b : list E) i j k :
  block_matches a b (i, j, k) →
  range_items a i (i + k) = range_items b j (j + k).
Proof.
  intros Hmatch. unfold range_items.
  replace (i + k - i) with k by lia. replace (j + k - j) with k by lia.
  apply list_eq. intros t. rewrite !list_lookup_fmap.
  destruct (decide (t < k)) as [Hlt|Hge].
  - rewrite !lookup_seq_lt by done. cbn.
    destruct (Hmatch t Hlt) as (x & Ha & Hb). cbn [fst snd] in *.
    by rewrite (list_lookup_total_correct _ _ _ Ha), (list_lookup_total_correct _ _ _ Hb).
  - by rewrite !lookup_seq_ge by lia.
Qed.

Section Tiling.

Context `{Countable E, Inhabited E}.

(** The opcodes go through [a] and through [b] from one end to the other,
    leaving nothing out and taking nothing twice. *)
Lemma opcodes_tile (a b : list E) blocks i j answer :
  StronglySorted block_before blocks →
  Forall (λ blk, i ≤ blk.1.1 ∧ j ≤ blk.1.2) blocks →
  mjoin (opcode_a a <$> answer) = range_items a 0 i →
  mjoin (opcode_b b <$> answer) = range_items b 0 j →
  mjoin (opcode_a a <$> (foldl opcodes_step (i, j, answer) blocks).2)
    = range_items a 0 (foldl opcodes_step (i, j, answer) blocks).1.1
  ∧ mjoin (opcode_b b <$> (foldl opcodes_step (i, j, answer) blocks).2)
    = range_items b 0 (foldl opcodes_step (i, j, answer) blocks).1.2.
Proof.
  revert i j answer.
  induction blocks as [|[[ai bj] size] blocks IH]; intros i j answer; [done|].
  rewrite StronglySorted_cons, Forall_cons. cbn [fst snd].
  intros [Hblk Hsorted] [[Hi Hj] _] Ha Hb.
  cbn [foldl opcodes_step].
  set (first := match (if bool_decide (i < ai) && bool_decide (j < bj)
                       then Some Replace
                       else if bool_decide (i < ai) then Some Delete
                       else if bool_decide (j < bj) then Some Insert else None) with
                | Some tag => answer ++ [(tag, i, ai, j, bj)]
                | None => answer
                end).
  assert (Hfirst : mjoin (opcode_a a <$> first) = range_items a 0 ai
                   ∧ mjoin (opcode_b b <$> first) = range_items b 0 bj).
  { assert (Hop : ∀ tag,
      mjoin (opcode_a a <$> answer ++ [(tag, i, ai, j, bj)]) = range_items a 0 ai
      ∧ mjoin (opcode_b b <$> answer ++ [(tag, i, ai, j, bj)]) = range_items b 0 bj).
    { intros tag. rewrite !fmap_app, !join_app, Ha, Hb. cbn. rewrite !app_nil_r.
      by rewrite !range_items_app by lia. }
    subst first.
    destruct (bool_decide (i < ai)) eqn:Hlti, (bool_decide (j < bj)) eqn:Hltj;
      cbn [andb]; try apply Hop.
    apply bool_decide_eq_false in Hlti, Hltj.
    assert (ai = i) as -> by lia. by assert (bj = j) as -> by lia. }
  clearbody first. destruct Hfirst as [Hfa Hfb].
  apply IH; [done| | |].
  - eapply Forall_impl; [exact Hblk|]. intros [[i3 j3] k3].
    unfold block_before, range_before, block_range. cbn [fst snd]. lia.
  - case_bool_decide as Hsize.
    + rewrite fmap_app, join_app, Hfa. cbn. rewrite app_nil_r.
      apply range_items_app; lia.
    + by replace (ai + size) with ai by lia.
  - case_bool_decide as Hsize.
    + rewrite fmap_app, join_app, Hfb. cbn. rewrite app_nil_r.
      apply range_items_app; lia.
    + by replace (bj + size) with bj by lia.
Qed.

Lemma get_opcodes_tile (a b : list E) :
  mjoin (opcode_a a <$> get_opcodes a b) = a
  ∧ mjoin (opcode_b b <$> get_opcodes a b) = b.
Proof.
  unfold get_opcodes.
  destruct (opcodes_tile a b (get_matching_blocks a b) 0 0 []) as [Ha Hb];
    [apply get_matching_blocks_sorted| |done..|].
  { apply Forall_forall. intros blk _. lia. }
  rewrite Ha, Hb. destruct (get_matching_blocks_last a b) as [blocks ->].
  rewrite foldl_app. cbn [foldl].
  destruct (foldl opcodes_step _ blocks) as [[i j] answer].
  cbn [opcodes_step fst snd]. rewrite !Nat.add_0_r. split; apply range_items_all.
Qed.

End Tiling.

Lemma restore_lines_app (tag : str) (delta1 delta2 : list str) :
  restore_lines tag (delta1 ++ delta2)
  = restore_lines tag delta1 ++ restore_lines tag delta2.
Proof. unfold restore_lines. by rewrite filter_app, fmap_app. Qed.

Lemma restore_lines_join (tag : str) (deltas : list (list str)) :
  restore_lines tag (mjoin deltas) = mjoin (restore_lines tag <$> deltas).
Proof.
  induction deltas as [|delta deltas IH]; [done|].
  change (mjoin (delta :: deltas)) with (delta ++ mjoin deltas).
  rewrite restore_lines_app, IH. done.
Qed.

Lemma restore_lines_keep (tag : str) (t : char) (line : str) (delta : list str) :
  [t; SP] = lit "  " ∨ [t; SP] = tag →
  restore_lines tag ((t :: SP :: line) :: delta) = line :: restore_lines tag delta.
Proof. intros Ht. unfold restore_lines. by rewrite filter_cons_True. Qed.

Lemma restore_lines_skip (tag : str) (t : char) (line : str) (delta : list str) :
  [t; SP] ≠ lit "  " → [t; SP] ≠ tag →
  restore_lines tag ((t :: SP :: line) :: delta) = restore_lines tag delta.
Proof.
  intros Hsp Htag. unfold restore_lines. rewrite filter_cons_False; [done|].
  by intros [?|?].
Qed.

Lemma restore_dump_keep (tag : str) (t : char) (x : list str) lo hi :
  [t; SP] = lit "  " ∨ [t; SP] = tag →
  restore_lines tag (_dump t x lo hi) = range_items x lo hi.
Proof.
  intros Ht. unfold _dump, range_items.
  induction (seq lo (hi - lo)) as [|i l IH]; [done|].
  cbn [fmap list_fmap]. rewrite restore_lines_keep by done. by rewrite IH.
Qed.

Lemma restore_dump_skip (tag : str) (t : char) (x : list str) lo hi :
  [t; SP] ≠ lit "  " → [t; SP] ≠ tag →
  restore_lines tag (_dump t x lo hi) = [].
Proof.
  intros Hsp Htag. unfold _dump.
  induction (seq lo (hi - lo)) as [|i l IH]; [done|].
  cbn [fmap list_fmap]. by rewrite restore_lines_skip.
Qed.

Ltac tag_decide :=
  first [ by left | by right
        | let Heq := fresh in intros Heq; by vm_compute in Heq ].

Lemma restore_dumps (a b : list str) alo ahi blo bhi :
  restore_lines (lit "- ") (_dump MINUS a alo ahi) = range_items a alo ahi
  ∧ restore_lines (lit "+ ") (_dump MINUS a alo ahi) = []
  ∧ restore_lines (lit "- ") (_dump PLUS b blo bhi) = []
  ∧ restore_lines (lit "+ ") (_dump PLUS b blo bhi) = range_items b blo bhi
  ∧ restore_lines (lit "- ") (_dump SP a alo ahi) = range_items a alo ahi
  ∧ restore_lines (lit "+ ") (_dump SP a alo ahi) = range_items a alo ahi.
Proof.
  split_and!;
    first [apply restore_dump_keep; tag_decide | apply restore_dump_skip; tag_decide].
Qed.

Lemma restore_qformat (aline bline atags btags : str) :
  restore_lines (lit "- ") (_qformat aline bline atags btags) = [aline]
  ∧ restore_lines (lit "+ ") (_qformat aline bline atags btags) = [bline].
Proof.
  unfold _qformat. cbn zeta.
  generalize (rstrip (_keep_original_ws aline atags)).
  generalize (rstrip (_keep_original_ws bline btags)).
  intros btags' atags'. rewrite !restore_lines_app.
  change (lit "- " ++ aline) with (MINUS :: SP :: aline).
  change (lit "+ " ++ bline) with (PLUS :: SP :: bline).
  rewrite (restore_lines_keep (lit "- ") MINUS), (restore_lines_skip (lit "- ") PLUS),
    (restore_lines_skip (lit "+ ") MINUS), (restore_lines_keep (lit "+ ") PLUS)
    by tag_decide.
  assert (Hmarks : ∀ tag tags,
            [63%N; SP] ≠ tag →
            restore_lines tag
              match tags with [] => [] | _ :: _ => [lit "? " ++ tags ++ [LF]] end = []).
  { intros tag tags Htag. destruct tags as [|c tags]; [done|].
    change (lit "? " ++ (c :: tags) ++ [LF]) with (63%N :: SP :: (c :: tags) ++ [LF]).
    rewrite restore_lines_skip; [done|tag_decide|done]. }
  rewrite !Hmarks by tag_decide. done.
Qed.

(** What [_fancy_replace] yields, when it returns, holds the two ranges it
    is called for. *)
Lemma fancy_replace_restores depth (a b : list str) alo ahi blo bhi out :
  _fancy_replace depth a alo ahi b blo bhi = Ok out → alo ≤ ahi → blo ≤ bhi →
  restore_lines (lit "- ") out = range_items a alo ahi
  ∧ restore_lines (lit "+ ") out = range_items b blo bhi.
Proof.
  revert alo ahi blo bhi out.
  induction depth as [|depth IH]; intros alo ahi blo bhi out; [done|].
  cbn [_fancy_replace]. intros Hout Ha Hb. revert Hout.
  destruct (restore_dumps a b alo ahi blo bhi) as (Hma & Hmb & Hpa & Hpb & _).
  destruct (synch_point _) as [[[best_i best_j] identical]|] eqn:Hsynch.
  2: { intros [= <-]. unfold _plain_replace. case_bool_decide;
         rewrite !restore_lines_app, Hma, Hmb, Hpa, Hpb; by rewrite ?app_nil_r. }
  pose proof (synch_point_bounds _ _ _ _ _ _ _ _ _ Hsynch) as [Hi Hj].
  assert (Hhelper : ∀ alo' ahi' blo' bhi' out',
    (if bool_decide (alo' < ahi') then
       if bool_decide (blo' < bhi') then _fancy_replace depth a alo' ahi' b blo' bhi'
       else Ok (_dump MINUS a alo' ahi')
     else if bool_decide (blo' < bhi') then Ok (_dump PLUS b blo' bhi') else Ok [])
    = Ok out' →
    alo' ≤ ahi' → blo' ≤ bhi' →
    restore_lines (lit "- ") out' = range_items a alo' ahi'
    ∧ restore_lines (lit "+ ") out' = range_items b blo' bhi').
  { intros alo' ahi' blo' bhi' out' Hout' Ha' Hb'. revert Hout'.
    destruct (restore_dumps a b alo' ahi' blo' bhi') as (Hma' & Hmb' & Hpa' & Hpb' & _).
    destruct (decide (alo' < ahi')) as [Hlta|Hgea], (decide (blo' < bhi')) as [Hltb|Hgeb].
    - rewrite (bool_decide_eq_true_2 (alo' < ahi')), (bool_decide_eq_true_2 (blo' < bhi'))
        by done. intros Hout'. by apply IH.
    - rewrite (bool_decide_eq_true_2 (alo' < ahi')), (bool_decide_eq_false_2 (blo' < bhi'))
        by done. intros [= <-]. rewrite Hma', Hmb'.
      by rewrite (range_items_empty b) by lia.
    - rewrite (bool_decide_eq_false_2 (alo' < ahi')), (bool_decide_eq_true_2 (blo' < bhi'))
        by done. intros [= <-]. rewrite Hpa', Hpb'.
      by rewrite (range_items_empty a) by lia.
    - rewrite (bool_decide_eq_false_2 (alo' < ahi')), (bool_decide_eq_false_2 (blo' < bhi'))
        by done. intros [= <-].
      by rewrite (range_items_empty a), (range_items_empty b) by lia. }
  set (synched := if identical then _ else _).
  assert (Hmid :
    restore_lines (lit "- ") synched = range_items a best_i (best_i + 1)
    ∧ restore_lines (lit "+ ") synched = range_items b best_j (best_j + 1)).
  { subst synched. rewrite !range_items_one. destruct identical.
    - apply synch_point_identical in Hsynch. rewrite <- Hsynch.
      change (lit "  " ++ a !!! best_i) with (SP :: SP :: a !!! best_i).
      by rewrite !restore_lines_keep by tag_decide.
    - destruct (foldl tags_step _ _) as [atags btags]. apply restore_qformat. }
  clearbody synched. destruct Hmid as [Hsa Hsb].
  destruct (if bool_decide (alo < best_i) then _ else _) as [before|] eqn:Hbefore; [|done].
  cbn [mbind result_bind].
  destruct (if bool_decide (best_i + 1 < ahi) then _ else _) as [after|] eqn:Hafter; [|done].
  cbn [mbind result_bind]. intros [= <-].
  destruct (Hhelper _ _ _ _ _ Hbefore) as [Hla Hlb]; [lia..|].
  destruct (Hhelper _ _ _ _ _ Hafter) as [Hra Hrb]; [lia..|].
  rewrite !restore_lines_app, Hla, Hlb, Hra, Hrb, Hsa, Hsb.
  by rewrite !range_items_app by lia.
Qed.

Lemma compare_group_restores depth (a b : list str) op g :
  opcode_sound a b op → compare_group depth a b op = Ok g →
  restore_lines (lit "- ") g = opcode_a a op
  ∧ restore_lines (lit "+ ") g = opcode_b b op.
Proof.
  destruct op as [[[[tag alo] ahi] blo] bhi]. cbn [opcode_sound opcode_a opcode_b].
  destruct (restore_dumps a b alo ahi blo bhi) as (Hma & Hmb & Hpa & Hpb & Hea & Heb).
  destruct tag; cbn [compare_group]; intros Hop.
  - intros Hg. apply (fancy_replace_restores _ _ _ _ _ _ _ _ Hg); lia.
  - intros [= <-]. rewrite Hma, Hmb. by rewrite (range_items_empty b) by lia.
  - intros [= <-]. rewrite Hpa, Hpb. by rewrite (range_items_empty a) by lia.
  - intros [= <-]. rewrite Hea, Heb. split; [done|]. destruct Hop as [Hlen Hmatch].
    assert (alo ≤ ahi ∧ blo ≤ bhi ∨ ahi ≤ alo ∧ bhi ≤ blo) as [[? ?]|[? ?]] by lia.
    + replace ahi with (alo + (bhi - blo)) by lia.
      replace bhi with (blo + (bhi - blo)) at 2 by lia.
      by apply block_matches_items.
    + by rewrite !range_items_empty by lia.
Qed.

Lemma compare_loop_restores depth (a b : list str) opcodes delta :
  Forall (opcode_sound a b) opcodes →
  compare_loop depth a b opcodes = Ok delta →
  restore_lines (lit "- ") delta = mjoin (opcode_a a <$> opcodes)
  ∧ restore_lines (lit "+ ") delta = mjoin (opcode_b b <$> opcodes).
Proof.
  intros Hsound. revert delta.
  induction Hsound as [|op opcodes Hop _ IH]; intros delta; [by intros [= <-]|].
  cbn [compare_loop].
  destruct (compare_group _ _ _ _) as [g|] eqn:Hg; [|done]. cbn [mbind result_bind].
  destruct (compare_loop _ _ _ _) as [rest|]; [|done]. cbn [mbind result_bind].
  intros [= <-].
  destruct (compare_group_restores _ _ _ _ _ Hop Hg) as [Hga Hgb].
  destruct (IH _ eq_refl) as [Ha Hb].
  by rewrite !restore_lines_app, Ha, Hb, Hga, Hgb.
Qed.

(** The lines of a delta marked ['  '] or ['- '] are the lines of [a], and
    its lines marked ['  '] or ['+ '] are the lines of [b], in their
    order. *)
Lemma compare_restores depth (a b : list str) delta :
  compare depth a b = Ok delta →
  restore_lines (lit "- ") delta = a ∧ restore_lines (lit "+ ") delta = b.
Proof.
  intros Hdelta.
  destruct (compare_loop_restores _ _ _ _ _ (get_opcodes_sound a b) Hdelta) as [-> ->].
  apply get_opcodes_tile.
Qed.

(** [compare] returns when the depth left is at least the length of [a]. *)
Lemma compare_returns depth (a b : list str) :
  length a ≤ depth → ∃ delta, compare depth a b = Ok delta.
Proof.
  intros Hdepth. apply compare_loop_returns, Forall_forall.
  intros [[[[tag alo] ahi] blo] bhi] Hop.
  pose proof (proj1 (Forall_forall _ _) (get_opcodes_sound a b) _ Hop) as Hsound.
  pose proof (proj1 (Forall_forall _ _) (get_opcodes_bounds a b) _ Hop) as [Hla Hlb].
  intros ->. cbn in Hsound. lia.
Qed.
(** * Further properties *)

(** ** The added lines and the lines kept *)

Lemma startswith_take (p s : str) : startswith p s = true ↔ take (length p) s = p.
Proof.
  revert s. induction p as [|x p IH]; intros s; [done|].
  destruct s as [|y s]; [done|]. cbn [startswith length take].
  rewrite andb_true_iff, bool_decide_eq_true, IH. split.
  - by intros [-> ->].
  - by intros [= -> ->].
Qed.

Lemma interleaved_filter {A} (P Q : A → Prop) `{∀ x, Decision (P x), ∀ x, Decision (Q x)}
    (l : list A) :
  (∀ x, P x → Q x → False) →
  interleaved (filter P l) (filter Q l) (filter (λ x, P x ∨ Q x) l).
Proof.
  intros Hdisjoint. induction l as [|x l IH]; [constructor|].
  destruct (decide (P x)) as [HP|HP], (decide (Q x)) as [HQ|HQ].
  - by destruct (Hdisjoint x).
  - rewrite (filter_cons_True P), (filter_cons_False Q),
      (filter_cons_True (λ x, P x ∨ Q x)) by auto. by constructor.
  - rewrite (filter_cons_False P), (filter_cons_True Q),
      (filter_cons_True (λ x, P x ∨ Q x)) by auto. by constructor.
  - rewrite (filter_cons_False P), (filter_cons_False Q),
      (filter_cons_False (λ x, P x ∨ Q x)) by (try done; by intros [?|?]). done.
Qed.

Lemma interleaved_fmap {A B} (f : A → B) (l1 l2 l : list A) :
  interleaved l1 l2 l → interleaved (f <$> l1) (f <$> l2) (f <$> l).
Proof. induction 1; cbn; by constructor. Qed.

Lemma interleaved_length {A} (l1 l2 l : list A) :
  interleaved l1 l2 l → length l = length l1 + length l2.
Proof. induction 1; cbn; lia. Qed.

Lemma filter_ext_elem {A} (P Q : A → Prop) `{∀ x, Decision (P x), ∀ x, Decision (Q x)}
    (l : list A) :
  (∀ x, x ∈ l → P x ↔ Q x) → filter P l = filter Q l.
Proof.
  induction l as [|x l IH]; intros Hext; [done|].
  rewrite !filter_cons.
  assert (HPQ : P x ↔ Q x) by (apply Hext, elem_of_cons; by left).
  rewrite IH by (intros y Hy; apply Hext, elem_of_cons; by right).
  destruct (decide (P x)), (decide (Q x)); tauto.
Qed.

Lemma interleaved_sublist_r {A} (l1 l2 l : list A) :
  interleaved l1 l2 l → l2 `sublist_of` l.
Proof. induction 1; by constructor. Qed.

Lemma interleaved_sublist_l {A} (l1 l2 l : list A) :
  interleaved l1 l2 l → l1 `sublist_of` l.
Proof. induction 1; by constructor. Qed.

Lemma interleaved_elem {A} (l1 l2 l : list A) (x : A) :
  interleaved l1 l2 l → x ∈ l → x ∈ l1 ∨ x ∈ l2.
Proof.
  induction 1 as [|y l1 l2 l _ IH|y l1 l2 l _ IH]; [by intros ?%elem_of_nil|..];
    intros [->|Hx]%elem_of_cons; rewrite ?elem_of_cons; try tauto;
    destruct (IH Hx); tauto.
Qed.

(** When the added lines are computed they are the lines of a delta marked
    ['+ '], and the other lines of the content after are those marked
    ['  '], which are lines of the content before. *)
Lemma compute_added_lines_kept depth (before after added : list str) :
  compute_added_lines depth before after = Ok added →
  ∃ kept, kept `sublist_of` before ∧ interleaved kept added after.
Proof.
  unfold compute_added_lines.
  destruct (compare depth before after) as [delta|] eqn:Hdelta; [|done].
  cbn [mbind result_bind]. intros [= <-].
  destruct (compare_restores _ _ _ _ Hdelta) as [Ha Hb].
  exists (drop 2 <$> filter (λ line, take 2 line = lit "  ") delta).
  split.
  - rewrite <- Ha. unfold restore_lines. apply fmap_sublist.
    rewrite <- (list_filter_filter_l _
                  (λ line, take 2 line = lit "  " ∨ take 2 line = lit "- "))
      by (intros line ?; by left).
    apply sublist_filter.
  - rewrite <- Hb. unfold restore_lines.
    apply interleaved_fmap.
    rewrite (list_filter_iff (λ line, startswith (lit "+ ") line = true)
               (λ line, take 2 line = lit "+ ")) by (intros line; apply startswith_take).
    apply interleaved_filter. intros line ->. by vm_compute.
Qed.

Lemma compute_added_lines_new depth (before after added : list str) (line : str) :
  compute_added_lines depth before after = Ok added →
  line ∈ after → line ∉ before → line ∈ added.
Proof.
  intros (kept & Hkept & Hmerge)%compute_added_lines_kept Hafter Hbefore.
  destruct (interleaved_elem _ _ _ _ Hmerge Hafter) as [Hin|Hin]; [|done].
  destruct Hbefore. by eapply elem_of_sublist.
Qed.

Lemma compute_added_lines_returns depth (before after : list str) :
  length before ≤ depth → ∃ added, compute_added_lines depth before after = Ok added.
Proof.
  intros Hdepth. unfold compute_added_lines.
  destruct (compare_returns depth before after Hdepth) as [delta ->]. by eexists.
Qed.

Lemma compute_added_lines_raises depth (before after : list str) e :
  compute_added_lines depth before after = Raise e → e = RecursionError.
Proof.
  unfold compute_added_lines, compare.
  destruct (compare_loop _ _ _ _) as [delta|e'] eqn:Hdelta; [done|].
  cbn [mbind result_bind]. intros [= <-]. by eapply compare_loop_raises.
Qed.

Lemma compute_added_lines_deeper depth depth' (before after added : list str) :
  compute_added_lines depth before after = Ok added → depth ≤ depth' →
  compute_added_lines depth' before after = Ok added.
Proof.
  unfold compute_added_lines, compare. intros Hadded Hdepth.
  destruct (compare_loop depth _ _ _) as [delta|] eqn:Hdelta; [|done].
  by rewrite (compare_loop_deeper _ _ _ _ _ _ Hdelta Hdepth).
Qed.

Lemma interleaved_nil_l {A} (l2 l : list A) : interleaved [] l2 l → l2 = l.
Proof.
  revert l2. induction l as [|x l IH]; intros l2 Hmerge.
  - by inversion Hmerge.
  - inversion Hmerge as [| |y l1' l2' l' Hrest]; subst. f_equal. by apply IH.
Qed.

(** With enough depth left, what holds of the added lines whenever they
    are computed holds of lines that are computed. *)
Lemma compute_added_lines_enough depth (before after : list str) (P : list str → Prop) :
  (∀ added, compute_added_lines depth before after = Ok added → P added) →
  length before ≤ depth →
  ∃ added, compute_added_lines depth before after = Ok added ∧ P added.
Proof.
  intros HP Hdepth.
  destruct (compute_added_lines_returns depth before after Hdepth) as [added Hadded].
  exists added. split; [done|]. by apply HP.
Qed.

(** X5: the added lines computed are lines of the content after, in the
    order they have there, and none is reported more often than it is
    there; they are computed when the depth left to the differ is at least
    the number of lines of the content before. *)
Theorem added_lines_in_order (depth : nat) (before after : list str) :
  (∀ added, compute_added_lines depth before after = Ok added →
            added `sublist_of` after)
  ∧ (length before ≤ depth →
     ∃ added, compute_added_lines depth before after = Ok added
              ∧ added `sublist_of` after).
Proof.
  assert (Hin : ∀ added, compute_added_lines depth before after = Ok added →
                         added `sublist_of` after).
  { intros added (kept & _ & Hmerge)%compute_added_lines_kept.
    by eapply interleaved_sublist_r. }
  split; [done|]. by apply compute_added_lines_enough.
Qed.

Lemma added_lines_in_order_witness :
  [lit "b"] `sublist_of` [lit "b"; lit "a"]
  ∧ ∃ added, compute_added_lines 2 [lit "a"; lit "b"] [lit "b"; lit "a"] = Ok added
             ∧ added `sublist_of` [lit "b"; lit "a"].
Proof.
  split.
  - apply (proj1 (added_lines_in_order 900 [lit "a"; lit "b"] [lit "b"; lit "a"])).
    by vm_compute.
  - apply (proj2 (added_lines_in_order 2 [lit "a"; lit "b"] [lit "b"; lit "a"])).
    cbn. lia.
Defined.

(** X6: against an empty content after, no line is added, whatever the
    depth left to the differ. *)
Theorem added_lines_empty_after (depth : nat) (before : list str) :
  compute_added_lines depth before [] = Ok [].
Proof.
  assert (Hreturns : ∃ delta, compare depth before [] = Ok delta).
  { apply compare_loop_returns, Forall_forall.
    intros [[[[tag alo] ahi] blo] bhi] Hop.
    pose proof (proj1 (Forall_forall _ _) (get_opcodes_sound before []) _ Hop) as Hsound.
    pose proof (proj1 (Forall_forall _ _) (get_opcodes_bounds before []) _ Hop)
      as [_ Hlb].
    intros ->. cbn in Hsound, Hlb. lia. }
  destruct Hreturns as [delta Hdelta].
  destruct (compute_added_lines depth before []) as [added|e] eqn:Hadded.
  - destruct (compute_added_lines_kept _ _ _ _ Hadded) as (kept & _ & Hmerge).
    apply interleaved_sublist_r, sublist_nil_r in Hmerge. by subst.
  - unfold compute_added_lines in Hadded. by rewrite Hdelta in Hadded.
Qed.

(** X13: a line of the content after that is no line of the content
    before is among the added lines whenever they are computed, whatever
    else the two contents hold; they are computed when the depth left to
    the differ is at least the number of lines of the content before. *)
Theorem new_lines_are_added (depth : nat) (before after : list str) (line : str) :
  line ∈ after → line ∉ before →
  (∀ added, compute_added_lines depth before after = Ok added → line ∈ added)
  ∧ (length before ≤ depth →
     ∃ added, compute_added_lines depth before after = Ok added ∧ line ∈ added).
Proof.
  intros Hafter Hbefore.
  assert (Hin : ∀ added, compute_added_lines depth before after = Ok added →
                         line ∈ added).
  { intros added Hadded. by eapply compute_added_lines_new. }
  split; [done|]. by apply compute_added_lines_enough.
Qed.

Lemma new_lines_are_added_witness :
  lit "c" ∈ [lit "c"]
  ∧ ∃ added, compute_added_lines 2 [lit "a"; lit "b"] [lit "a"; lit "c"; lit "b"]
             = Ok added
             ∧ lit "c" ∈ added.
Proof.
  assert (Hafter : lit "c" ∈ [lit "a"; lit "c"; lit "b"]).
  { apply elem_of_cons. right. apply elem_of_cons. by left. }
  assert (Hbefore : lit "c" ∉ [lit "a"; lit "b"]).
  { intros Hin. apply elem_of_cons in Hin as [Hin|Hin]; [by vm_compute in Hin|].
    apply elem_of_cons in Hin as [Hin|Hin]; [by vm_compute in Hin|].
    by apply elem_of_nil in Hin. }
  split.
  - apply (proj1 (new_lines_are_added 900 [lit "a"; lit "b"]
                    [lit "a"; lit "c"; lit "b"] (lit "c") Hafter Hbefore)).
    by vm_compute.
  - apply (proj2 (new_lines_are_added 2 [lit "a"; lit "b"]
                    [lit "a"; lit "c"; lit "b"] (lit "c") Hafter Hbefore)).
    cbn. lia.
Defined.

(** X14: whenever the added lines are computed, the content after is made
    of them and of lines kept from the content before: the lines that are
    not reported as added are, in their order, lines that follow one
    another in the content before; the added lines are computed when the
    depth left to the differ is at least the number of lines of the content
    before. *)
Theorem added_lines_and_kept_lines (depth : nat) (before after : list str) :
  (∀ added, compute_added_lines depth before after = Ok added →
            ∃ kept, kept `sublist_of` before ∧ interleaved kept added after)
  ∧ (length before ≤ depth →
     ∃ added, compute_added_lines depth before after = Ok added
              ∧ ∃ kept, kept `sublist_of` before ∧ interleaved kept added after).
Proof.
  assert (Hin : ∀ added, compute_added_lines depth before after = Ok added →
                  ∃ kept, kept `sublist_of` before ∧ interleaved kept added after).
  { intros added. apply compute_added_lines_kept. }
  split; [done|].
  apply (compute_added_lines_enough depth before after
           (λ added, ∃ kept, kept `sublist_of` before ∧ interleaved kept added after) Hin).
Qed.

Lemma added_lines_and_kept_lines_witness :
  (∃ kept, kept `sublist_of` [lit "a"; lit "b"]
           ∧ interleaved kept [lit "c"] [lit "a"; lit "c"; lit "b"])
  ∧ ∃ added, compute_added_lines 2 [lit "a"; lit "b"] [lit "a"; lit "c"; lit "b"]
             = Ok added
             ∧ ∃ kept, kept `sublist_of` [lit "a"; lit "b"]
                       ∧ interleaved kept added [lit "a"; lit "c"; lit "b"].
Proof.
  split.
  - apply (proj1 (added_lines_and_kept_lines 900 [lit "a"; lit "b"]
                    [lit "a"; lit "c"; lit "b"])).
    by vm_compute.
  - apply (proj2 (added_lines_and_kept_lines 2 [lit "a"; lit "b"]
                    [lit "a"; lit "c"; lit "b"])).
    cbn. lia.
Defined.

(** X15: whenever the added lines are computed for a content that has
    grown by [n] lines, they are at least [n]; they are computed when the
    depth left to the differ is at least the number of lines of the content
    before. *)
Theorem added_lines_growth (depth : nat) (before after : list str) :
  (∀ added, compute_added_lines depth before after = Ok added →
            length after ≤ length before + length added)
  ∧ (length before ≤ depth →
     ∃ added, compute_added_lines depth before after = Ok added
              ∧ length after ≤ length before + length added).
Proof.
  assert (Hin : ∀ added, compute_added_lines depth before after = Ok added →
                         length after ≤ length before + length added).
  { intros added (kept & Hkept & Hmerge)%compute_added_lines_kept.
    apply interleaved_length in Hmerge. apply sublist_length in Hkept. lia. }
  split; [done|].
  apply (compute_added_lines_enough depth before after
           (λ added, length after ≤ length before + length added) Hin).
Qed.

Lemma added_lines_growth_witness :
  length [lit "a"; lit "c"; lit "b"] ≤ length [lit "a"; lit "b"] + length [lit "c"]
  ∧ ∃ added, compute_added_lines 2 [lit "a"; lit "b"] [lit "a"; lit "c"; lit "b"]
             = Ok added
             ∧ length [lit "a"; lit "c"; lit "b"]
               ≤ length [lit "a"; lit "b"] + length added.
Proof.
  split.
  - apply (proj1 (added_lines_growth 900 [lit "a"; lit "b"]
                    [lit "a"; lit "c"; lit "b"])).
    by vm_compute.
  - apply (proj2 (added_lines_growth 2 [lit "a"; lit "b"]
                    [lit "a"; lit "c"; lit "b"])).
    cbn. lia.
Defined.

(** X16: when the two contents have no line in common, the added lines are,
    whenever they are computed, all the lines of the content after, in
    their order; they are computed when the depth left to the differ is at
    least the number of lines of the content before. *)
Theorem added_lines_nothing_kept (depth : nat) (before after : list str) :
  (∀ line, line ∈ before → line ∉ after) →
  (∀ added, compute_added_lines depth before after = Ok added → added = after)
  ∧ (length before ≤ depth → compute_added_lines depth before after = Ok after).
Proof.
  intros Hdisjoint.
  assert (Hin : ∀ added, compute_added_lines depth before after = Ok added →
                         added = after).
  { intros added (kept & Hkept & Hmerge)%compute_added_lines_kept.
    assert (kept = []) as ->.
    { destruct kept as [|line kept]; [done|].
      destruct (Hdisjoint line).
      - eapply elem_of_sublist; [|exact Hkept]. apply elem_of_cons. by left.
      - eapply elem_of_sublist; [|by eapply interleaved_sublist_l].
        apply elem_of_cons. by left. }
    by eapply interleaved_nil_l. }
  split; [done|]. intros Hdepth.
  destruct (compute_added_lines_returns depth before after Hdepth) as [added Hadded].
  by rewrite Hadded, (Hin _ Hadded).
Qed.

Lemma added_lines_nothing_kept_witness :
  [lit "c"; lit "a2"; lit "d"] = [lit "c"; lit "a2"; lit "d"]
  ∧ compute_added_lines 2 [lit "a"; lit "b"] [lit "c"; lit "a2"; lit "d"]
    = Ok [lit "c"; lit "a2"; lit "d"].
Proof.
  assert (Hdisjoint : ∀ line : str,
            line ∈ [lit "a"; lit "b"] → line ∉ [lit "c"; lit "a2"; lit "d"]).
  { intros line Hline Hafter.
    apply elem_of_cons in Hline as [->|Hline];
      [|apply elem_of_cons in Hline as [->|Hline]; [|by apply elem_of_nil in Hline]];
      repeat (apply elem_of_cons in Hafter as [Hafter|Hafter]; [by vm_compute in Hafter|]);
      by apply elem_of_nil in Hafter. }
  split.
  - apply (proj1 (added_lines_nothing_kept 900 [lit "a"; lit "b"]
                    [lit "c"; lit "a2"; lit "d"] Hdisjoint)).
    by vm_compute.
  - apply (proj2 (added_lines_nothing_kept 2 [lit "a"; lit "b"]
                    [lit "c"; lit "a2"; lit "d"] Hdisjoint)).
    cbn. lia.
Defined.

(** X17: the differ nests its calls no deeper than the content before has
    lines: with that much depth left the added lines are computed. When
    they are not, the exception is [RecursionError] and the depth left is
    less than that; and more depth does not change the lines computed. *)
Theorem added_lines_recursion_limit (depth : nat) (before after : list str) :
  (length before ≤ depth →
   ∃ added, compute_added_lines depth before after = Ok added)
  ∧ (∀ e, compute_added_lines depth before after = Raise e →
          e = RecursionError ∧ depth < length before)
  ∧ (∀ depth' added,
       compute_added_lines depth before after = Ok added → depth ≤ depth' →
       compute_added_lines depth' before after = Ok added).
Proof.
  split_and!.
  - apply compute_added_lines_returns.
  - intros e He. split; [by eapply compute_added_lines_raises|].
    destruct (decide (length before ≤ depth)) as [Hdepth|Hdepth]; [|lia].
    destruct (compute_added_lines_returns _ _ after Hdepth) as [added Hadded].
    by rewrite Hadded in He.
  - intros depth' added. apply compute_added_lines_deeper.
Qed.

(** Two lines that are each rewritten into a similar line are synched one
    inside the other: with room for one call [RecursionError] is raised,
    with room for two the lines are computed. *)
Lemma added_lines_recursion_limit_witness :
  (∃ added, compute_added_lines 2 [lit "aaaa1"; lit "bbbb1"] [lit "aaaa2"; lit "bbbb2"]
            = Ok added)
  ∧ (RecursionError = RecursionError ∧ 1 < length [lit "aaaa1"; lit "bbbb1"])
  ∧ compute_added_lines 900 [lit "aaaa1"; lit "bbbb1"] [lit "aaaa2"; lit "bbbb2"]
    = Ok [lit "aaaa2"; lit "bbbb2"].
Proof.
  split; [|split].
  - apply (proj1 (added_lines_recursion_limit 2 _ _)). cbn. lia.
  - apply (proj1 (proj2 (added_lines_recursion_limit 1 [lit "aaaa1"; lit "bbbb1"]
                           [lit "aaaa2"; lit "bbbb2"]))).
    by vm_compute.
  - apply (proj2 (proj2 (added_lines_recursion_limit 2 [lit "aaaa1"; lit "bbbb1"]
                           [lit "aaaa2"; lit "bbbb2"]))); [by vm_compute|lia].
Defined.
(** ** The assembler: order, provenance and failures *)

Lemma classify_types get_file_content depth change_type file_path item lines :
  classify get_file_content depth change_type file_path item = Ok lines →
  lines ≠ [] →
  change_type = JStr (lit "add") ∨ change_type = JStr (lit "edit").
Proof.
  unfold classify.
  destruct (eq_str change_type (lit "add")) eqn:Hadd;
    [left; by apply eq_str_true|].
  destruct (eq_str change_type (lit "edit")) eqn:Hedit;
    [right; by apply eq_str_true|by intros [= <-]].
Qed.

Lemma change_step_from_change get_file_content depth files change files' :
  change_step get_file_content depth files change = Ok files' →
  files' = files
  ∨ ∃ file, files' = files ++ [file]
      ∧ from_change get_file_content depth change file ∧ added_lines file ≠ [].
Proof.
  unfold change_step. destruct change as [| | | | |d]; try done.
  cbn [as_dict mbind result_bind].
  destruct (dict_get_default (lit "item") (JDict []) d) as [| | | | |item] eqn:Hitem;
    try done.
  cbn [as_dict mbind result_bind].
  destruct (truthy _) eqn:Hfolder; [intros [= <-]; by left|].
  destruct (classify _ _ _ _ _) as [[|line lines]|] eqn:Hlines;
    cbn [mbind result_bind added_lines]; [intros [= <-]; by left| |done].
  intros [= <-].
  right. eexists. split; [done|]. split; [|done].
  exists d, item. by split_and!.
Qed.

Lemma changes_loop_sublist get_file_content depth changes files files' :
  changes_loop get_file_content depth changes files = Ok files' →
  ∃ kept new,
    files' = files ++ new
    ∧ kept `sublist_of` changes
    ∧ Forall2 (from_change get_file_content depth) kept new
    ∧ Forall (λ file, added_lines file ≠ []) new.
Proof.
  revert files. induction changes as [|change changes IH]; intros files.
  - intros [= <-]. exists [], []. by rewrite app_nil_r.
  - cbn [changes_loop].
    destruct (change_step _ _ files change) as [files1|] eqn:Hstep; [|done].
    cbn [mbind result_bind]. intros Hloop.
    destruct (IH _ Hloop) as (kept & new & -> & Hkept & Hnew & Hlines).
    destruct (change_step_from_change _ _ _ _ _ Hstep)
      as [->|(file & -> & Hfile & Hline)].
    + exists kept, new. split_and!; [done| |done..]. by apply sublist_cons.
    + exists (change :: kept), (file :: new).
      split_and!; [by rewrite <- app_assoc| | |].
      * by apply sublist_skip.
      * by constructor.
      * by constructor.
Qed.

Lemma from_change_types get_file_content depth kept new :
  Forall2 (from_change get_file_content depth) kept new →
  Forall (λ file, added_lines file ≠ []) new →
  Forall (λ file, changeType file = JStr (lit "add")
                  ∨ changeType file = JStr (lit "edit")) new.
Proof.
  induction 1 as [|change file kept new Hfile _ IH]; [done|].
  intros [Hline Hlines]%Forall_cons. constructor; [|by apply IH].
  destruct Hfile as (d & item & _ & _ & _ & _ & _ & Hadded).
  by eapply classify_types.
Qed.

(** X1: the files of a result stand, in the order of the changeset, for
    entries of it that are not folders; each has the path and the change
    type of its entry, which is [add] or [edit], and the added lines the
    classifier gives for it. *)
Theorem files_follow_changeset get_pull_request get_diffs get_file_content depth data :
  get_pr_added_lines_only get_pull_request get_diffs get_file_content depth
  = Ok (Some data) →
  ∃ diff_data changes kept,
    get_pr_diff get_pull_request get_diffs = Ok (JDict diff_data)
    ∧ iterate (dict_get_default (lit "changes") (JList []) diff_data) = Ok changes
    ∧ kept `sublist_of` changes
    ∧ Forall2 (from_change get_file_content depth) kept (files data)
    ∧ Forall (λ file, changeType file = JStr (lit "add")
                      ∨ changeType file = JStr (lit "edit")) (files data).
Proof.
  unfold get_pr_added_lines_only.
  destruct (truthy get_pull_request); [|done]. cbn [negb].
  ok_bind diff_data Hdiff. destruct (truthy diff_data); [|done]. cbn [negb].
  ok_bind pr_data Hpr. ok_bind source Hsource. ok_bind target Htarget.
  ok_bind diff Hdict. ok_bind changes Hchanges.
  ok_bind files_with_additions Hloop.
  intros [= <-]. cbn [files].
  destruct diff_data; try done. injection Hdict as ->.
  destruct (changes_loop_sublist _ _ _ _ _ Hloop)
    as (kept & new & -> & Hkept & Hnew & Hlines).
  exists diff, changes, kept. split_and!; try done.
  by eapply from_change_types.
Qed.

Lemma files_follow_changeset_witness :
  ∃ diff_data changes kept,
    get_pr_diff Examples.pr_data (λ _ _, Examples.diff_edits) = Ok (JDict diff_data)
    ∧ iterate (dict_get_default (lit "changes") (JList []) diff_data) = Ok changes
    ∧ kept `sublist_of` changes
    ∧ Forall2 (from_change Examples.blobs 900) kept
        [{| AzureDevOpsClient.path := JStr (lit "/src/a.py");
            changeType := JStr (lit "edit");
            added_lines := [lit "x"] |}]
    ∧ Forall (λ file, changeType file = JStr (lit "add")
                      ∨ changeType file = JStr (lit "edit"))
        [{| AzureDevOpsClient.path := JStr (lit "/src/a.py");
            changeType := JStr (lit "edit");
            added_lines := [lit "x"] |}].
Proof.
  apply (files_follow_changeset Examples.pr_data (λ _ _, Examples.diff_edits)
           Examples.blobs 900
           {| files := [{| AzureDevOpsClient.path := JStr (lit "/src/a.py");
                           changeType := JStr (lit "edit");
                           added_lines := [lit "x"] |}];
              total := 1;
              source_branch := lit "feature";
              target_branch := lit "main" |}).
  vm_compute. reflexivity.
Defined.

Lemma classify_no_content depth change_type file_path item :
  classify (λ _ _, None) depth change_type file_path item = Ok [].
Proof.
  unfold classify.
  destruct (eq_str _ _); [by destruct (truthy _)|].
  destruct (eq_str _ _); [|done]. by destruct (truthy _ && truthy _).
Qed.

(** The classifier raises nothing but the [RecursionError] of the line
    differ, and returns when the depth left is at least the number of lines
    of any content. *)
Lemma classify_raises get_file_content depth change_type file_path item e :
  classify get_file_content depth change_type file_path item = Raise e →
  e = RecursionError.
Proof.
  unfold classify.
  destruct (eq_str _ _); [destruct (truthy _); [|done]; by destruct (has_content _)|].
  destruct (eq_str _ _); [|done].
  destruct (truthy _ && truthy _); [|done].
  destruct (has_content _ && has_content _); [|done].
  apply compute_added_lines_raises.
Qed.

Lemma classify_returns get_file_content depth change_type file_path item :
  (∀ file_path version content,
     get_file_content file_path version = Some content →
     length (splitlines content) ≤ depth) →
  ∃ lines, classify get_file_content depth change_type file_path item = Ok lines.
Proof.
  intros Hdepth. unfold classify.
  destruct (eq_str _ _);
    [destruct (truthy _); [|by eexists]; destruct (has_content _); by eexists|].
  destruct (eq_str _ _); [|by eexists].
  destruct (truthy _ && truthy _); [|by eexists].
  destruct (get_file_content file_path
              (default JNull (dict_get (lit "originalObjectId") item)))
    as [content_before|] eqn:Hbefore; [|by eexists].
  cbn [default from_option id].
  destruct (has_content _ && has_content _); [|by eexists].
  apply compute_added_lines_returns. by eapply Hdepth.
Qed.

Lemma changes_loop_readable get_file_content depth changes files :
  Forall readable_change changes →
  (∃ files', changes_loop get_file_content depth changes files = Ok files')
  ∨ changes_loop get_file_content depth changes files = Raise RecursionError.
Proof.
  intros Hchanges. revert files.
  induction Hchanges as [|change changes (d & item & -> & Hitem) _ IH]; intros files;
    [left; by exists files|].
  cbn [changes_loop]. unfold change_step. cbn [as_dict mbind result_bind].
  rewrite Hitem. cbn [as_dict mbind result_bind].
  destruct (truthy _); cbn [mbind result_bind]; [apply IH|].
  destruct (classify _ _ _ _ _) as [lines|e] eqn:Hlines; cbn [mbind result_bind].
  - destruct lines; cbn [mbind result_bind]; apply IH.
  - right. by rewrite (classify_raises _ _ _ _ _ _ Hlines).
Qed.

Lemma changes_loop_returns get_file_content depth changes files :
  Forall readable_change changes →
  (∀ file_path version content,
     get_file_content file_path version = Some content →
     length (splitlines content) ≤ depth) →
  ∃ files', changes_loop get_file_content depth changes files = Ok files'.
Proof.
  intros Hchanges Hdepth. revert files.
  induction Hchanges as [|change changes (d & item & -> & Hitem) _ IH]; intros files;
    [by exists files|].
  cbn [changes_loop]. unfold change_step. cbn [as_dict mbind result_bind].
  rewrite Hitem. cbn [as_dict mbind result_bind].
  destruct (truthy _); cbn [mbind result_bind]; [apply IH|].
  destruct (classify_returns get_file_content depth
              (default JNull (dict_get (lit "changeType") d))
              (default JNull (dict_get (lit "path") item)) item Hdepth) as [lines ->].
  destruct lines; cbn [mbind result_bind]; apply IH.
Qed.

Lemma changes_loop_no_content depth changes files :
  Forall readable_change changes →
  changes_loop (λ _ _, None) depth changes files = Ok files.
Proof.
  induction 1 as [|change changes (d & item & -> & Hitem) _ IH]; [done|].
  cbn [changes_loop]. unfold change_step. cbn [as_dict mbind result_bind].
  rewrite Hitem. cbn [as_dict mbind result_bind].
  rewrite classify_no_content. by destruct (truthy _).
Qed.

Lemma get_pr_added_lines_only_raises get_pull_request get_diffs get_file_content depth
    pr_data source target diff_data changes e :
  get_pull_request = JDict pr_data → pr_data ≠ [] →
  branch_name pr_data (lit "sourceRefName") = Ok source → source ≠ [] →
  branch_name pr_data (lit "targetRefName") = Ok target → target ≠ [] →
  get_diffs target source = JDict diff_data → diff_data ≠ [] →
  dict_get_default (lit "changes") (JList []) diff_data = JList changes →
  changes_loop get_file_content depth changes [] = Raise e →
  get_pr_added_lines_only get_pull_request get_diffs get_file_content depth = Raise e.
Proof.
  intros -> Hpr Hsource Hs Htarget Ht Hdiff Hd Hchanges Hloop.
  unfold get_pr_added_lines_only, get_pr_diff.
  destruct pr_data as [|kv pr_data]; [done|]. cbn [truthy negb as_dict mbind result_bind].
  rewrite Hsource, Htarget. cbn [mbind result_bind].
  destruct source as [|c source]; [done|]. destruct target as [|c' target]; [done|].
  rewrite Hdiff. destruct diff_data as [|kv' diff_data]; [done|].
  cbn [truthy negb as_dict mbind result_bind].
  rewrite Hchanges. cbn [iterate mbind result_bind]. by rewrite Hloop.
Qed.

(** X2: a fetch of a content that fails does not abort the run. When the
    pull request and its diff are fetched and every entry of the changeset
    is readable, then whatever the fetches of contents answer the assembler
    returns a result, or raises the [RecursionError] of the line differ and
    nothing else; it returns a result when the depth left is at least the
    number of lines of any content fetched; and when every fetch fails the
    result has no file and [total] 0. *)
Theorem content_failures_do_not_abort get_pull_request get_diffs depth
    pr_data source target diff_data changes :
  get_pull_request = JDict pr_data → pr_data ≠ [] →
  branch_name pr_data (lit "sourceRefName") = Ok source → source ≠ [] →
  branch_name pr_data (lit "targetRefName") = Ok target → target ≠ [] →
  get_diffs target source = JDict diff_data → diff_data ≠ [] →
  dict_get_default (lit "changes") (JList []) diff_data = JList changes →
  Forall readable_change changes →
  (∀ get_file_content,
     (∃ data, get_pr_added_lines_only get_pull_request get_diffs get_file_content depth
              = Ok (Some data))
     ∨ get_pr_added_lines_only get_pull_request get_diffs get_file_content depth
       = Raise RecursionError)
  ∧ (∀ get_file_content,
       (∀ file_path version content,
          get_file_content file_path version = Some content →
          length (splitlines content) ≤ depth) →
       ∃ data, get_pr_added_lines_only get_pull_request get_diffs get_file_content depth
               = Ok (Some data))
  ∧ get_pr_added_lines_only get_pull_request get_diffs (λ _ _, None) depth
    = Ok (Some {| files := []; total := 0;
                  source_branch := source; target_branch := target |}).
Proof.
  intros Hpr Hne Hsource Hs Htarget Ht Hdiff Hd Hchanges Hreadable. split_and!.
  - intros get_file_content.
    destruct (changes_loop_readable get_file_content depth changes [] Hreadable)
      as [[files Hloop]|Hloop].
    + left. eexists. by eapply get_pr_added_lines_only_returns.
    + right. by eapply get_pr_added_lines_only_raises.
  - intros get_file_content Hdepth.
    destruct (changes_loop_returns get_file_content depth changes [] Hreadable Hdepth)
      as [files Hloop].
    eexists. by eapply get_pr_added_lines_only_returns.
  - by apply (get_pr_added_lines_only_returns _ _ _ _ pr_data source target
                diff_data changes []); [..|apply changes_loop_no_content].
Qed.

Lemma content_failures_do_not_abort_witness :
  (∀ get_file_content,
     (∃ data, get_pr_added_lines_only Examples.pr_data (λ _ _, Examples.diff_edits)
                get_file_content 900 = Ok (Some data))
     ∨ get_pr_added_lines_only Examples.pr_data (λ _ _, Examples.diff_edits)
         get_file_content 900 = Raise RecursionError)
  ∧ (∀ get_file_content,
       (∀ file_path version content,
          get_file_content file_path version = Some content →
          length (splitlines content) ≤ 900) →
       ∃ data, get_pr_added_lines_only Examples.pr_data (λ _ _, Examples.diff_edits)
                 get_file_content 900 = Ok (Some data))
  ∧ get_pr_added_lines_only Examples.pr_data (λ _ _, Examples.diff_edits) (λ _ _, None) 900
    = Ok (Some {| files := []; total := 0;
                  source_branch := lit "feature"; target_branch := lit "main" |}).
Proof.
  eapply (content_failures_do_not_abort Examples.pr_data (λ _ _, Examples.diff_edits) 900);
    try reflexivity; try done.
  repeat constructor; eexists _, _; split; reflexivity.
Defined.

(** X3: when the pull request has no source or no target branch name, or
    one that is empty once ['refs/heads/'] is removed, no diff is requested
    and the assembler returns [None]. *)
Theorem no_branch_no_result get_pull_request get_diffs get_file_content depth
    pr_data source target :
  get_pull_request = JDict pr_data → pr_data ≠ [] →
  branch_name pr_data (lit "sourceRefName") = Ok source →
  branch_name pr_data (lit "targetRefName") = Ok target →
  source = [] ∨ target = [] →
  (∀ key, dict_get key pr_data = None → branch_name pr_data key = Ok [])
  ∧ get_pr_diff get_pull_request get_diffs = Ok JNull
  ∧ get_pr_added_lines_only get_pull_request get_diffs get_file_content depth = Ok None.
Proof.
  intros -> Hne Hsource Htarget Hempty.
  split; [intros key Hkey; unfold branch_name, dict_get_default; by rewrite Hkey|].
  assert (Hdiff : get_pr_diff (JDict pr_data) get_diffs = Ok JNull).
  { unfold get_pr_diff. destruct pr_data; [done|].
    cbn [truthy negb as_dict mbind result_bind]. rewrite Hsource, Htarget.
    cbn [mbind result_bind]. destruct Hempty as [-> | ->]; [done|by destruct source]. }
  split; [done|]. unfold get_pr_added_lines_only. rewrite Hdiff.
  by destruct pr_data.
Qed.

Lemma no_branch_no_result_witness :
  (∀ key, dict_get key [(lit "targetRefName", JStr (lit "refs/heads/main"))] = None →
          branch_name [(lit "targetRefName", JStr (lit "refs/heads/main"))] key = Ok [])
  ∧ get_pr_diff (JDict [(lit "targetRefName", JStr (lit "refs/heads/main"))])
      (λ _ _, Examples.diff_edits) = Ok JNull
  ∧ get_pr_added_lines_only (JDict [(lit "targetRefName", JStr (lit "refs/heads/main"))])
      (λ _ _, Examples.diff_edits) Examples.blobs 900 = Ok None.
Proof.
  apply (no_branch_no_result _ _ _ _ [(lit "targetRefName", JStr (lit "refs/heads/main"))]
           [] (lit "main")); try reflexivity; [done|by left].
Defined.

(** ** Branch names *)

Lemma startswith_app (p s : str) : startswith p (p ++ s) = true.
Proof. induction p as [|c p IH]; [done|]. cbn. by rewrite bool_decide_eq_true_2, IH. Qed.

Lemma replace_from_skip (old new l s : str) :
  replace_from old new (length l) (l ++ s) = replace_from old new 0 s.
Proof. induction l as [|c l IH]; [by destruct s|]. apply IH. Qed.

Lemma replace_from_no_occurrence (old new s : str) :
  (∀ i, startswith old (drop i s) = false) →
  replace_from old new 0 s = s.
Proof.
  induction s as [|c s IH]; intros Hocc; [done|].
  cbn [replace_from]. pose proof (Hocc 0) as Hhere. cbn [drop] in Hhere.
  rewrite Hhere. f_equal. apply IH.
  intros i. apply (Hocc (S i)).
Qed.

(** X4: a ref ['refs/heads/NAME'] gives the branch name [NAME], when [NAME]
    does not itself contain ['refs/heads/']; a ref without ['refs/heads/']
    is the branch name as it is. *)
Theorem branch_name_of_ref pr_data key name :
  (∀ i, startswith (lit "refs/heads/") (drop i name) = false) →
  (dict_get key pr_data = Some (JStr (lit "refs/heads/" ++ name)) →
   branch_name pr_data key = Ok name)
  ∧ (dict_get key pr_data = Some (JStr name) → branch_name pr_data key = Ok name).
Proof.
  intros Hocc. unfold branch_name, dict_get_default, replace. split; intros ->;
    cbn [default from_option id]; f_equal.
  - change (lit "refs/heads/") with (114%N :: lit "efs/heads/") at 2.
    cbn [app replace_from].
    change (114%N :: lit "efs/heads/" ++ name) with (lit "refs/heads/" ++ name).
    rewrite startswith_app. cbn [app].
    change (length (lit "refs/heads/") - 1) with (length (lit "efs/heads/")).
    rewrite replace_from_skip. by apply replace_from_no_occurrence.
  - by apply replace_from_no_occurrence.
Qed.

Lemma branch_name_of_ref_witness :
  branch_name [(lit "sourceRefName", JStr (lit "refs/heads/" ++ lit "feature/x"))]
    (lit "sourceRefName") = Ok (lit "feature/x")
  ∧ branch_name [(lit "sourceRefName", JStr (lit "feature/x"))]
      (lit "sourceRefName") = Ok (lit "feature/x").
Proof.
  assert (Hocc : ∀ i, startswith (lit "refs/heads/") (drop i (lit "feature/x")) = false).
  { intros i. do 10 (destruct i as [|i]; [reflexivity|]). by rewrite drop_ge by (cbn; lia). }
  split.
  - by apply (proj1 (branch_name_of_ref _ _ _ Hocc)).
  - by apply (proj2 (branch_name_of_ref _ _ _ Hocc)).
Defined.

(** ** The assembler leaves no file with added lines out *)

Lemma change_step_listed get_file_content depth files change files' file :
  change_step get_file_content depth files change = Ok files' →
  from_change get_file_content depth change file → added_lines file ≠ [] →
  files' = files ++ [file].
Proof.
  intros Hstep (d & item & -> & Hitem & Hfolder & Hpath & Htype & Hlines) Hne.
  unfold change_step in Hstep. cbn [as_dict mbind result_bind] in Hstep.
  rewrite Hitem in Hstep. cbn [as_dict mbind result_bind] in Hstep.
  rewrite Hfolder in Hstep.
  rewrite <- Hpath, <- Htype, Hlines in Hstep.
  cbn [mbind result_bind added_lines] in Hstep.
  destruct file as [p t l]. cbn [AzureDevOpsClient.path changeType added_lines] in *.
  destruct l; [done|]. by injection Hstep as <-.
Qed.

Lemma changes_loop_listed get_file_content depth changes files files' change file :
  changes_loop get_file_content depth changes files = Ok files' →
  change ∈ changes → from_change get_file_content depth change file →
  added_lines file ≠ [] →
  file ∈ files'.
Proof.
  revert files. induction changes as [|c changes IH]; intros files Hloop Hin Hfile Hne;
    [by apply elem_of_nil in Hin|].
  cbn [changes_loop] in Hloop.
  destruct (change_step _ _ files c) as [files1|] eqn:Hstep; [|done].
  cbn [mbind result_bind] in Hloop.
  apply elem_of_cons in Hin as [->|Hin]; [|by eapply IH].
  rewrite (change_step_listed _ _ _ _ _ _ Hstep Hfile Hne) in Hloop.
  destruct (changes_loop_sublist _ _ _ _ _ Hloop) as (kept & new & -> & _).
  rewrite !elem_of_app, list_elem_of_singleton. auto.
Qed.

(** When the loop ends, the classifier has returned for every entry that
    is not a folder. *)
Lemma changes_loop_classified get_file_content depth changes files files' d item :
  changes_loop get_file_content depth changes files = Ok files' →
  JDict d ∈ changes →
  dict_get_default (lit "item") (JDict []) d = JDict item →
  truthy (dict_get_default (lit "isFolder") (JBool false) item) = false →
  ∃ lines,
    classify get_file_content depth (default JNull (dict_get (lit "changeType") d))
      (default JNull (dict_get (lit "path") item)) item = Ok lines.
Proof.
  intros Hloop Hin Hitem Hfolder. revert files Hloop.
  induction changes as [|c changes IH]; intros files Hloop;
    [by apply elem_of_nil in Hin|].
  cbn [changes_loop] in Hloop.
  destruct (change_step _ _ files c) as [files1|] eqn:Hstep; [|done].
  cbn [mbind result_bind] in Hloop.
  apply elem_of_cons in Hin as [<-|Hin]; [|by eapply IH].
  unfold change_step in Hstep. cbn [as_dict mbind result_bind] in Hstep.
  rewrite Hitem in Hstep. cbn [as_dict mbind result_bind] in Hstep.
  rewrite Hfolder in Hstep.
  destruct (classify _ _ _ _ _) as [lines|]; [by eexists|done].
Qed.

Lemma get_pr_added_lines_only_loop get_pull_request get_diffs get_file_content depth
    data diff_data changes :
  get_pr_added_lines_only get_pull_request get_diffs get_file_content depth
  = Ok (Some data) →
  get_pr_diff get_pull_request get_diffs = Ok (JDict diff_data) →
  iterate (dict_get_default (lit "changes") (JList []) diff_data) = Ok changes →
  changes_loop get_file_content depth changes [] = Ok (files data).
Proof.
  unfold get_pr_added_lines_only. intros Hdata Hdiff Hchanges.
  rewrite Hdiff in Hdata. revert Hdata.
  destruct (truthy get_pull_request); [|done]. cbn [negb mbind result_bind].
  destruct (truthy (JDict diff_data)); [|done]. cbn [negb].
  ok_bind pr_data Hpr. ok_bind source Hsource. ok_bind target Htarget.
  cbn [as_dict mbind result_bind]. rewrite Hchanges. cbn [mbind result_bind].
  ok_bind files_with_additions Hloop. by intros [= <-].
Qed.

(** X18: no file is left out: every entry of the changeset that is not a
    folder and for which added lines are found has its file in the
    result. *)
Theorem changes_with_additions_are_listed get_pull_request get_diffs get_file_content
    depth data diff_data changes change file :
  get_pr_added_lines_only get_pull_request get_diffs get_file_content depth
  = Ok (Some data) →
  get_pr_diff get_pull_request get_diffs = Ok (JDict diff_data) →
  iterate (dict_get_default (lit "changes") (JList []) diff_data) = Ok changes →
  change ∈ changes → from_change get_file_content depth change file →
  added_lines file ≠ [] →
  file ∈ files data.
Proof.
  intros Hdata Hdiff Hchanges. eapply changes_loop_listed.
  by eapply get_pr_added_lines_only_loop.
Qed.

Lemma changes_with_additions_are_listed_witness :
  {| AzureDevOpsClient.path := JStr (lit "/src/a.py");
     changeType := JStr (lit "edit");
     added_lines := [lit "x"] |}
  ∈ [{| AzureDevOpsClient.path := JStr (lit "/src/a.py");
        changeType := JStr (lit "edit");
        added_lines := [lit "x"] |}].
Proof.
  eapply (changes_with_additions_are_listed
            Examples.pr_data (λ _ _, Examples.diff_edits) Examples.blobs 900
            {| files := [{| AzureDevOpsClient.path := JStr (lit "/src/a.py");
                            changeType := JStr (lit "edit");
                            added_lines := [lit "x"] |}];
               total := 1;
               source_branch := lit "feature";
               target_branch := lit "main" |}
            _ _
            (Examples.change "edit" [(lit "path", JStr (lit "/src/a.py"));
                                     (lit "originalObjectId", JStr (lit "a0"));
                                     (lit "objectId", JStr (lit "a1"))])).
  - vm_compute. reflexivity.
  - reflexivity.
  - reflexivity.
  - apply elem_of_cons. right. apply elem_of_cons. by left.
  - eexists _, _. split; [reflexivity|]. split; [reflexivity|].
    split; [reflexivity|]. split; [reflexivity|]. split; [reflexivity|].
    vm_compute. reflexivity.
  - done.
Defined.

(** X19: an edit whose content after has a line that its content before
    has not is reported: when both contents are fetched and not empty, the
    result has the file of the entry, with its path, and the line is among
    its added lines. *)
Theorem edit_new_line_is_reported get_pull_request get_diffs get_file_content depth
    data diff_data changes d item original_id object_id before after line :
  get_pr_added_lines_only get_pull_request get_diffs get_file_content depth
  = Ok (Some data) →
  get_pr_diff get_pull_request get_diffs = Ok (JDict diff_data) →
  iterate (dict_get_default (lit "changes") (JList []) diff_data) = Ok changes →
  JDict d ∈ changes →
  dict_get (lit "item") d = Some (JDict item) →
  truthy (dict_get_default (lit "isFolder") (JBool false) item) = false →
  dict_get (lit "changeType") d = Some (JStr (lit "edit")) →
  dict_get (lit "originalObjectId") item = Some original_id → truthy original_id = true →
  dict_get (lit "objectId") item = Some object_id → truthy object_id = true →
  get_file_content (default JNull (dict_get (lit "path") item)) original_id = Some before →
  get_file_content (default JNull (dict_get (lit "path") item)) object_id = Some after →
  before ≠ [] →
  line ∈ splitlines after → line ∉ splitlines before →
  ∃ file, file ∈ files data
          ∧ AzureDevOpsClient.path file = default JNull (dict_get (lit "path") item)
          ∧ changeType file = JStr (lit "edit")
          ∧ line ∈ added_lines file.
Proof.
  intros Hdata Hdiff Hchanges Hin Hitem Hfolder Htype Horiginal Horiginal_id
    Hobject Hobject_id Hbefore Hafter Hne Hline Hnew.
  pose proof (get_pr_added_lines_only_loop _ _ _ _ _ _ _ Hdata Hdiff Hchanges) as Hloop.
  assert (Hdict : dict_get_default (lit "item") (JDict []) d = JDict item).
  { unfold dict_get_default. by rewrite Hitem. }
  destruct (changes_loop_classified _ _ _ _ _ _ _ Hloop Hin Hdict Hfolder)
    as [lines Hlines].
  rewrite Htype in Hlines. cbn [default from_option id] in Hlines.
  assert (Hadded : compute_added_lines depth (splitlines before) (splitlines after)
                   = Ok lines).
  { rewrite <- Hlines. unfold classify.
    replace (eq_str (JStr (lit "edit")) (lit "add")) with false
      by (symmetry; by vm_compute).
    replace (eq_str (JStr (lit "edit")) (lit "edit")) with true
      by (symmetry; by vm_compute).
    rewrite Horiginal, Hobject. cbn [default from_option id].
    rewrite Horiginal_id, Hobject_id, Hbefore, Hafter. cbn [andb default from_option id].
    destruct before as [|c before]; [done|].
    destruct after as [|c' after]; [by apply elem_of_nil in Hline|]. done. }
  pose proof (compute_added_lines_new _ _ _ _ _ Hadded Hline Hnew) as Hreported.
  exists {| AzureDevOpsClient.path := default JNull (dict_get (lit "path") item);
            changeType := JStr (lit "edit");
            added_lines := lines |}.
  cbn [AzureDevOpsClient.path changeType added_lines].
  split_and!; [|done..].
  eapply changes_loop_listed; [exact Hloop|exact Hin| |].
  - exists d, item. cbn [AzureDevOpsClient.path changeType added_lines].
    rewrite Htype. by split_and!.
  - cbn [added_lines]. intros ->. by apply elem_of_nil in Hreported.
Qed.

Lemma edit_new_line_is_reported_witness :
  ∃ file,
    file ∈ [{| AzureDevOpsClient.path := JStr (lit "/src/a.py");
               changeType := JStr (lit "edit");
               added_lines := [lit "x"] |}]
    ∧ AzureDevOpsClient.path file = JStr (lit "/src/a.py")
    ∧ changeType file = JStr (lit "edit")
    ∧ lit "x" ∈ added_lines file.
Proof.
  eapply (edit_new_line_is_reported
            Examples.pr_data (λ _ _, Examples.diff_edits) Examples.blobs 900
           {| files := [{| AzureDevOpsClient.path := JStr (lit "/src/a.py");
                           changeType := JStr (lit "edit");
                           added_lines := [lit "x"] |}];
              total := 1;
              source_branch := lit "feature";
              target_branch := lit "main" |}
           _ _
           [(lit "item", JDict [(lit "path", JStr (lit "/src/a.py"));
                                (lit "originalObjectId", JStr (lit "a0"));
                                (lit "objectId", JStr (lit "a1"))]);
            (lit "changeType", JStr (lit "edit"))]
           [(lit "path", JStr (lit "/src/a.py"));
            (lit "originalObjectId", JStr (lit "a0"));
            (lit "objectId", JStr (lit "a1"))]
           (JStr (lit "a0")) (JStr (lit "a1"))
           (lit "a" ++ [LF] ++ lit "b" ++ [LF] ++ lit "c")
           (lit "a" ++ [LF] ++ lit "x" ++ [LF] ++ lit "b" ++ [LF] ++ lit "c")
           (lit "x")).
  - vm_compute. reflexivity.
  - reflexivity.
  - reflexivity.
  - apply elem_of_cons. right. apply elem_of_cons. by left.
  - reflexivity.
  - reflexivity.
  - reflexivity.
  - reflexivity.
  - reflexivity.
  - reflexivity.
  - reflexivity.
  - reflexivity.
  - reflexivity.
  - by vm_compute.
  - vm_compute. apply elem_of_cons. right. apply elem_of_cons. by left.
  - vm_compute. intros Hin.
    repeat (apply elem_of_cons in Hin as [Hin|Hin]; [done|]).
    by apply elem_of_nil in Hin.
Defined.

(** X20: an added file whose content is fetched and has lines is reported
    with all the lines of its content. *)
Theorem added_file_is_reported get_pull_request get_diffs get_file_content depth
    data diff_data changes d item object_id content :
  get_pr_added_lines_only get_pull_request get_diffs get_file_content depth
  = Ok (Some data) →
  get_pr_diff get_pull_request get_diffs = Ok (JDict diff_data) →
  iterate (dict_get_default (lit "changes") (JList []) diff_data) = Ok changes →
  JDict d ∈ changes →
  dict_get (lit "item") d = Some (JDict item) →
  truthy (dict_get_default (lit "isFolder") (JBool false) item) = false →
  dict_get (lit "changeType") d = Some (JStr (lit "add")) →
  dict_get (lit "objectId") item = Some object_id → truthy object_id = true →
  get_file_content (default JNull (dict_get (lit "path") item)) object_id = Some content →
  splitlines content ≠ [] →
  {| AzureDevOpsClient.path := default JNull (dict_get (lit "path") item);
     changeType := JStr (lit "add");
     added_lines := splitlines content |} ∈ files data.
Proof.
  intros Hdata Hdiff Hchanges Hin Hitem Hfolder Htype Hobject Hobject_id Hcontent Hlines.
  pose proof (get_pr_added_lines_only_loop _ _ _ _ _ _ _ Hdata Hdiff Hchanges) as Hloop.
  assert (Hadded :
    classify get_file_content depth (JStr (lit "add"))
      (default JNull (dict_get (lit "path") item)) item
    = Ok (splitlines content)).
  { unfold classify. replace (eq_str (JStr (lit "add")) (lit "add")) with true
      by (symmetry; by vm_compute).
    rewrite Hobject. cbn [default from_option id]. rewrite Hobject_id, Hcontent.
    cbn [default from_option id]. by destruct content. }
  eapply changes_loop_listed; [exact Hloop|exact Hin| |done].
  exists d, item. cbn [AzureDevOpsClient.path changeType added_lines].
  unfold dict_get_default. rewrite Hitem, Htype. cbn [default from_option id].
  by split_and!.
Qed.

Lemma added_file_is_reported_witness :
  {| AzureDevOpsClient.path := JStr (lit "/new.txt");
     changeType := JStr (lit "add");
     added_lines := splitlines (lit "l1" ++ [LF] ++ lit "l2") |}
  ∈ [{| AzureDevOpsClient.path := JStr (lit "/new.txt");
        changeType := JStr (lit "add");
        added_lines := [lit "l1"; lit "l2"] |}].
Proof.
  eapply (added_file_is_reported
            Examples.pr_data (λ _ _, Examples.diff_add_delete) Examples.blobs 900
            {| files := [{| AzureDevOpsClient.path := JStr (lit "/new.txt");
                            changeType := JStr (lit "add");
                            added_lines := [lit "l1"; lit "l2"] |}];
               total := 1;
               source_branch := lit "feature";
               target_branch := lit "main" |}
            _ _
            [(lit "item", JDict [(lit "path", JStr (lit "/new.txt"));
                                 (lit "objectId", JStr (lit "o1"))]);
             (lit "changeType", JStr (lit "add"))]
            [(lit "path", JStr (lit "/new.txt")); (lit "objectId", JStr (lit "o1"))]
            (JStr (lit "o1"))
            (lit "l1" ++ [LF] ++ lit "l2")).
  - vm_compute. reflexivity.
  - reflexivity.
  - reflexivity.
  - apply elem_of_cons. by left.
  - reflexivity.
  - reflexivity.
  - reflexivity.
  - reflexivity.
  - reflexivity.
  - reflexivity.
  - by vm_compute.
Defined.

(** ** The formatter: issues, commits and the files of the assembler *)

Lemma get_in_not_dict fields key sub dflt v :
  dict_get key fields = Some v → (∀ d, v ≠ JDict d) →
  get_in fields key sub dflt = Raise AttributeError.
Proof.
  intros Hkey Hv. unfold get_in, dict_get_default. rewrite Hkey. cbn [default from_option id].
  destruct v; try done. by destruct (Hv items).
Qed.

(** X7: an issue whose [issuetype], [status], [priority], [assignee] or
    [reporter] is present and not a dict (Jira gives [null] for an issue
    that is not assigned) is not formatted: [format_jira_issue] raises. *)
Theorem format_jira_issue_null_field py_str issue fields key v :
  issue ≠ [] →
  dict_get (lit "fields") issue = Some (JDict fields) →
  key ∈ [lit "issuetype"; lit "status"; lit "priority"; lit "assignee"; lit "reporter"] →
  dict_get key fields = Some v → (∀ d, v ≠ JDict d) →
  ∃ e, format_jira_issue py_str (JDict issue) = Raise e.
Proof.
  intros Hissue Hfields Hkey Hv Hdict. unfold format_jira_issue.
  destruct issue as [|kv issue]; [done|]. cbn [truthy negb as_dict mbind result_bind].
  unfold dict_get_default. rewrite Hfields.
  cbn [default from_option id as_dict mbind result_bind].
  repeat match goal with
    | |- ∃ e, mbind _ ?m = Raise e =>
        let Hm := fresh "Hm" in
        destruct m eqn:Hm; cbn [mbind result_bind]; [|by eexists]
    end.
  exfalso.
  repeat (apply elem_of_cons in Hkey as [->|Hkey];
          [rewrite (get_in_not_dict _ _ _ _ _ Hv Hdict) in *; done|]).
  by apply elem_of_nil in Hkey.
Qed.

Lemma format_jira_issue_null_field_witness :
  ∃ e, format_jira_issue (λ _, [])
         (JDict [(lit "key", JStr (lit "PROJ-1"));
                 (lit "fields", JDict [(lit "summary", JStr (lit "s"));
                                       (lit "assignee", JNull)])]) = Raise e.
Proof.
  apply (format_jira_issue_null_field _ _
           [(lit "summary", JStr (lit "s")); (lit "assignee", JNull)]
           (lit "assignee") JNull); try done.
  by repeat (apply elem_of_cons; first [by left | right]).
Defined.

(** X8: the formatter reads the fields of an issue under ['fields'], and the
    dict that [get_issue_summary_only] returns (written to
    [issue_data.json]) has none: of such an issue the formatted record keeps
    the key, and its summary and description come out empty. *)
Theorem format_issue_summary py_str response issue_data :
  JiraClient.get_issue_summary_only response = Some issue_data →
  ∃ key summary_text description_text,
    issue_data = JDict [(lit "key", key); (lit "summary", summary_text);
                        (lit "description", description_text)]
    ∧ format_jira_issue py_str issue_data
      = Ok (Some {| issue_key := key;
                    summary := JStr [];
                    description := JStr [];
                    type := JStr [];
                    status := JStr [];
                    priority := JStr [];
                    assignee := JStr (lit "N/A");
                    reporter := JStr (lit "N/A");
                    created := JStr [];
                    updated := JStr [] |}).
Proof.
  unfold JiraClient.get_issue_summary_only, JiraClient.issue_summary.
  destruct response as [[status_code [data|]]|]; try done; destruct (_ =? _)%Z; try done.
  destruct (as_dict data) as [d|]; [|done]. cbn [mbind result_bind].
  destruct (as_dict _) as [fields|]; [|done]. cbn [mbind result_bind].
  intros [= <-]. eexists _, _, _. split; [done|].
  unfold format_jira_issue, get_in, dict_get_default. cbn [truthy negb]. by dict_steps.
Qed.

Lemma format_issue_summary_witness :
  ∃ key summary_text description_text,
    JDict [(lit "key", JStr (lit "PROJ-1")); (lit "summary", JStr (lit "Fix"));
           (lit "description", JNull)]
    = JDict [(lit "key", key); (lit "summary", summary_text);
             (lit "description", description_text)]
    ∧ format_jira_issue (λ _, [])
        (JDict [(lit "key", JStr (lit "PROJ-1")); (lit "summary", JStr (lit "Fix"));
                (lit "description", JNull)])
      = Ok (Some {| issue_key := key;
                    summary := JStr [];
                    description := JStr [];
                    type := JStr [];
                    status := JStr [];
                    priority := JStr [];
                    assignee := JStr (lit "N/A");
                    reporter := JStr (lit "N/A");
                    created := JStr [];
                    updated := JStr [] |}).
Proof.
  apply (format_issue_summary (λ _, [])
           (Some (200%Z,
                  Some (JDict [(lit "key", JStr (lit "PROJ-1"));
                               (lit "fields", JDict [(lit "summary", JStr (lit "Fix"))])])))).
  reflexivity.
Defined.

Lemma format_commits_loop_each value commits commits' :
  format_commits_loop value commits = Ok commits' →
  ∃ new, commits' = commits ++ new
         ∧ Forall2 (λ commit c, format_commit commit = Ok c) value new.
Proof.
  revert commits. induction value as [|commit value IH]; intros commits.
  - intros [= <-]. exists []. by rewrite app_nil_r.
  - cbn [format_commits_loop]. destruct (format_commit commit) as [c|] eqn:Hc; [|done].
    cbn [mbind result_bind]. intros Hrest.
    destruct (IH _ Hrest) as (new & -> & Hnew).
    exists (c :: new). split; [by rewrite <- app_assoc|]. by constructor.
Qed.

(** X9: [format_commits] gives one record per commit, in their order; the
    [commit_id] of a commit with a string id is the first 8 characters of
    the id, and the whole id when it has fewer; a commit without id gets the
    empty [commit_id]. *)
Theorem format_commits_short_ids pr_commits d value commits :
  pr_commits = JDict d →
  iterate (dict_get_default (lit "value") (JList []) d) = Ok value →
  format_commits pr_commits = Ok commits →
  Forall2 (λ commit c,
             ∃ fields, commit = JDict fields
               ∧ (dict_get (lit "commitId") fields = None → commit_id c = JStr [])
               ∧ ∀ full, dict_get (lit "commitId") fields = Some (JStr full) →
                   ∃ short, commit_id c = JStr short
                            ∧ short `prefix_of` full
                            ∧ length short = 8 `min` length full
                            ∧ (length full ≤ 8 → short = full))
    value commits.
Proof.
  intros -> Hvalue. unfold format_commits.
  destruct d as [|kv d]; [by injection Hvalue as <-; intros [= <-]|].
  cbn [truthy negb as_dict mbind result_bind]. rewrite Hvalue. cbn [mbind result_bind].
  intros (new & -> & Hnew)%format_commits_loop_each. cbn [app].
  eapply Forall2_impl; [done|]. clear. intros commit c. unfold format_commit.
  destruct commit as [| | | | |fields]; try done. cbn [as_dict mbind result_bind].
  ok_bind short Hshort. ok_bind who Hwho. ok_bind when Hwhen.
  intros [= <-]. cbn [commit_id]. exists fields. split; [done|].
  unfold dict_get_default in Hshort. split.
  - intros Hid. rewrite Hid in Hshort. by injection Hshort as <-.
  - intros full Hid. rewrite Hid in Hshort. injection Hshort as <-.
    exists (take 8 full). split; [done|]. split_and!.
    + apply prefix_take.
    + rewrite length_take. lia.
    + intros Hlen. by apply take_ge.
Qed.

Lemma format_commits_short_ids_witness :
  Forall2 (λ commit c,
             ∃ fields, commit = JDict fields
               ∧ (dict_get (lit "commitId") fields = None → commit_id c = JStr [])
               ∧ ∀ full, dict_get (lit "commitId") fields = Some (JStr full) →
                   ∃ short, commit_id c = JStr short
                            ∧ short `prefix_of` full
                            ∧ length short = 8 `min` length full
                            ∧ (length full ≤ 8 → short = full))
    [JDict [(lit "commitId", JStr (lit "0123456789abcdef"));
            (lit "comment", JStr (lit "fix"))];
     JDict [(lit "commitId", JStr (lit "abc"))]]
    [{| commit_id := JStr (lit "01234567"); message := JStr (lit "fix");
        author := JStr (lit "N/A"); date := JStr [] |};
     {| commit_id := JStr (lit "abc"); message := JStr [];
        author := JStr (lit "N/A"); date := JStr [] |}].
Proof.
  eapply (format_commits_short_ids
            (JDict [(lit "value",
                     JList [JDict [(lit "commitId", JStr (lit "0123456789abcdef"));
                                   (lit "comment", JStr (lit "fix"))];
                            JDict [(lit "commitId", JStr (lit "abc"))]])]));
    reflexivity.
Defined.

Lemma format_file_dumped (file : AzureDevOpsClient.file_info) :
  format_file (dump_file_info file)
  = Ok {| path := AzureDevOpsClient.path file;
          change_type := changeType file;
          lines_before := 0; lines_after := 0; lines_changed := 0;
          content_before := JStr []; content_after := JStr [] |}.
Proof.
  unfold format_file, dump_file_info, dict_get_default, subscript. dict_steps.
  cbn [count_lines truthy mbind result_bind]. dict_steps.
  unfold lines_added, lines_removed. by destruct (eq_str _ _), (eq_str _ _).
Qed.

(** X10: on the file the assembler writes ([pr_files_content.json], which
    has the added lines and no content before or after) every record of
    [format_file_contents] has 0 lines before, 0 lines after and 0 lines
    changed, and empty contents. *)
Theorem statistics_of_assembled_files (data : added_lines_data) :
  format_file_contents (dump_added_lines_data data)
  = Ok ((λ file, {| path := AzureDevOpsClient.path file;
                    change_type := changeType file;
                    lines_before := 0; lines_after := 0; lines_changed := 0;
                    content_before := JStr []; content_after := JStr [] |})
          <$> files data).
Proof.
  unfold format_file_contents, dump_added_lines_data, dict_get_default.
  cbn [truthy negb]. dict_steps. cbn [iterate mbind result_bind].
  assert (Hloop : ∀ l acc,
    format_files (dump_file_info <$> l) acc
    = Ok (acc ++ ((λ file, {| path := AzureDevOpsClient.path file;
                              change_type := changeType file;
                              lines_before := 0; lines_after := 0; lines_changed := 0;
                              content_before := JStr []; content_after := JStr [] |})
                    <$> l))).
  { induction l as [|file l IH]; intros acc; [cbn; by rewrite app_nil_r|].
    rewrite !fmap_cons. cbn [format_files]. rewrite format_file_dumped.
    cbn [mbind result_bind]. rewrite IH. by rewrite <- app_assoc. }
  apply Hloop.
Qed.

(** ** The flattener: nothing else than the visited texts, and its errors *)

(** A traversal appends only texts of dicts it visits. *)
Lemma extract_content_only_visited root parts parts' :
  extract_content root parts = Ok parts' →
  ∃ below, parts' = parts ++ below ∧
    ∀ v, v ∈ below →
      ∃ d, visits root (JDict d) ∧ dict_get (lit "text") d = Some v.
Proof.
  revert parts parts'.
  induction root as [| | | |l IH|d IH] using json_nested_ind; intros parts parts';
    try (intros [= <-]; exists []; split; [by rewrite app_nil_r|];
         by intros v ?%elem_of_nil).
  - rewrite extract_content_list. revert parts parts'.
    induction IH as [|x l Hx _ IHl]; intros parts parts'.
    + intros [= <-]. exists []. split; [by rewrite app_nil_r|]. by intros v ?%elem_of_nil.
    + cbn [extract_each].
      destruct (extract_content x parts) as [parts1|] eqn:Hparts1; [|done].
      cbn [mbind result_bind]. intros Hrest.
      destruct (Hx _ _ Hparts1) as (below1 & -> & Hbelow1).
      destruct (IHl _ _ Hrest) as (below2 & -> & Hbelow2).
      exists (below1 ++ below2). split; [by rewrite app_assoc|].
      intros v [Hv|Hv]%elem_of_app.
      * destruct (Hbelow1 v Hv) as (d & Hvisit & Hd). exists d. split; [|done].
        eapply visits_item; [|done]. apply elem_of_cons. by left.
      * destruct (Hbelow2 v Hv) as (d & Hvisit & Hd). exists d. split; [|done].
        inversion Hvisit as [| |? item ? Hin Hitem]; subst.
        eapply visits_item; [|done]. apply elem_of_cons. by right.
  - rewrite extract_content_dict. cbn zeta.
    set (own := match dict_get (lit "text") d with Some t => [t] | None => [] end).
    replace (match dict_get (lit "text") d with Some t => parts ++ [t] | None => parts end)
      with (parts ++ own) by (subst own; destruct (dict_get _ d); by rewrite ?app_nil_r).
    assert (Hown : ∀ v, v ∈ own →
              ∃ d', visits (JDict d) (JDict d') ∧ dict_get (lit "text") d' = Some v).
    { intros v Hv. exists d. split; [constructor|]. subst own.
      destruct (dict_get _ d); [|by apply elem_of_nil in Hv].
      by apply list_elem_of_singleton in Hv as ->. }
    destruct (dict_get (lit "content") d) as [c|] eqn:Hc.
    2: { intros [= <-]. by exists own. }
    pose proof (proj1 (Forall_forall _ _) IH _ (dict_get_elem _ _ _ Hc)) as Hl.
    cbn [snd] in Hl. destruct c as [| | | |l|]; try done.
    1,3: intros [= <-]; by exists own.
    rewrite <- extract_content_list. intros Hrest.
    destruct (Hl _ _ Hrest) as (below & -> & Hbelow).
    exists (own ++ below). split; [by rewrite app_assoc|].
    intros v [Hv|Hv]%elem_of_app; [by apply Hown|].
    destruct (Hbelow v Hv) as (d' & Hvisit & Hd'). exists d'. split; [|done].
    inversion Hvisit as [| |? item ? Hin Hitem]; subst.
    by eapply visits_content.
Qed.

(** X11: the text a document is flattened to is made of texts of dicts the
    traversal visits, joined by newlines, and of nothing else: a text under
    another key than ['content'] is not taken. *)
Theorem extract_text_only_visited py_str d out :
  _extract_text_from_adf py_str (JDict d) = Ok out →
  ∃ texts, out = join [LF] texts
    ∧ ∀ t, t ∈ texts →
        ∃ node, visits (JDict d) (JDict node)
                ∧ dict_get (lit "text") node = Some (JStr t).
Proof.
  unfold _extract_text_from_adf.
  ok_bind parts Hparts. ok_bind strs Hstrs. intros [= <-].
  exists strs. split; [done|]. intros t Ht.
  destruct (extract_content_only_visited _ _ _ Hparts) as (below & -> & Hbelow).
  cbn [app] in Hstrs. apply Hbelow. rewrite (as_strs_fmap _ _ Hstrs).
  apply list_elem_of_fmap. eauto.
Qed.

Lemma extract_text_only_visited_witness :
  ∃ texts, lit "T" ++ [LF] ++ lit "u" = join [LF] texts
    ∧ ∀ t, t ∈ texts →
        ∃ node, visits (JDict (Examples.inner_node
                                 ++ [(lit "attrs", JDict [(lit "text", JStr (lit "no"))])]))
                  (JDict node)
                ∧ dict_get (lit "text") node = Some (JStr t).
Proof.
  apply (extract_text_only_visited (λ _, [])). reflexivity.
Defined.

Lemma extract_content_raises root parts e :
  extract_content root parts = Raise e → e = TypeError.
Proof.
  revert parts.
  induction root as [| | | |l IH|d IH] using json_nested_ind; intros parts; try done.
  - rewrite extract_content_list. revert parts.
    induction IH as [|x l Hx _ IHl]; intros parts; [done|].
    cbn [extract_each]. destruct (extract_content x parts) eqn:Hx'; cbn [mbind result_bind].
    + apply IHl.
    + intros [= <-]. by eapply Hx.
  - rewrite extract_content_dict. cbn zeta.
    destruct (dict_get (lit "content") d) as [c|] eqn:Hc; [|done].
    pose proof (proj1 (Forall_forall _ _) IH _ (dict_get_elem _ _ _ Hc)) as Hl.
    cbn [snd] in Hl. destruct c as [| | | |l|]; try done; try by intros [= <-].
    rewrite <- extract_content_list. apply Hl.
Qed.

Lemma as_strs_not_str parts v :
  v ∈ parts → (∀ s, v ≠ JStr s) → as_strs parts = Raise TypeError.
Proof.
  intros Hin Hv. induction parts as [|x parts IH]; [by apply elem_of_nil in Hin|].
  apply elem_of_cons in Hin as [<-|Hin].
  - destruct v; try done. by destruct (Hv s).
  - destruct x; try done. cbn [as_strs]. by rewrite IH.
Qed.

(** X12: when a dict the traversal visits has a ['text'] that is not a
    string, the flattening raises [TypeError] and returns no text. *)
Theorem extract_text_not_str py_str d node v :
  visits (JDict d) (JDict node) →
  dict_get (lit "text") node = Some v →
  (∀ s, v ≠ JStr s) →
  _extract_text_from_adf py_str (JDict d) = Raise TypeError.
Proof.
  intros Hvisit Htext Hv. unfold _extract_text_from_adf.
  destruct (extract_content (JDict d) []) as [parts|e] eqn:Hparts; cbn [mbind result_bind].
  - destruct (extract_content_collects _ _ _ Hparts) as (below & -> & Hbelow).
    cbn [app]. by rewrite (as_strs_not_str _ v (Hbelow _ _ Hvisit Htext) Hv).
  - by rewrite (extract_content_raises _ _ _ Hparts).
Qed.

Lemma extract_text_not_str_witness :
  _extract_text_from_adf (λ _, [])
    (JDict [(lit "content", JList [JDict [(lit "text", JStr (lit "a"))];
                                   JDict [(lit "text", JNum 5)]])])
  = Raise TypeError.
Proof.
  apply (extract_text_not_str _ _ [(lit "text", JNum 5)] (JNum 5)); [|done..].
  eapply visits_content; [reflexivity| |constructor].
  apply elem_of_cons. right. apply elem_of_cons. by left.
Defined.

